(** * Grasp data generation (vgn/data_generation.py): a shallow embedding

    Definitions first, in the order the pipeline needs them:

    - [Peaks]: [scipy.signal.find_peaks] as [evaluate_grasp_point] calls it
      ([height=1], [width=1]), index loops included, and the selection of
      the widest peak of successful yaw angles;
    - [PeakSpec]: the same selection in the words of the specification,
      maximal runs of successes;
    - [Geometry]: vectors, quaternions, [scipy]'s rotations, [np.round];
    - [Grasping]: grasps and labels, the collaborators (simulation, random
      source, point cloud, TSDF volume), [sample_grasp_point],
      [evaluate_grasp_point], the candidate loop of [generate_samples] and
      [store_sample], and the tail of one scene, from the extracted cloud to
      the stored volumes;
    - [Examples]: test doubles and concrete inputs.

    Then the proofs, the module [Claims] with one theorem per claim, and
    last the module [Properties] with further properties of the pipeline,
    each read off the code.

    Conventions.  Python integers used as indices are [Z] inside the array
    loops (they run below zero in the prominence scan) and [nat] where they
    count.  The success indicator handed to [find_peaks] only holds the
    values 0.0 and 1.0, and every number computed from it is a half-integer:
    rationals [Q] represent those floats exactly.  All other float64
    quantities (positions, normals, widths, quaternions) are idealised as
    real numbers [R], and the float32 label volumes hold them unrounded. *)

From Stdlib Require Import List ZArith QArith Bool Lia Arith Reals Lra.
Import ListNotations.

(** ** scipy.signal.find_peaks on the success indicator *)

Module Peaks.

Local Open Scope Z_scope.

(** [x[i]] for an index the loops have already bounds-checked. *)
Definition item (x : list Q) (i : Z) : Q := nth (Z.to_nat i) x 0%Q.

Definition Qltb (a b : Q) : bool := negb (Qle_bool b a).

(** One entry of the three parallel arrays [midpoints], [left_edges],
    [right_edges] of [_local_maxima_1d]. *)
Record Maximum : Type := mkMaximum
  { midpoint : Z; left_edge : Z; right_edge : Z }.

(** The inner loop of [_local_maxima_1d]:
    [while i_ahead < i_max and x[i_ahead] == x[i]: i_ahead += 1]. *)
Fixpoint look_ahead (fuel : nat) (x : list Q) (i_max : Z) (xi : Q)
    (i_ahead : Z) : Z :=
  match fuel with
  | O => i_ahead
  | S fuel' =>
      if (i_ahead <? i_max) && Qeq_bool (item x i_ahead) xi
      then look_ahead fuel' x i_max xi (i_ahead + 1)
      else i_ahead
  end.

(** The outer loop of [_local_maxima_1d], [while i < i_max], started at
    [i = 1].  A maximum (possibly a flat one) is recorded when the previous
    sample is smaller and the next unequal sample is smaller; the loop then
    skips to the sample after the plateau. *)
Fixpoint maxima_loop (fuel : nat) (x : list Q) (i_max i : Z) : list Maximum :=
  match fuel with
  | O => []
  | S fuel' =>
      if i <? i_max then
        if Qltb (item x (i - 1)) (item x i) then
          let i_ahead := look_ahead (length x) x i_max (item x i) (i + 1) in
          if Qltb (item x i_ahead) (item x i) then
            mkMaximum ((i + (i_ahead - 1)) / 2) i (i_ahead - 1)
              :: maxima_loop fuel' x i_max (i_ahead + 1)
          else maxima_loop fuel' x i_max (i + 1)
        else maxima_loop fuel' x i_max (i + 1)
      else []
  end.

Definition local_maxima_1d (x : list Q) : list Maximum :=
  maxima_loop (length x) x (Z.of_nat (length x) - 1) 1.

(** [_select_by_property] with a lower bound only: [pmin <= property]. *)
Definition select_by_property (pmin : Q) (property : Q) : bool :=
  Qle_bool pmin property.

(** The two scans of [_peak_prominences] (with [wlen=None], so
    [i_min = 0] and [i_max = len(x) - 1]).  Each returns the lowest sample
    met and the index where it was first met. *)
Fixpoint left_base_loop (fuel : nat) (x : list Q) (i_min peak i : Z)
    (left_min : Q) (left_base : Z) : Q * Z :=
  match fuel with
  | O => (left_min, left_base)
  | S fuel' =>
      if (i_min <=? i) && Qle_bool (item x i) (item x peak) then
        if Qltb (item x i) left_min
        then left_base_loop fuel' x i_min peak (i - 1) (item x i) i
        else left_base_loop fuel' x i_min peak (i - 1) left_min left_base
      else (left_min, left_base)
  end.

Fixpoint right_base_loop (fuel : nat) (x : list Q) (i_max peak i : Z)
    (right_min : Q) (right_base : Z) : Q * Z :=
  match fuel with
  | O => (right_min, right_base)
  | S fuel' =>
      if (i <=? i_max) && Qle_bool (item x i) (item x peak) then
        if Qltb (item x i) right_min
        then right_base_loop fuel' x i_max peak (i + 1) (item x i) i
        else right_base_loop fuel' x i_max peak (i + 1) right_min right_base
      else (right_min, right_base)
  end.

Definition Qmaxb (a b : Q) : Q := if Qle_bool a b then b else a.

Record Prominence : Type := mkProminence
  { prominence : Q; left_base : Z; right_base : Z }.

Definition peak_prominence (x : list Q) (peak : Z) : Prominence :=
  let fuel := S (length x) in
  let '(left_min, lb) :=
    left_base_loop fuel x 0 peak peak (item x peak) peak in
  let '(right_min, rb) :=
    right_base_loop fuel x (Z.of_nat (length x) - 1) peak peak
      (item x peak) peak in
  mkProminence (item x peak - Qmaxb left_min right_min)%Q lb rb.

(** The two scans of [_peak_widths]: walk from the peak to the sample where
    the signal drops to the evaluation height, stopping at the base. *)
Fixpoint left_ip_loop (fuel : nat) (x : list Q) (i_min : Z) (height : Q)
    (i : Z) : Z :=
  match fuel with
  | O => i
  | S fuel' =>
      if (i_min <? i) && Qltb height (item x i)
      then left_ip_loop fuel' x i_min height (i - 1)
      else i
  end.

Fixpoint right_ip_loop (fuel : nat) (x : list Q) (i_max : Z) (height : Q)
    (i : Z) : Z :=
  match fuel with
  | O => i
  | S fuel' =>
      if (i <? i_max) && Qltb height (item x i)
      then right_ip_loop fuel' x i_max height (i + 1)
      else i
  end.

Definition peak_width (x : list Q) (rel_height : Q) (peak : Z)
    (p : Prominence) : Q :=
  let fuel := S (length x) in
  let height := (item x peak - prominence p * rel_height)%Q in
  let il := left_ip_loop fuel x (left_base p) height peak in
  let left_ip :=
    if Qltb (item x il) height
    then (inject_Z il + (height - item x il) / (item x (il + 1) - item x il))%Q
    else inject_Z il in
  let ir := right_ip_loop fuel x (right_base p) height peak in
  let right_ip :=
    if Qltb (item x ir) height
    then (inject_Z ir - (height - item x ir) / (item x (ir - 1) - item x ir))%Q
    else inject_Z ir in
  (right_ip - left_ip)%Q.

(** [find_peaks(x, height=h, width=w)]: the local maxima, those at least
    [h] high, their prominences and their widths at [rel_height = 0.5], and
    those at least [w] wide.  The result pairs [peaks] with
    [properties["widths"]]. *)
Definition find_peaks (x : list Q) (height width : Q) : list (Z * Q) :=
  let peaks := map midpoint (local_maxima_1d x) in
  let peaks := filter (fun p => select_by_property height (item x p)) peaks in
  let widths :=
    map (fun p => (p, peak_width x (1 # 2) p (peak_prominence x p))) peaks in
  filter (fun pw => select_by_property width (snd pw)) widths.

(** [np.argmax]: the first index holding the greatest value; an empty
    argument raises. *)
Fixpoint argmax_from (best : Q) (best_i i : nat) (l : list Q) : nat :=
  match l with
  | [] => best_i
  | w :: t =>
      if Qltb best w then argmax_from w i (S i) t
      else argmax_from best best_i (S i) t
  end.

Definition argmax (l : list Q) : option nat :=
  match l with
  | [] => None
  | w :: t => Some (argmax_from w 0 1 t)
  end.

Definition b2q (b : bool) : Q := if b then 1%Q else 0%Q.

(** [np.r_[0, successes, 0]]. *)
Definition padded (successes : list bool) : list Q :=
  0%Q :: map b2q successes ++ [0%Q].

(** Lines 124-127 of [evaluate_grasp_point]:
    [peaks[np.argmax(properties["widths"])] - 1]. *)
Definition idx_of_widest_peak (successes : list bool) : option Z :=
  let found := find_peaks (padded successes) 1 1 in
  match argmax (map snd found) with
  | None => None
  | Some a =>
      match nth_error (map fst found) a with
      | None => None
      | Some p => Some (p - 1)
      end
  end.

End Peaks.


(** ** Peak selection as the specification words it

    Maximal contiguous runs of successes, the first of the widest ones, and
    its midpoint. *)

Module PeakSpec.

Local Open Scope nat_scope.

(** The maximal runs of [true] in [l], in order, as (start, length); [i] is
    the position of the head of [l] and [cur] the start of the run in
    progress. *)
Fixpoint runs_from (i : nat) (cur : option nat) (l : list bool)
    : list (nat * nat) :=
  match l with
  | [] =>
      match cur with
      | Some c => [(c, i - c)]
      | None => []
      end
  | true :: t =>
      runs_from (S i) (Some (match cur with Some c => c | None => i end)) t
  | false :: t =>
      match cur with
      | Some c => (c, i - c) :: runs_from (S i) None t
      | None => runs_from (S i) None t
      end
  end.

Definition success_runs (l : list bool) : list (nat * nat) :=
  runs_from 0 None l.

(** The first run, in order of start, among those of greatest length. *)
Definition widest_first (rs : list (nat * nat)) : option (nat * nat) :=
  find (fun r => snd r =? list_max (map snd rs)) rs.

(** The middle position of a run; the lower middle when the length is
    even. *)
Definition run_midpoint (r : nat * nat) : nat := fst r + (snd r - 1) / 2.

Definition widest_run_midpoint (l : list bool) : option nat :=
  option_map run_midpoint (widest_first (success_runs l)).

(** [(st, n)] is a maximal run of successes of [l]: [n >= 1] successes from
    position [st], not extendable on either side. *)
Definition maximal_run (l : list bool) (st n : nat) : Prop :=
  1 <= n /\
  (forall j, st <= j < st + n -> nth j l false = true) /\
  (st = 0 \/ nth (st - 1) l false = false) /\
  nth (st + n) l false = false.

(** What [runs_from] knows about the part of the indicator it has already
    read: it ends with a failure, or with the run in progress. *)
Definition run_inv (prefix : list bool) (cur : option nat) : Prop :=
  match cur with
  | None => nth (length prefix - 1) prefix false = false
  | Some c =>
      c < length prefix /\
      (forall j, c <= j < length prefix -> nth j prefix false = true) /\
      (c = 0 \/ nth (c - 1) prefix false = false)
  end.

(** [(st, n)] is the run the peak selection must pick: a maximal run, at
    least as long as every other, and starting first among the longest. *)
Definition widest_run (l : list bool) (st n : nat) : Prop :=
  maximal_run l st n /\
  forall st' n', maximal_run l st' n' -> n' <= n /\ (n' = n -> st <= st').

(** Position [a] holds the first greatest element of [ns]. *)
Definition first_max (ns : list nat) (a : nat) : Prop :=
  a < length ns /\
  (forall m, In m ns -> m <= nth a ns 0) /\
  (forall j, j < a -> nth j ns 0 < nth a ns 0).

(** The width [find_peaks] reports, a float, is the whole number [n]. *)
Definition width_is (w : Q) (n : nat) : Prop :=
  (w == inject_Z (Z.of_nat n))%Q.

(** The indicator read at any integer position, [false] outside the list. *)
Definition sbit (s : list bool) (j : Z) : bool :=
  (0 <=? j)%Z && nth (Z.to_nat j) s false.

(** The entry [_local_maxima_1d] records for the run [(st, n)] of the
    unpadded indicator: the padding shifts every position by one. *)
Definition maximum_of_run (r : nat * nat) : Peaks.Maximum :=
  let st := Z.of_nat (fst r) in
  let n := Z.of_nat (snd r) in
  Peaks.mkMaximum ((2 * st + n + 1) / 2) (st + 1) (st + n).

End PeakSpec.


(** ** Vectors, quaternions and rotations

    [Rotation] follows [scipy.spatial.transform.Rotation], which
    [vgn.utils.transform.Rotation] extends: a rotation is stored as a unit
    quaternion in scalar-last order (x, y, z, w). *)

Module Geometry.

Local Open Scope R_scope.

Record Vec3 : Type := mkVec3 { vx : R; vy : R; vz : R }.

Definition vneg (a : Vec3) : Vec3 := mkVec3 (- vx a) (- vy a) (- vz a).

Definition vadd (a b : Vec3) : Vec3 :=
  mkVec3 (vx a + vx b) (vy a + vy b) (vz a + vz b).

Definition vscale (a : Vec3) (k : R) : Vec3 :=
  mkVec3 (vx a * k) (vy a * k) (vz a * k).

Definition vdiv (a : Vec3) (k : R) : Vec3 :=
  mkVec3 (vx a / k) (vy a / k) (vz a / k).

(** [np.dot] and [np.cross] on 3-vectors. *)
Definition dot (a b : Vec3) : R := vx a * vx b + vy a * vy b + vz a * vz b.

Definition cross (a b : Vec3) : Vec3 :=
  mkVec3 (vy a * vz b - vz a * vy b)
         (vz a * vx b - vx a * vz b)
         (vx a * vy b - vy a * vx b).

(** [np.isclose(a, b, rtol)] with the default [atol = 1e-8]:
    [|a - b| <= atol + rtol * |b|]. *)
Definition isclose (a b rtol : R) : bool :=
  if Rle_dec (Rabs (a - b)) (1 / 100000000 + rtol * Rabs b)
  then true else false.

(** [np.linspace(start, stop, num)] with the end point included. *)
Definition linspace (start stop : R) (num : nat) : list R :=
  match num with
  | 1%nat => [start]
  | _ =>
      map (fun k => start + INR k * ((stop - start) / INR (num - 1)))
        (seq 0 num)
  end.

Record Quat : Type := mkQuat { qx : R; qy : R; qz : R; qw : R }.

Definition quat_norm (q : Quat) : R :=
  sqrt (qx q * qx q + qy q * qy q + qz q * qz q + qw q * qw q).

Definition quat_normalize (q : Quat) : Quat :=
  let n := quat_norm q in mkQuat (qx q / n) (qy q / n) (qz q / n) (qw q / n).

Definition quat_neg (q : Quat) : Quat :=
  mkQuat (- qx q) (- qy q) (- qz q) (- qw q).

(** [_compose_quat(p, q)]: the Hamilton product, scalar last. *)
Definition compose_quat (p q : Quat) : Quat :=
  mkQuat
    (qw p * qx q + qw q * qx p + (qy p * qz q - qz p * qy q))
    (qw p * qy q + qw q * qy p + (qz p * qx q - qx p * qz q))
    (qw p * qz q + qw q * qz p + (qx p * qy q - qy p * qx q))
    (qw p * qw q - (qx p * qx q + qy p * qy q + qz p * qz q)).

Record Rotation : Type := mkRotation { as_quat : Quat }.

(** Every constructor of the class leaves a quaternion of norm 1. *)
Definition unit_rotation (r : Rotation) : Prop :=
  qx (as_quat r) * qx (as_quat r) + qy (as_quat r) * qy (as_quat r)
  + qz (as_quat r) * qz (as_quat r) + qw (as_quat r) * qw (as_quat r) = 1.

(** [Rotation.__mul__]: composes the quaternions and renormalises. *)
Definition rot_mul (p q : Rotation) : Rotation :=
  mkRotation (quat_normalize (compose_quat (as_quat p) (as_quat q))).

(** Modelled from the spec: [Rotation.identity()] of vgn.utils.transform,
    which is not among the sources; "the identity rotation", the quaternion
    (0, 0, 0, 1). *)
Definition rot_identity : Rotation := mkRotation (mkQuat 0 0 0 1).

(** [Rotation.from_euler("z", yaw)]: one extrinsic rotation about z. *)
Definition from_euler_z (yaw : R) : Rotation :=
  mkRotation (mkQuat 0 0 (sin (yaw / 2)) (cos (yaw / 2))).

(** [Rotation.from_rotvec(v)]: angle [|v|] about the axis [v / |v|], with
    the truncated series scipy uses for angles up to 1e-3. *)
Definition from_rotvec (v : Vec3) : Rotation :=
  let angle := sqrt (dot v v) in
  let scale :=
    if Rle_dec angle (1 / 1000)
    then 1 / 2 - angle * angle / 48 + angle * angle * angle * angle / 3840
    else sin (angle / 2) / angle in
  mkRotation
    (mkQuat (scale * vx v) (scale * vy v) (scale * vz v) (cos (angle / 2))).

(** A 3x3 matrix, [m_rc] in row [r] and column [c]. *)
Record Mat3 : Type := mkMat3
  { m00 : R; m01 : R; m02 : R;
    m10 : R; m11 : R; m12 : R;
    m20 : R; m21 : R; m22 : R }.

(** [np.vstack((a, b, c)).T]: the matrix whose columns are [a], [b], [c]. *)
Definition columns (a b c : Vec3) : Mat3 :=
  mkMat3 (vx a) (vx b) (vx c)
         (vy a) (vy b) (vy c)
         (vz a) (vz b) (vz c).

(** [np.argmax] of the four entries of one row of the decision matrix. *)
Definition argmax4 (d0 d1 d2 d3 : R) : nat :=
  let '(best, i) := (d0, 0%nat) in
  let '(best, i) := if Rlt_dec best d1 then (d1, 1%nat) else (best, i) in
  let '(best, i) := if Rlt_dec best d2 then (d2, 2%nat) else (best, i) in
  let '(_, i) := if Rlt_dec best d3 then (d3, 3%nat) else (best, i) in
  i.

(** The four quaternion extraction formulas of [Rotation.from_dcm], one per
    value of [choice]; the first three put [1 - trace + 2 * m_ii] at
    position [i]. *)
Definition extract_quat (m : Mat3) (choice : nat) : Quat :=
  let trace := m00 m + m11 m + m22 m in
  match choice with
  | 0%nat =>
      mkQuat (1 - trace + 2 * m00 m) (m10 m + m01 m) (m20 m + m02 m)
             (m21 m - m12 m)
  | 1%nat =>
      mkQuat (m01 m + m10 m) (1 - trace + 2 * m11 m) (m21 m + m12 m)
             (m02 m - m20 m)
  | 2%nat =>
      mkQuat (m02 m + m20 m) (m12 m + m21 m) (1 - trace + 2 * m22 m)
             (m10 m - m01 m)
  | _ =>
      mkQuat (m21 m - m12 m) (m02 m - m20 m) (m10 m - m01 m) (1 + trace)
  end.

(** [Rotation.from_dcm(m)]: picks the formula by the greatest of the three
    diagonal entries and the trace, and normalises the result; the matrix
    is not checked for orthonormality. *)
Definition from_dcm (m : Mat3) : Rotation :=
  let choice := argmax4 (m00 m) (m11 m) (m22 m) (m00 m + m11 m + m22 m) in
  mkRotation (quat_normalize (extract_quat m choice)).

(** A quaternion [Q] whose rotation sends the z axis onto the direction
    [z]: [Q * k = z * Q] for the pure quaternions [k = (0, 0, 1)] and [z],
    a condition linear in [Q]. *)
Definition carries (Q : Quat) (z : Vec3) : Prop :=
  qy Q = qw Q * vx z + vy z * qz Q - vz z * qy Q /\
  - qx Q = qw Q * vy z + vz z * qx Q - vx z * qz Q /\
  qw Q = qw Q * vz z + vx z * qy Q - vy z * qx Q /\
  qz Q = vx z * qx Q + vy z * qy Q + vz z * qz Q.

(** [Rotation.as_dcm()]: the rotation matrix of the stored quaternion. *)
Definition as_dcm (r : Rotation) : Mat3 :=
  let x := qx (as_quat r) in
  let y := qy (as_quat r) in
  let z := qz (as_quat r) in
  let w := qw (as_quat r) in
  mkMat3
    (x * x - y * y - z * z + w * w) (2 * (x * y - z * w)) (2 * (x * z + y * w))
    (2 * (x * y + z * w)) (- (x * x) + y * y - z * z + w * w)
    (2 * (y * z - x * w))
    (2 * (x * z - y * w)) (2 * (y * z + x * w))
    (- (x * x) - y * y + z * z + w * w).

(** The third column of the rotation matrix, the image of the z axis: the
    direction along which the gripper approaches. *)
Definition approach_axis (r : Rotation) : Vec3 :=
  mkVec3 (m02 (as_dcm r)) (m12 (as_dcm r)) (m22 (as_dcm r)).

(** Modelled from the spec: [Transform] of vgn.utils.transform, which is not
    among the sources; "a rigid pose (rotation + translation)". *)
Record Transform : Type := mkTransform
  { rotation : Rotation; translation : Vec3 }.

(** [np.round]: to the nearest integer, halves to the even neighbour;
    [up x - 1] is the floor of [x]. *)
Definition np_round (x : R) : Z :=
  let f := (up x - 1)%Z in
  let frac := x - IZR f in
  if Rlt_dec frac (1 / 2) then f
  else if Rlt_dec (1 / 2) frac then (f + 1)%Z
  else if Z.even f then f else (f + 1)%Z.

End Geometry.

(** ** Grasps, labels and the collaborators of the pipeline *)

Module Grasping.

Import Geometry.
Local Open Scope R_scope.

(** Modelled from the spec: [vgn.grasp.Grasp], which is not among the
    sources; "a rigid pose plus a scalar gripper opening width". *)
Record Grasp : Type := mkGrasp { pose : Transform; width : R }.

(** Modelled from the spec: [vgn.grasp.to_voxel_coordinates], which is not
    among the sources, called with the identity transform; "transform the
    grasp's translation into voxel coordinates using the coarse volume's
    voxel size (identity-world-to-voxel scaling; no orientation change)". *)
Definition to_voxel_coordinates (grasp : Grasp) (voxel_size : R) : Grasp :=
  mkGrasp
    (mkTransform (rotation (pose grasp))
       (vdiv (translation (pose grasp)) voxel_size))
    (width grasp).

(** Modelled from the spec: [vgn.grasp.Label], which is not among the
    sources; "a categorical outcome of one grasp attempt; one variant denotes
    success, all others denote distinct failure modes".  The code compares
    labels with [==], orders them with [np.max] and converts them with
    [int]: a label is its integer code, and the code of the success variant
    is the parameter [SUCCESS] of the pipeline below. *)
Definition Label : Type := Z.

(** Modelled from the spec: the simulation handle [GraspExperiment] of
    vgn.simulation, which is not among the sources; "restoreBaselineState()"
    and "attemptGrasp(pose) -> (outcome, width)".  The state of the
    simulated world is threaded through both calls. *)
Record Simulation : Type := mkSimulation
  { SimState : Type;
    restore_state : SimState -> SimState;
    test_grasp : Transform -> SimState -> (Label * R) * SimState }.

(** The process-wide generator behind [np.random], made explicit:
    [randint n] draws an index below [n], [uniform low high] a float between
    the bounds; each call returns the state of the generator after it. *)
Record RandomSource : Type := mkRandomSource
  { RngState : Type;
    randint : nat -> RngState -> nat * RngState;
    uniform : R -> R -> RngState -> R * RngState }.

(** What numpy promises about the two draws. *)
Definition draws_in_range (rng : RandomSource) : Prop :=
  (forall (n : nat) (g : RngState rng),
      (0 < n)%nat -> (fst (randint rng n g) < n)%nat) /\
  (forall (low high : R) (g : RngState rng),
      low <= high ->
      low <= fst (uniform rng low high g) <= high).

(** An Open3D point cloud: the arrays [points] and [normals]. *)
Record PointCloud : Type := mkPointCloud
  { points : list Vec3; normals : list Vec3 }.

(** A Python sequence read at a (possibly negative) index; [None] stands
    for [IndexError]. *)
Definition py_index {A : Type} (l : list A) (i : Z) : option A :=
  if (i <? 0)%Z then
    if (i + Z.of_nat (length l) <? 0)%Z then None
    else nth_error l (Z.to_nat (i + Z.of_nat (length l)))
  else nth_error l (Z.to_nat i).

(** [np.max] of a list of integer codes; it raises on an empty list. *)
Definition np_max (l : list Z) : option Z :=
  match l with
  | [] => None
  | o :: t => Some (fold_left Z.max t o)
  end.

(** [np.sum] of the float indicator. *)
Definition np_sum (successes : list bool) : Q :=
  fold_left Qplus (map Peaks.b2q successes) 0%Q.

Section Pipeline.

Variable SUCCESS : Z.
Variable sim : Simulation.
Variable rng : RandomSource.

Definition is_positive (o : Z) : bool := (o =? SUCCESS)%Z.

(** *** [sample_grasp_point] *)

Definition sample_grasp_point (point_cloud : PointCloud) (finger_depth : R)
    (g : RngState rng) : option ((Vec3 * Vec3) * RngState rng) :=
  match points point_cloud with
  | [] => None
  | _ :: _ =>
      let '(idx, g) := randint rng (length (points point_cloud)) g in
      match nth_error (points point_cloud) idx,
            nth_error (normals point_cloud) idx with
      | Some point, Some normal =>
          let eps := 2 / 10 in
          let '(grasp_depth, g) :=
            uniform rng (- eps * finger_depth) ((1 + eps) * finger_depth) g in
          let point := vadd point (vscale normal (finger_depth - grasp_depth)) in
          Some ((point, normal), g)
      | _, _ => None
      end
  end.

(** *** [evaluate_grasp_point] *)

(** Lines 102-107: the three axes of the grasp frame. *)
Definition grasp_frame_axes (normal : Vec3) : Vec3 * Vec3 * Vec3 :=
  let z_axis := vneg normal in
  let x_axis := mkVec3 1 0 0 in
  let x_axis :=
    if isclose (Rabs (dot x_axis z_axis)) 1 (1 / 10000)
    then mkVec3 0 1 0 else x_axis in
  let y_axis := cross z_axis x_axis in
  let x_axis := cross y_axis z_axis in
  (x_axis, y_axis, z_axis).

(** Line 108. *)
Definition grasp_frame (normal : Vec3) : Rotation :=
  let '(x_axis, y_axis, z_axis) := grasp_frame_axes normal in
  from_dcm (columns x_axis y_axis z_axis).

(** Lines 113-119: one grasp attempt per yaw angle, each from the restored
    state; the result lists the (outcome, width) pairs in sweep order. *)
Fixpoint sweep (R0 : Rotation) (pos : Vec3) (yaws : list R)
    (s : SimState sim) : list (Z * R) * SimState sim :=
  match yaws with
  | [] => ([], s)
  | yaw :: yaws' =>
      let ori := rot_mul R0 (from_euler_z yaw) in
      let s := restore_state sim s in
      let '(attempt, s) := test_grasp sim (mkTransform ori pos) s in
      let '(attempts, s) := sweep R0 pos yaws' s in
      (attempt :: attempts, s)
  end.

(** Lines 121-134.  [None] stands for an exception: [np.max] or
    [np.argmax] of an empty sequence, or an index out of range. *)
Definition select_grasp (R0 : Rotation) (pos : Vec3) (yaws : list R)
    (attempts : list (Z * R)) : option (Grasp * Z) :=
  let outcomes := map fst attempts in
  let widths := map snd attempts in
  let successes := map is_positive outcomes in
  let chosen :=
    if negb (Qeq_bool (np_sum successes) 0) then
      match Peaks.idx_of_widest_peak successes with
      | None => None
      | Some idx_of_widest_peak =>
          match py_index yaws idx_of_widest_peak,
                py_index widths idx_of_widest_peak with
          | Some yaw, Some width =>
              Some (rot_mul R0 (from_euler_z yaw), width)
          | _, _ => None
          end
      end
    else Some (rot_identity, 0) in
  match chosen, np_max outcomes with
  | Some (ori, width), Some label =>
      Some (mkGrasp (mkTransform ori pos) width, label)
  | _, _ => None
  end.

Definition evaluate_grasp_point (pos normal : Vec3) (num_rotations : nat)
    (s : SimState sim) : option ((Grasp * Z) * SimState sim) :=
  let R0 := grasp_frame normal in
  let yaws := linspace 0 PI num_rotations in
  let '(attempts, s) := sweep R0 pos yaws s in
  match select_grasp R0 pos yaws attempts with
  | Some result => Some (result, s)
  | None => None
  end.

(** The outcomes and the widths recorded by the sweep of one evaluation, in
    sweep order (the lists [outcomes] and [widths] of lines 112-119). *)
Definition sweep_attempts (pos normal : Vec3) (num_rotations : nat)
    (s : SimState sim) : list (Z * R) :=
  fst (sweep (grasp_frame normal) pos (linspace 0 PI num_rotations) s).

Definition sweep_outcomes (pos normal : Vec3) (num_rotations : nat)
    (s : SimState sim) : list Z :=
  map fst (sweep_attempts pos normal num_rotations s).

Definition sweep_widths (pos normal : Vec3) (num_rotations : nat)
    (s : SimState sim) : list R :=
  map snd (sweep_attempts pos normal num_rotations s).

(** *** The candidate loop of [generate_samples] (lines 66-77) *)

(** How a run of the loop can end. *)
Inductive Run (A : Type) : Type :=
| Returned (a : A)
| Raised
| OutOfFuel.

Arguments Returned {A} a.
Arguments Raised {A}.
Arguments OutOfFuel {A}.

(** Line 74. *)
Definition accepts (num_grasps_per_scene num_negatives : nat) (label : Z)
    : bool :=
  is_positive label || (num_negatives <? num_grasps_per_scene / 2)%nat.

Record Pool : Type := mkPool
  { grasps : list Grasp; labels : list Z; num_negatives : nat }.

(** Lines 74-77: what one evaluated candidate does to the pool. *)
Definition offer (num_grasps_per_scene : nat) (pool : Pool) (grasp : Grasp)
    (label : Z) : Pool :=
  if accepts num_grasps_per_scene (num_negatives pool) label then
    mkPool (grasps pool ++ [grasp]) (labels pool ++ [label])
      (num_negatives pool + (if is_positive label then 0 else 1))%nat
  else pool.

Definition World : Type := (RngState rng * SimState sim)%type.

(** Lines 71-77; [fuel] bounds the number of candidates drawn. *)
Fixpoint collect (fuel : nat) (point_cloud : PointCloud) (finger_depth : R)
    (num_grasps_per_scene : nat) (pool : Pool) (w : World)
    : Run (Pool * World) :=
  if (length (grasps pool) <? num_grasps_per_scene)%nat then
    match fuel with
    | O => OutOfFuel
    | S fuel' =>
        match sample_grasp_point point_cloud finger_depth (fst w) with
        | None => Raised
        | Some ((point, normal), g) =>
            match evaluate_grasp_point point normal 12 (snd w) with
            | None => Raised
            | Some ((grasp, label), s) =>
                collect fuel' point_cloud finger_depth num_grasps_per_scene
                  (offer num_grasps_per_scene pool grasp label) (g, s)
            end
        end
    end
  else Returned (pool, w).

Definition empty_pool : Pool := mkPool [] [] 0.

Definition count_negatives (ls : list Z) : nat :=
  length (filter (fun l => negb (is_positive l)) ls).

(** What the loop keeps true of the pool: the two lists go together, the
    counter counts the negative labels, and neither the quota nor the budget
    of negatives is exceeded. *)
Definition pool_inv (num_grasps_per_scene : nat) (pool : Pool) : Prop :=
  length (grasps pool) = length (labels pool) /\
  num_negatives pool = count_negatives (labels pool) /\
  (length (grasps pool) <= num_grasps_per_scene)%nat /\
  (num_negatives pool <= num_grasps_per_scene / 2)%nat.

(** *** [store_sample] *)

(** Modelled from the spec: [TSDFVolume] of vgn.perception.integration, which
    is not among the sources; "exposes: voxel size, side resolution, a dense
    grid accessor".  The grid itself is copied to the archive untouched and
    is left out; its shape is [resolution] voxels along each axis. *)
Record TSDFVolume : Type := mkTSDFVolume
  { voxel_size : R; resolution : Z }.

Definition Index : Type := (Z * Z * Z)%type.

Definition index_eqb (a b : Index) : bool :=
  let '(ai, aj, ak) := a in
  let '(bi, bj, bk) := b in
  ((ai =? bi) && (aj =? bj) && (ak =? bk))%Z.

(** The label volumes; a volume is read at a voxel index, the two rotation
    volumes hold four channels per voxel. *)
Record Volumes : Type := mkVolumes
  { qual_vol : Index -> R;
    rot_vol0 : Index -> Quat;
    rot_vol1 : Index -> Quat;
    width_vol : Index -> R;
    mask : Index -> R }.

Definition assign {A : Type} (vol : Index -> A) (at_ : Index) (v : A)
    : Index -> A :=
  fun i => if index_eqb i at_ then v else vol i.

(** Lines 147-153. *)
Definition zeros : Volumes :=
  mkVolumes (fun _ => 0) (fun _ => mkQuat 0 0 0 0) (fun _ => mkQuat 0 0 0 0)
    (fun _ => 0) (fun _ => 0).

Definition label2quality (label : Z) : R :=
  if (label =? SUCCESS)%Z then 1 else 0.

(** Line 155. *)
Definition R_z180 : Rotation := from_rotvec (vscale (mkVec3 0 0 1) PI).

(** Line 160. *)
Definition voxel_index (tsdf : TSDFVolume) (grasp : Grasp) : Index :=
  let t := translation (pose (to_voxel_coordinates grasp (voxel_size tsdf))) in
  (np_round (vx t), np_round (vy t), np_round (vz t)).

(** Line 161. *)
Definition out_of_range (tsdf : TSDFVolume) (index : Index) : bool :=
  let '(i, j, k) := index in
  ((i <? 0) || (j <? 0) || (k <? 0)
   || (resolution tsdf - 1 <? i) || (resolution tsdf - 1 <? j)
   || (resolution tsdf - 1 <? k))%Z.

(** Lines 158-169: the body of the loop over the pool. *)
Definition store_one (tsdf : TSDFVolume) (vols : Volumes)
    (entry : Grasp * Z) : Volumes :=
  let '(grasp, label) := entry in
  let grasp := to_voxel_coordinates grasp (voxel_size tsdf) in
  let t := translation (pose grasp) in
  let index := (np_round (vx t), np_round (vy t), np_round (vz t)) in
  if out_of_range tsdf index then vols
  else
    mkVolumes
      (assign (qual_vol vols) index (label2quality label))
      (assign (rot_vol0 vols) index (as_quat (rotation (pose grasp))))
      (assign (rot_vol1 vols) index
         (as_quat (rot_mul (rotation (pose grasp)) R_z180)))
      (assign (width_vol vols) index (width grasp))
      (assign (mask vols) index 1).

(** The volumes handed to [np.savez_compressed]. *)
Definition store_sample (tsdf : TSDFVolume) (grasps : list Grasp)
    (labels : list Z) : Volumes :=
  fold_left (store_one tsdf) (combine grasps labels) zeros.

(** The pairs of a pool that [store_sample] writes at the voxel [i]: those
    in range whose rounded position is [i], in pool order. *)
Definition writes_at (tsdf : TSDFVolume) (i : Index) (entry : Grasp * Z)
    : bool :=
  negb (out_of_range tsdf (voxel_index tsdf (fst entry)))
  && index_eqb (voxel_index tsdf (fst entry)) i.

Definition written_at (tsdf : TSDFVolume) (i : Index)
    (pool : list (Grasp * Z)) : list (Grasp * Z) :=
  filter (writes_at tsdf i) pool.

(** What the five volumes hold at one voxel: the zeros they were created
    with, or the values of one pair of the pool. *)
Definition untouched (v : Volumes) (i : Index) : Prop :=
  mask v i = 0 /\ qual_vol v i = 0 /\ rot_vol0 v i = mkQuat 0 0 0 0 /\
  rot_vol1 v i = mkQuat 0 0 0 0 /\ width_vol v i = 0.

Definition holds (v : Volumes) (i : Index) (grasp : Grasp) (label : Z)
    : Prop :=
  mask v i = 1 /\ qual_vol v i = label2quality label /\
  rot_vol0 v i = as_quat (rotation (pose grasp)) /\
  rot_vol1 v i = as_quat (rot_mul (rotation (pose grasp)) R_z180) /\
  width_vol v i = width grasp.

(** *** One scene of [generate_samples] (lines 61-81) *)

(** What a scene contributes once its cloud is extracted: nothing when the
    cloud is empty (lines 61-63), and otherwise the volumes stored for the
    pool that the candidate loop hands over (lines 66-81).  The random name
    of the archive is left out. *)
Definition label_scene (fuel : nat) (tsdf : TSDFVolume)
    (point_cloud : PointCloud) (finger_depth : R)
    (num_grasps_per_scene : nat) (w : World)
    : Run (option Volumes * World) :=
  match points point_cloud with
  | [] => Returned (None, w)
  | _ :: _ =>
      match collect fuel point_cloud finger_depth num_grasps_per_scene
              empty_pool w with
      | Returned (pool, w') =>
          Returned (Some (store_sample tsdf (grasps pool) (labels pool)), w')
      | Raised => Raised
      | OutOfFuel => OutOfFuel
      end
  end.

(** Where a pair of the pool comes from: a vertex of the cloud moved along
    its normal by a depth within the bounds of line 93, with the identity or
    one of the twelve orientations of the sweep about that normal, the
    latter whenever the label is the success code. *)
Definition swept (normal : Vec3) (r : Rotation) : Prop :=
  exists yaw : R,
    In yaw (linspace 0 PI 12) /\
    r = rot_mul (grasp_frame normal) (from_euler_z yaw).

Definition from_cloud (point_cloud : PointCloud) (finger_depth : R)
    (entry : Grasp * Z) : Prop :=
  exists (point normal : Vec3) (d : R),
    In (point, normal) (combine (points point_cloud) (normals point_cloud)) /\
    - (2 / 10) * finger_depth <= d <= (12 / 10) * finger_depth /\
    translation (pose (fst entry)) = vadd point (vscale normal d) /\
    (rotation (pose (fst entry)) = rot_identity \/
     swept normal (rotation (pose (fst entry)))) /\
    (snd entry = SUCCESS -> swept normal (rotation (pose (fst entry)))).

End Pipeline.

Arguments Returned {A} a.
Arguments Raised {A}.
Arguments OutOfFuel {A}.

End Grasping.

(** ** Test doubles and concrete inputs used to exercise the theorems *)

Module Examples.

Import Geometry Grasping.
Local Open Scope R_scope.

(** A simulation in which every grasp holds; success is coded 1. *)
Definition always_succeeds : Simulation :=
  mkSimulation unit (fun s => s) (fun _ s => ((1%Z, 5 / 100), s)).

(** A simulation with two failure modes, coded 0 and 1, and success coded
    2, in which no grasp holds: the attempt ends with outcome 0 while the
    x component of the gripper's quaternion is at least 1/2, and with
    outcome 1 otherwise. *)
Definition never_succeeds : Simulation :=
  mkSimulation unit (fun s => s)
    (fun T s =>
       ((if Rlt_dec (qx (as_quat (rotation T))) (1 / 2) then 1%Z else 0%Z, 0),
        s)).

(** A simulation with success coded 0 and one failure mode coded 1, above
    it: the grasp holds while the x component of the gripper's quaternion is
    at least 1/2, and slips once it is turned further. *)
Definition slips_when_turned : Simulation :=
  mkSimulation unit (fun s => s)
    (fun T s =>
       ((if Rlt_dec (qx (as_quat (rotation T))) (1 / 2) then 1%Z else 0%Z, 0),
        s)).

(** The outcome [never_succeeds] reports for one yaw angle on a horizontal
    surface, where the frame is the half turn about x and the x component
    of the gripper's quaternion is the cosine of half the yaw. *)
Definition outcome_at (yaw : R) : Z :=
  if Rlt_dec (cos (yaw / 2)) (1 / 2) then 1%Z else 0%Z.

(** A simulation that counts the attempts made since the last restore, in
    which a grasp holds only as the first attempt after a restore; success
    is coded 1. *)
Definition first_attempt_holds : Simulation :=
  mkSimulation nat (fun _ => 0%nat)
    (fun _ s => ((if (s =? 0)%nat then 1%Z else 0%Z, 5 / 100), S s)).

(** A generator that always draws the lowest value allowed. *)
Definition lowest_draws : RandomSource :=
  mkRandomSource unit (fun _ g => (0%nat, g)) (fun low _ g => (low, g)).

(** A generator that walks through the indices in turn and always draws the
    lowest depth allowed. *)
Definition round_robin : RandomSource :=
  mkRandomSource nat (fun n g => ((g mod n)%nat, S g))
    (fun low _ g => (low, g)).

(** A simulation in which a grasp holds exactly when it is made at height 1
    or above; success is coded 1 and the one failure mode 0. *)
Definition holds_above : Simulation :=
  mkSimulation unit (fun s => s)
    (fun T s =>
       ((if Rle_dec 1 (vz (translation T)) then 1%Z else 0%Z, 5 / 100), s)).

Definition origin : Vec3 := mkVec3 0 0 0.

Definition up_normal : Vec3 := mkVec3 0 0 1.

(** A cloud of one point on a horizontal surface. *)
Definition one_point_cloud : PointCloud := mkPointCloud [origin] [up_normal].

(** A cloud of two points, one above the other, on horizontal surfaces. *)
Definition two_point_cloud : PointCloud :=
  mkPointCloud [origin; mkVec3 0 0 3] [up_normal; up_normal].

(** A 40-voxel grid with voxels of unit size. *)
Definition unit_grid : TSDFVolume := mkTSDFVolume 1 40.

Definition grasp_at (t : Vec3) (w : R) : Grasp :=
  mkGrasp (mkTransform rot_identity t) w.

End Examples.

(** * Proofs *)

(** ** The success indicator and its padding *)

Module PeaksFacts.

Import Peaks PeakSpec.
Local Open Scope Z_scope.

Lemma nth_padded_body (s : list bool) (n : nat) :
  nth n (map b2q s ++ [0%Q]) 0%Q = b2q (nth n s false).
Proof.
  destruct (Nat.lt_ge_cases n (length s)) as [Hlt | Hge].
  - rewrite app_nth1 by (rewrite length_map; exact Hlt).
    change 0%Q with (b2q false). apply map_nth.
  - rewrite (nth_overflow s) by exact Hge.
    rewrite app_nth2 by (rewrite length_map; exact Hge).
    rewrite length_map.
    destruct (n - length s)%nat as [| [| m]]; reflexivity.
Qed.

Lemma item_padded (s : list bool) (i : Z) :
  item (padded s) i = b2q (sbit s (i - 1)).
Proof.
  unfold item, padded, sbit.
  destruct (Z.leb_spec 0 (i - 1)) as [Hi | Hi].
  - replace (Z.to_nat i) with (S (Z.to_nat (i - 1))) by lia.
    cbn [nth andb]. apply nth_padded_body.
  - replace (Z.to_nat i) with 0%nat by lia. reflexivity.
Qed.

Lemma length_padded (s : list bool) :
  length (padded s) = S (S (length s)).
Proof.
  unfold padded. cbn [length]. rewrite length_app, length_map.
  cbn [length]. lia.
Qed.

Lemma sbit_true_range (s : list bool) (j : Z) :
  sbit s j = true -> 0 <= j < Z.of_nat (length s).
Proof.
  unfold sbit. intros H. apply andb_true_iff in H. destruct H as [H0 Hn].
  apply Z.leb_le in H0. split; [exact H0|].
  destruct (Nat.lt_ge_cases (Z.to_nat j) (length s)) as [Hlt | Hge]; [lia|].
  rewrite nth_overflow in Hn by exact Hge. discriminate.
Qed.

Lemma sbit_nat (s : list bool) (j : nat) :
  sbit s (Z.of_nat j) = nth j s false.
Proof.
  unfold sbit. rewrite Nat2Z.id.
  destruct (Z.leb_spec 0 (Z.of_nat j)); [reflexivity | lia].
Qed.

Lemma sbit_neg (s : list bool) (j : Z) : j < 0 -> sbit s j = false.
Proof.
  intros H. unfold sbit. destruct (Z.leb_spec 0 j); [lia | reflexivity].
Qed.

Lemma sbit_app_suffix (p t : list bool) (j : nat) :
  sbit (p ++ t) (Z.of_nat (length p) + Z.of_nat j) = nth j t false.
Proof.
  rewrite <- Nat2Z.inj_add, sbit_nat.
  rewrite app_nth2 by lia. f_equal. lia.
Qed.

Lemma Qltb_b2q (a b : bool) : Qltb (b2q a) (b2q b) = negb a && b.
Proof. destruct a, b; reflexivity. Qed.

Lemma Qeqb_b2q (a b : bool) : Qeq_bool (b2q a) (b2q b) = Bool.eqb a b.
Proof. destruct a, b; reflexivity. Qed.

(** ** The loops of [_local_maxima_1d] *)

(** [look_ahead] stops on the first sample that differs, or on [i_max]. *)
Lemma look_ahead_stops (x : list Q) (i_max : Z) (xi : Q) :
  forall (k fuel : nat) (i : Z),
    (k < fuel)%nat ->
    i + Z.of_nat k <= i_max ->
    (forall j, i <= j < i + Z.of_nat k -> Qeq_bool (item x j) xi = true) ->
    (i + Z.of_nat k = i_max \/
     Qeq_bool (item x (i + Z.of_nat k)) xi = false) ->
    look_ahead fuel x i_max xi i = i + Z.of_nat k.
Proof.
  induction k as [| k IH]; intros fuel i Hfuel Hmax Hrun Hstop.
  - destruct fuel as [| fuel]; [lia|]. cbn [look_ahead].
    rewrite Z.add_0_r in *.
    destruct Hstop as [-> | ->].
    + rewrite Z.ltb_irrefl. reflexivity.
    + rewrite andb_false_r. lia.
  - destruct fuel as [| fuel]; [lia|]. cbn [look_ahead].
    rewrite Hrun by lia.
    replace (i <? i_max) with true by (symmetry; apply Z.ltb_lt; lia).
    cbn [andb]. rewrite (IH fuel (i + 1)); try lia.
    + intros j Hj. apply Hrun. lia.
    + replace (i + 1 + Z.of_nat k) with (i + Z.of_nat (S k)) by lia.
      exact Hstop.
Qed.

(** Every list of booleans starts with a (possibly empty) block of [true]
    that is followed by the end of the list or by [false]. *)
Lemma leading_true (t : list bool) :
  exists (k : nat) (t' : list bool),
    t = repeat true k ++ t' /\ (t' = [] \/ exists t'', t' = false :: t'').
Proof.
  induction t as [| [|] t IH].
  - exists 0%nat, []. split; [reflexivity | left; reflexivity].
  - destruct IH as (k & t' & -> & Ht'). exists (S k), t'. split; [reflexivity | exact Ht'].
  - exists 0%nat, (false :: t). split; [reflexivity | right; eexists; reflexivity].
Qed.

Lemma nth_repeat_app_lt (k j : nat) (t : list bool) :
  (j < k)%nat -> nth j (repeat true k ++ t) false = true.
Proof.
  intros H. rewrite app_nth1 by (rewrite repeat_length; exact H).
  apply nth_repeat_lt. exact H.
Qed.

Lemma nth_repeat_app_ge (k : nat) (t : list bool) :
  nth k (repeat true k ++ t) false = nth 0 t false.
Proof.
  rewrite app_nth2 by (rewrite repeat_length; lia).
  rewrite repeat_length, Nat.sub_diag. reflexivity.
Qed.

(** A run in progress that meets [k] more successes. *)
Lemma runs_from_repeat (k i c : nat) (t : list bool) :
  runs_from i (Some c) (repeat true k ++ t) = runs_from (i + k) (Some c) t.
Proof.
  revert i. induction k as [| k IH]; intros i.
  - rewrite Nat.add_0_r. reflexivity.
  - cbn [repeat app runs_from]. rewrite IH. f_equal. lia.
Qed.

(** The outer loop, entered just after a failure (or at the start), records
    exactly the maximal runs of the rest of the indicator. *)
Lemma maxima_loop_runs (s : list bool) :
  forall (fuel : nat) (suffix prefix : list bool),
    s = prefix ++ suffix ->
    (length suffix <= fuel)%nat ->
    sbit s (Z.of_nat (length prefix) - 1) = false ->
    maxima_loop fuel (padded s) (Z.of_nat (length s) + 1)
      (Z.of_nat (length prefix) + 1)
    = map maximum_of_run (runs_from (length prefix) None suffix).
Proof.
  induction fuel as [| fuel IH]; intros suffix prefix Hs Hfuel Hprev.
  - destruct suffix; [reflexivity | cbn in Hfuel; lia].
  - cbn [maxima_loop].
    assert (Hlen : length s = (length prefix + length suffix)%nat)
      by (rewrite Hs; apply length_app).
    destruct suffix as [| b t].
    + cbn [length] in Hlen.
      replace (Z.of_nat (length prefix) + 1 <? Z.of_nat (length s) + 1)
        with false by (symmetry; apply Z.ltb_ge; lia).
      reflexivity.
    + cbn [length] in Hlen, Hfuel.
      replace (Z.of_nat (length prefix) + 1 <? Z.of_nat (length s) + 1)
        with true by (symmetry; apply Z.ltb_lt; lia).
      assert (Hcur : item (padded s) (Z.of_nat (length prefix) + 1) = b2q b).
      { rewrite item_padded.
        replace (Z.of_nat (length prefix) + 1 - 1)
          with (Z.of_nat (length prefix) + Z.of_nat 0) by lia.
        rewrite Hs at 1. rewrite sbit_app_suffix. reflexivity. }
      assert (Hprv : item (padded s) (Z.of_nat (length prefix) + 1 - 1)
                     = b2q false).
      { rewrite item_padded.
        replace (Z.of_nat (length prefix) + 1 - 1 - 1)
          with (Z.of_nat (length prefix) - 1) by lia.
        rewrite Hprev. reflexivity. }
      rewrite Hcur, Hprv, Qltb_b2q.
      assert (Hnext : s = (prefix ++ [b]) ++ t)
        by (rewrite <- app_assoc; exact Hs).
      assert (Hplen : length (prefix ++ [b]) = S (length prefix))
        by (rewrite length_app; cbn; lia).
      destruct b.
      * (* a run starts here *)
        cbn [negb andb].
        destruct (leading_true t) as (k & t' & Ht & Ht').
        assert (Hahead :
          look_ahead (length (padded s)) (padded s) (Z.of_nat (length s) + 1)
            (b2q true) (Z.of_nat (length prefix) + 1 + 1)
          = Z.of_nat (length prefix) + 1 + 1 + Z.of_nat k).
        { assert (Hk : (k <= length t)%nat)
            by (rewrite Ht, length_app, repeat_length; lia).
          apply look_ahead_stops.
          - rewrite length_padded. lia.
          - lia.
          - intros j Hj. rewrite item_padded, Qeqb_b2q.
            replace (j - 1)
              with (Z.of_nat (length (prefix ++ [true]))
                    + Z.of_nat (Z.to_nat (j - 1) - S (length prefix)))
              by lia.
            rewrite Hnext at 1. rewrite sbit_app_suffix, Ht.
            rewrite nth_repeat_app_lt by lia. reflexivity.
          - destruct Ht' as [-> | (t'' & ->)].
            + left. rewrite Ht, length_app, repeat_length in Hlen.
              cbn [length] in Hlen. lia.
            + right. rewrite item_padded, Qeqb_b2q.
              replace (Z.of_nat (length prefix) + 1 + 1 + Z.of_nat k - 1)
                with (Z.of_nat (length (prefix ++ [true])) + Z.of_nat k)
                by lia.
              rewrite Hnext at 1. rewrite sbit_app_suffix, Ht.
              rewrite nth_repeat_app_ge. reflexivity. }
        rewrite Hahead.
        rewrite item_padded.
        assert (Hzero :
          sbit s (Z.of_nat (length prefix) + 1 + 1 + Z.of_nat k - 1) = false).
        { destruct Ht' as [-> | (t'' & ->)].
          - destruct (sbit s (Z.of_nat (length prefix) + 1 + 1 + Z.of_nat k - 1))
              eqn:E; [| reflexivity].
            apply sbit_true_range in E.
            rewrite Ht, length_app, repeat_length in Hlen.
            cbn [length] in Hlen. lia.
          - replace (Z.of_nat (length prefix) + 1 + 1 + Z.of_nat k - 1)
              with (Z.of_nat (length (prefix ++ [true])) + Z.of_nat k)
              by lia.
            rewrite Hnext at 1. rewrite sbit_app_suffix, Ht.
            rewrite nth_repeat_app_ge. reflexivity. }
        rewrite Hzero. rewrite Qltb_b2q. cbn [negb andb].
        cbn [runs_from]. rewrite Ht, runs_from_repeat.
        destruct Ht' as [-> | (t'' & ->)].
        -- cbn [runs_from map]. f_equal.
           ++ unfold maximum_of_run. cbn [fst snd]. f_equal; try lia.
              f_equal. lia.
           ++ destruct fuel as [| fuel']; [reflexivity |].
              cbn [maxima_loop].
              rewrite Ht, length_app, repeat_length in Hlen.
              cbn [length] in Hlen.
              replace (_ <? _) with false
                by (symmetry; apply Z.ltb_ge; lia).
              reflexivity.
        -- cbn [runs_from map]. f_equal.
           ++ unfold maximum_of_run. cbn [fst snd]. f_equal; try lia.
              f_equal. lia.
           ++ assert (Hs' : s = (prefix ++ true :: repeat true k ++ [false])
                               ++ t'').
              { rewrite Hs, Ht. rewrite <- app_assoc. cbn [app].
                rewrite <- app_assoc. reflexivity. }
              assert (Hl' : length (prefix ++ true :: repeat true k ++ [false])
                            = (S (length prefix) + k + 1)%nat).
              { rewrite length_app. cbn [length].
                rewrite length_app, repeat_length. cbn [length]. lia. }
              specialize (IH t'' _ Hs').
              rewrite Hl' in IH.
              replace (Z.of_nat (length prefix) + 1 + 1 + Z.of_nat k + 1)
                with (Z.of_nat (S (length prefix) + k + 1) + 1) by lia.
              replace (S (S (length prefix) + k))
                with (S (length prefix) + k + 1)%nat by lia.
              apply IH.
              ** rewrite Ht, length_app, repeat_length in Hfuel.
                 cbn [length] in Hfuel. lia.
              ** replace (Z.of_nat (S (length prefix) + k + 1) - 1)
                   with (Z.of_nat (length (prefix ++ [true])) + Z.of_nat k)
                   by lia.
                 rewrite Hnext at 1. rewrite sbit_app_suffix, Ht.
                 rewrite nth_repeat_app_ge. reflexivity.
      * (* still between runs *)
        cbn [negb andb runs_from].
        specialize (IH t _ Hnext). rewrite Hplen in IH.
        replace (Z.of_nat (length prefix) + 1 + 1)
          with (Z.of_nat (S (length prefix)) + 1) by lia.
        apply IH; [lia |].
        replace (Z.of_nat (S (length prefix)) - 1)
          with (Z.of_nat (length prefix) + Z.of_nat 0) by lia.
        rewrite Hs at 1. rewrite sbit_app_suffix. reflexivity.
Qed.

Lemma local_maxima_padded (s : list bool) :
  local_maxima_1d (padded s) = map maximum_of_run (success_runs s).
Proof.
  unfold local_maxima_1d, success_runs. rewrite length_padded.
  replace (Z.of_nat (S (S (length s))) - 1) with (Z.of_nat (length s) + 1)
    by lia.
  apply (maxima_loop_runs s (S (S (length s))) s []).
  - reflexivity.
  - lia.
  - apply sbit_neg. cbn. lia.
Qed.

End PeaksFacts.

(** ** Prominence and width of a plateau of a 0/1 signal *)

Module PlateauFacts.

Import Peaks.
Local Open Scope Z_scope.

Section Signal.

Variable x : list Q.
Hypothesis floor : forall j, Qltb (item x j) 0 = false.

(** Once the lowest sample met is 0 the scans change nothing any more,
    whatever fuel is left. *)
Lemma left_base_floor (i_min peak : Z) :
  forall (fuel : nat) (i lb : Z),
    left_base_loop fuel x i_min peak i 0 lb = (0%Q, lb).
Proof.
  induction fuel as [| fuel IH]; intros i lb; [reflexivity |].
  cbn [left_base_loop]. rewrite floor.
  destruct (_ && _); [apply IH | reflexivity].
Qed.

Lemma right_base_floor (i_max peak : Z) :
  forall (fuel : nat) (i rb : Z),
    right_base_loop fuel x i_max peak i 0 rb = (0%Q, rb).
Proof.
  induction fuel as [| fuel IH]; intros i rb; [reflexivity |].
  cbn [right_base_loop]. rewrite floor.
  destruct (_ && _); [apply IH | reflexivity].
Qed.

Variables lo hi peak : Z.
Hypothesis lo_nonneg : 0 <= lo.
Hypothesis hi_inside : hi <= Z.of_nat (length x) - 1.
Hypothesis on_plateau : lo < peak < hi.
Hypothesis plateau : forall j, lo < j < hi -> item x j = 1%Q.
Hypothesis foot_left : item x lo = 0%Q.
Hypothesis foot_right : item x hi = 0%Q.

Lemma left_base_scan :
  forall (d fuel : nat) (i : Z),
    i = lo + Z.of_nat d -> i <= peak -> (d < fuel)%nat ->
    left_base_loop fuel x 0 peak i 1 peak = (0%Q, lo).
Proof.
  induction d as [| d IH]; intros fuel i Hi Hle Hfuel;
    (destruct fuel as [| fuel]; [lia |]); cbn [left_base_loop];
    replace (0 <=? i) with true by (symmetry; apply Z.leb_le; lia);
    rewrite (plateau peak) by lia.
  - replace i with lo by lia. rewrite foot_left. cbn [andb].
    change (Qle_bool 0 1) with true. change (Qltb 0 1) with true.
    cbn iota. apply left_base_floor.
  - rewrite (plateau i) by lia. cbn [andb].
    change (Qle_bool 1 1) with true. change (Qltb 1 1) with false.
    cbn iota. apply (IH fuel); lia.
Qed.

Lemma right_base_scan :
  forall (d fuel : nat) (i : Z),
    i = hi - Z.of_nat d -> peak <= i -> (d < fuel)%nat ->
    right_base_loop fuel x (Z.of_nat (length x) - 1) peak i 1 peak
    = (0%Q, hi).
Proof.
  induction d as [| d IH]; intros fuel i Hi Hle Hfuel;
    (destruct fuel as [| fuel]; [lia |]); cbn [right_base_loop];
    replace (i <=? Z.of_nat (length x) - 1) with true
      by (symmetry; apply Z.leb_le; lia);
    rewrite (plateau peak) by lia.
  - replace i with hi by lia. rewrite foot_right. cbn [andb].
    change (Qle_bool 0 1) with true. change (Qltb 0 1) with true.
    cbn iota. apply right_base_floor.
  - rewrite (plateau i) by lia. cbn [andb].
    change (Qle_bool 1 1) with true. change (Qltb 1 1) with false.
    cbn iota. apply (IH fuel); lia.
Qed.

(** The prominence of a plateau of ones is 1 and its bases are its feet. *)
Lemma peak_prominence_plateau :
  peak_prominence x peak = mkProminence 1 lo hi.
Proof.
  assert (Hlen : (Z.to_nat (hi - lo) < S (length x))%nat) by lia.
  unfold peak_prominence. rewrite (plateau peak) by lia.
  rewrite (left_base_scan (Z.to_nat (peak - lo))) by lia.
  rewrite (right_base_scan (Z.to_nat (hi - peak))) by lia.
  reflexivity.
Qed.

Lemma left_ip_scan :
  forall (d fuel : nat) (i : Z),
    i = lo + Z.of_nat d -> i <= peak -> (d < fuel)%nat ->
    left_ip_loop fuel x lo (1 - 1 * (1 # 2)) i = lo.
Proof.
  induction d as [| d IH]; intros fuel i Hi Hle Hfuel;
    (destruct fuel as [| fuel]; [lia |]); cbn [left_ip_loop].
  - replace i with lo by lia. rewrite Z.ltb_irrefl. reflexivity.
  - replace (lo <? i) with true by (symmetry; apply Z.ltb_lt; lia).
    rewrite (plateau i) by lia.
    change (Qltb (1 - 1 * (1 # 2)) 1) with true. cbn [andb].
    apply (IH fuel); lia.
Qed.

Lemma right_ip_scan :
  forall (d fuel : nat) (i : Z),
    i = hi - Z.of_nat d -> peak <= i -> (d < fuel)%nat ->
    right_ip_loop fuel x hi (1 - 1 * (1 # 2)) i = hi.
Proof.
  induction d as [| d IH]; intros fuel i Hi Hle Hfuel;
    (destruct fuel as [| fuel]; [lia |]); cbn [right_ip_loop].
  - replace i with hi by lia. rewrite Z.ltb_irrefl. reflexivity.
  - replace (i <? hi) with true by (symmetry; apply Z.ltb_lt; lia).
    rewrite (plateau i) by lia.
    change (Qltb (1 - 1 * (1 # 2)) 1) with true. cbn [andb].
    apply (IH fuel); lia.
Qed.

(** At half its prominence a plateau of ones is as wide as it has
    samples: the crossing points lie half a sample outside its edges. *)
Lemma peak_width_plateau :
  (peak_width x (1 # 2) peak (peak_prominence x peak)
   == inject_Z (hi - lo - 1))%Q.
Proof.
  assert (Hlen : (Z.to_nat (hi - lo) < S (length x))%nat) by lia.
  rewrite peak_prominence_plateau. unfold peak_width.
  cbn [prominence left_base right_base].
  rewrite (plateau peak) by lia.
  rewrite (left_ip_scan (Z.to_nat (peak - lo))) by lia.
  rewrite (right_ip_scan (Z.to_nat (hi - peak))) by lia.
  rewrite foot_left, foot_right.
  rewrite (plateau (lo + 1)) by lia. rewrite (plateau (hi - 1)) by lia.
  change (Qltb 0 (1 - 1 * (1 # 2))) with true. cbn iota.
  unfold Qeq, Qminus, Qplus, Qopp, Qdiv, Qmult, Qinv, inject_Z.
  cbn [Qnum Qden]. cbn. lia.
Qed.

End Signal.

End PlateauFacts.

(** ** [np.argmax] returns the first maximum *)

Module ArgmaxFacts.

Import Peaks PeakSpec.
Local Open Scope nat_scope.

Lemma Qltb_width (v w : Q) (b n : nat) :
  width_is v b -> width_is w n -> Qltb v w = (b <? n).
Proof.
  unfold width_is, Qltb. intros Hv Hw.
  destruct (Nat.ltb_spec b n) as [Hlt | Hge].
  - destruct (Qle_bool w v) eqn:E; [| reflexivity].
    apply Qle_bool_iff in E. rewrite Hv, Hw in E.
    rewrite <- Zle_Qle in E. lia.
  - assert (E : Qle_bool w v = true).
    { apply Qle_bool_iff. rewrite Hv, Hw. rewrite <- Zle_Qle. lia. }
    rewrite E. reflexivity.
Qed.

Lemma argmax_from_first_max :
  forall (ws : list Q) (ns : list nat),
    Forall2 width_is ws ns ->
    forall (best : Q) (b bi i : nat),
      width_is best b ->
      let a := argmax_from best bi i ws in
      (a = bi /\ Forall (fun n => n <= b) ns) \/
      (i <= a < i + length ns /\
       b < nth (a - i) ns 0 /\
       Forall (fun n => n <= nth (a - i) ns 0) ns /\
       forall j, j < a - i -> nth j ns 0 < nth (a - i) ns 0).
Proof.
  induction 1 as [| w n ws ns Hw Hws IH]; intros best b bi i Hbest a.
  - left. split; [reflexivity | constructor].
  - subst a. cbn [argmax_from]. rewrite (Qltb_width _ _ _ _ Hbest Hw).
    destruct (Nat.ltb_spec b n) as [Hlt | Hge].
    + right. destruct (IH w n i (S i) Hw) as [[Ha Hall] | (Hr & Hb & Hall & Hf)].
      * rewrite Ha, Nat.sub_diag. cbn [nth length]. repeat split; try lia.
        constructor; [lia | exact Hall].
      * set (a := argmax_from w i (S i) ws) in *.
        replace (a - i) with (S (a - S i)) by lia. cbn [nth length].
        repeat split; try lia.
        -- constructor; [lia | exact Hall].
        -- intros [| j] Hj; cbn [nth]; [lia | apply Hf; lia].
    + destruct (IH best b bi (S i) Hbest) as [[Ha Hall] | (Hr & Hb & Hall & Hf)].
      * left. split; [exact Ha | constructor; [exact Hge | exact Hall]].
      * right. set (a := argmax_from best bi (S i) ws) in *.
        replace (a - i) with (S (a - S i)) by lia. cbn [nth length].
        repeat split; try lia.
        -- constructor; [lia | exact Hall].
        -- intros [| j] Hj; cbn [nth]; [lia | apply Hf; lia].
Qed.

Lemma argmax_first_max (ws : list Q) (ns : list nat) :
  Forall2 width_is ws ns ->
  match argmax ws with
  | None => ns = []
  | Some a => first_max ns a
  end.
Proof.
  intros H. destruct H as [| w n ws ns Hw Hws]; [reflexivity |].
  cbn [argmax].
  destruct (argmax_from_first_max ws ns Hws w n 0 1 Hw)
    as [[Ha Hall] | (Hr & Hb & Hall & Hf)].
  - rewrite Ha. unfold first_max. cbn [nth length]. repeat split; try lia.
    intros m [<- | Hm]; [lia |]. rewrite Forall_forall in Hall.
    apply Hall. exact Hm.
  - set (a := argmax_from w 0 1 ws) in *. unfold first_max.
    replace a with (S (a - 1)) by lia. cbn [nth length].
    repeat split; try lia.
    + intros m [<- | Hm]; [lia |]. rewrite Forall_forall in Hall.
      apply Hall. exact Hm.
    + intros [| j] Hj; cbn [nth]; [lia | apply Hf; lia].
Qed.

End ArgmaxFacts.

(** ** The runs of the specification are the maximal runs *)

Module RunsFacts.

Import PeakSpec.
Local Open Scope nat_scope.

Lemma run_inv_snoc_true (prefix : list bool) (cur : option nat) :
  run_inv prefix cur ->
  run_inv (prefix ++ [true])
    (Some (match cur with Some c => c | None => length prefix end)).
Proof.
  intros H. unfold run_inv. rewrite length_app. cbn [length].
  destruct cur as [c |]; cbn [run_inv] in H.
  - destruct H as (Hc & Hall & Hleft). repeat split.
    + lia.
    + intros j Hj. destruct (Nat.eq_dec j (length prefix)) as [-> | Hne].
      * rewrite nth_middle. reflexivity.
      * rewrite app_nth1 by lia. apply Hall. lia.
    + destruct Hleft as [-> | Hleft]; [left; reflexivity | right].
      rewrite app_nth1 by lia. exact Hleft.
  - repeat split.
    + lia.
    + intros j Hj. replace j with (length prefix) by lia.
      rewrite nth_middle. reflexivity.
    + destruct prefix as [| b p]; [left; reflexivity | right].
      rewrite app_nth1 by (cbn [length]; lia). exact H.
Qed.

Lemma run_inv_snoc_false (prefix : list bool) (cur : option nat) :
  run_inv (prefix ++ [false]) None.
Proof.
  unfold run_inv. rewrite length_app. cbn [length].
  replace (length prefix + 1 - 1) with (length prefix) by lia.
  apply nth_middle.
Qed.

(** The run in progress, closed at the position of the next failure (or at
    the end of the list), is maximal. *)
Lemma run_inv_closed (prefix suffix : list bool) (c : nat) :
  run_inv prefix (Some c) ->
  nth 0 suffix false = false ->
  maximal_run (prefix ++ suffix) c (length prefix - c).
Proof.
  intros (Hc & Hall & Hleft) Hstop. unfold maximal_run. repeat split.
  - lia.
  - intros j Hj. rewrite app_nth1 by lia. apply Hall. lia.
  - destruct Hleft as [-> | Hleft]; [left; reflexivity | right].
    rewrite app_nth1 by lia. exact Hleft.
  - replace (c + (length prefix - c)) with (length prefix) by lia.
    rewrite app_nth2 by lia. rewrite Nat.sub_diag. exact Hstop.
Qed.

Lemma runs_from_sound :
  forall (suffix prefix : list bool) (cur : option nat) (st n : nat),
    run_inv prefix cur ->
    In (st, n) (runs_from (length prefix) cur suffix) ->
    maximal_run (prefix ++ suffix) st n.
Proof.
  induction suffix as [| b t IH]; intros prefix cur st n Hinv Hin.
  - cbn [runs_from] in Hin. destruct cur as [c |]; [| contradiction].
    destruct Hin as [Heq | []]. inversion Heq; subst.
    apply run_inv_closed; [exact Hinv | reflexivity].
  - assert (Hsplit : prefix ++ b :: t = (prefix ++ [b]) ++ t)
      by (rewrite <- app_assoc; reflexivity).
    assert (Hlen : length (prefix ++ [b]) = S (length prefix))
      by (rewrite length_app; cbn [length]; lia).
    destruct b; cbn [runs_from] in Hin.
    + rewrite Hsplit. apply IH with (cur := Some
        (match cur with Some c => c | None => length prefix end)).
      * apply run_inv_snoc_true. exact Hinv.
      * rewrite Hlen. exact Hin.
    + destruct cur as [c |].
      * destruct Hin as [Heq | Hin].
        -- inversion Heq; subst.
           apply run_inv_closed; [exact Hinv | reflexivity].
        -- rewrite Hsplit. apply IH with (cur := None).
           ++ apply run_inv_snoc_false. exact (Some c).
           ++ rewrite Hlen. exact Hin.
      * rewrite Hsplit. apply IH with (cur := None).
        -- apply run_inv_snoc_false. exact None.
        -- rewrite Hlen. exact Hin.
Qed.

(** A maximal run lies inside the list. *)
Lemma maximal_run_inside (l : list bool) (st n : nat) :
  maximal_run l st n -> st + n <= length l.
Proof.
  intros (Hn & Hall & _ & _).
  destruct (Nat.le_gt_cases (st + n) (length l)) as [H | H]; [exact H |].
  specialize (Hall (st + n - 1)).
  rewrite nth_overflow in Hall by lia.
  assert (false = true) by (apply Hall; lia). discriminate.
Qed.

Lemma runs_from_complete :
  forall (suffix prefix : list bool) (cur : option nat) (st n : nat),
    run_inv prefix cur ->
    maximal_run (prefix ++ suffix) st n ->
    match cur with Some c => c <= st | None => length prefix <= st end ->
    In (st, n) (runs_from (length prefix) cur suffix).
Proof.
  induction suffix as [| b t IH]; intros prefix cur st n Hinv Hrun Hpos.
  - pose proof (maximal_run_inside _ _ _ Hrun) as Hin.
    rewrite app_nil_r in *. destruct Hrun as (Hn & Hall & Hleft & Hright).
    destruct cur as [c |]; [| lia].
    destruct Hinv as (Hc & Hcall & Hcleft).
    assert (st = c).
    { destruct (Nat.eq_dec st c) as [E | E]; [exact E |].
      destruct Hleft as [-> | Hleft]; [lia |].
      rewrite Hcall in Hleft by lia. discriminate. }
    subst st.
    assert (c + n = length prefix).
    { destruct (Nat.eq_dec (c + n) (length prefix)) as [E | E]; [exact E |].
      rewrite Hcall in Hright by lia. discriminate. }
    cbn [runs_from]. left. f_equal. lia.
  - assert (Hsplit : prefix ++ b :: t = (prefix ++ [b]) ++ t)
      by (rewrite <- app_assoc; reflexivity).
    assert (Hlen : length (prefix ++ [b]) = S (length prefix))
      by (rewrite length_app; cbn [length]; lia).
    assert (Hb : nth (length prefix) (prefix ++ b :: t) false = b)
      by apply nth_middle.
    pose proof Hrun as (Hn & Hall & Hleft & Hright).
    destruct b; cbn [runs_from].
    + rewrite <- Hlen. apply IH.
      * apply run_inv_snoc_true. exact Hinv.
      * rewrite <- Hsplit. exact Hrun.
      * destruct cur as [c |]; exact Hpos.
    + destruct cur as [c |].
      * destruct Hinv as (Hc & Hcall & Hcleft).
        destruct (Nat.eq_dec st c) as [-> | Hne].
        -- left. f_equal.
           assert (c + n = length prefix); [| lia].
           destruct (Nat.lt_trichotomy (c + n) (length prefix))
             as [Hlt | [E | Hgt]]; [| exact E |].
           ++ rewrite app_nth1 in Hright by lia.
              rewrite Hcall in Hright by lia. discriminate.
           ++ rewrite Hall in Hb by lia. discriminate.
        -- right. rewrite <- Hlen. apply IH.
           ++ apply run_inv_snoc_false. exact None.
           ++ rewrite <- Hsplit. exact Hrun.
           ++ rewrite Hlen.
              destruct (Nat.le_gt_cases (S (length prefix)) st)
                as [H | H]; [exact H |].
              destruct Hleft as [-> | Hleft]; [lia |].
              destruct (Nat.eq_dec st (length prefix)) as [-> | Hne'].
              ** rewrite Hall in Hb by lia. discriminate.
              ** rewrite app_nth1 in Hleft by lia.
                 rewrite Hcall in Hleft by lia. discriminate.
      * rewrite <- Hlen. apply IH.
        -- apply run_inv_snoc_false. exact None.
        -- rewrite <- Hsplit. exact Hrun.
        -- rewrite Hlen.
           destruct (Nat.eq_dec st (length prefix)) as [-> | Hne]; [| lia].
           rewrite Hall in Hb by lia. discriminate.
Qed.

Lemma success_runs_maximal (l : list bool) (st n : nat) :
  In (st, n) (success_runs l) <-> maximal_run l st n.
Proof.
  unfold success_runs. split; intros H.
  - apply (runs_from_sound l [] None); [reflexivity | exact H].
  - apply (runs_from_complete l [] None); [reflexivity | exact H |].
    cbn [length]. lia.
Qed.

(** Runs are listed by increasing start. *)
Lemma runs_from_lower_bound :
  forall (suffix : list bool) (i : nat) (cur : option nat) (r : nat * nat),
    match cur with Some c => c <= i | None => True end ->
    In r (runs_from i cur suffix) ->
    match cur with Some c => c | None => i end <= fst r.
Proof.
  induction suffix as [| b t IH]; intros i cur r Hc Hin.
  - cbn [runs_from] in Hin. destruct cur as [c |]; [| contradiction].
    destruct Hin as [<- | []]. cbn [fst]. lia.
  - destruct b; cbn [runs_from] in Hin.
    + apply IH in Hin; destruct cur as [c |]; cbn in *; lia.
    + destruct cur as [c |].
      * destruct Hin as [<- | Hin]; [cbn [fst]; lia |].
        apply IH in Hin; cbn in *; lia.
      * apply IH in Hin; cbn in *; lia.
Qed.

Lemma runs_from_sorted :
  forall (suffix : list bool) (i : nat) (cur : option nat)
         (l1 l2 : list (nat * nat)) (r : nat * nat),
    match cur with Some c => c <= i | None => True end ->
    runs_from i cur suffix = l1 ++ r :: l2 ->
    forall r', In r' l2 -> fst r < fst r'.
Proof.
  induction suffix as [| b t IH]; intros i cur l1 l2 r Hc Heq r' Hin.
  - cbn [runs_from] in Heq. destruct cur as [c |].
    + destruct l1 as [| a [| a' l1]]; inversion Heq; subst; contradiction.
    + destruct l1; discriminate.
  - destruct b; cbn [runs_from] in Heq.
    + eapply IH; [| exact Heq | exact Hin]. destruct cur; cbn; lia.
    + destruct cur as [c |].
      * destruct l1 as [| a l1]; inversion Heq; subst.
        -- apply (runs_from_lower_bound t (S i) None) in Hin; cbn in *; lia.
        -- eapply IH; [| eassumption | exact Hin]. exact I.
      * eapply IH; [| exact Heq | exact Hin]. exact I.
Qed.

Lemma runs_from_nonempty :
  forall (suffix : list bool) (i : nat) (cur : option nat),
    (cur <> None \/ In true suffix) -> runs_from i cur suffix <> [].
Proof.
  induction suffix as [| b t IH]; intros i cur H.
  - destruct H as [H | []]. destruct cur; [discriminate | congruence].
  - destruct b; cbn [runs_from].
    + apply IH. left. discriminate.
    + destruct cur; [discriminate |]. apply IH.
      destruct H as [H | [H | H]]; [congruence | discriminate | right; exact H].
Qed.

Lemma success_runs_nil (l : list bool) :
  success_runs l = [] <-> ~ In true l.
Proof.
  split.
  - intros H Hin.
    apply (runs_from_nonempty l 0 None (or_intror Hin)). exact H.
  - intros H. unfold success_runs. generalize 0.
    induction l as [| b t IH]; intros i; [reflexivity |].
    destruct b; [exfalso; apply H; left; reflexivity |].
    cbn [runs_from]. apply IH. intros Hin. apply H. right. exact Hin.
Qed.

(** [find] returns the first element that passes the test. *)
Lemma find_first {A : Type} (f : A -> bool) :
  forall (l : list A) (x : A),
    find f l = Some x ->
    exists l1 l2, l = l1 ++ x :: l2 /\ f x = true /\
                  forall y, In y l1 -> f y = false.
Proof.
  induction l as [| a l IH]; intros x H; [discriminate |].
  cbn [find] in H. destruct (f a) eqn:Ea.
  - inversion H; subst. exists [], l. repeat split; [exact Ea | intros y []].
  - destruct (IH x H) as (l1 & l2 & -> & Hx & Hl1).
    exists (a :: l1), l2. repeat split; [exact Hx |].
    intros y [<- | Hy]; [exact Ea | apply Hl1; exact Hy].
Qed.

Lemma list_max_in (l : list nat) : l <> [] -> In (list_max l) l.
Proof.
  induction l as [| a l IH]; intros H; [congruence |].
  cbn [list_max fold_right]. fold (list_max l).
  destruct l as [| b l].
  - left. cbn. lia.
  - destruct (Nat.max_spec a (list_max (b :: l))) as [[_ ->] | [_ ->]].
    + right. apply IH. discriminate.
    + left. reflexivity.
Qed.

Lemma list_max_ge (l : list nat) (x : nat) : In x l -> x <= list_max l.
Proof.
  intros H. pose proof (proj1 (list_max_le l (list_max l)) (Nat.le_refl _))
    as Hall.
  rewrite Forall_forall in Hall. apply Hall. exact H.
Qed.

(** The run chosen by the specification is a widest run, and there is one
    as soon as some attempt succeeded. *)
Lemma widest_first_widest (l : list bool) (st n : nat) :
  widest_first (success_runs l) = Some (st, n) -> widest_run l st n.
Proof.
  unfold widest_first. intros H.
  destruct (find_first _ _ _ H) as (l1 & l2 & Heq & Hmax & Hbefore).
  cbn [snd] in Hmax. apply Nat.eqb_eq in Hmax.
  split.
  - apply success_runs_maximal. rewrite Heq. apply in_elt.
  - intros st' n' Hrun. apply success_runs_maximal in Hrun.
    assert (Hle : n' <= n).
    { rewrite Hmax. apply list_max_ge.
      apply (in_map snd) in Hrun. exact Hrun. }
    split; [exact Hle |]. intros ->.
    rewrite Heq in Hrun. apply in_app_or in Hrun.
    destruct Hrun as [Hin | [Hin | Hin]].
    + apply Hbefore in Hin. cbn [snd] in Hin.
      rewrite Hmax, Nat.eqb_refl in Hin. discriminate.
    + inversion Hin. lia.
    + pose proof (runs_from_sorted l 0 None l1 l2 (st, n) I Heq _ Hin) as Hlt.
      cbn [fst] in Hlt. lia.
Qed.

Lemma widest_first_exists (l : list bool) :
  In true l -> exists r, widest_first (success_runs l) = Some r.
Proof.
  intros H. unfold widest_first.
  assert (Hne : map snd (success_runs l) <> []).
  { intros E. apply map_eq_nil in E. apply success_runs_nil in E.
    contradiction. }
  apply list_max_in in Hne. apply in_map_iff in Hne.
  destruct Hne as (r & Hr & Hin).
  destruct (find (fun r0 => snd r0 =? list_max (map snd (success_runs l)))
              (success_runs l)) as [r' |] eqn:E.
  - exists r'. reflexivity.
  - apply (find_none _ _ E) in Hin. cbn beta in Hin.
    rewrite Hr, Nat.eqb_refl in Hin. discriminate.
Qed.

(** There is at most one widest run. *)
Lemma widest_run_unique (l : list bool) (st n st' n' : nat) :
  widest_run l st n -> widest_run l st' n' -> st = st' /\ n = n'.
Proof.
  intros [Hr H] [Hr' H'].
  destruct (H _ _ Hr') as [Hle Htie]. destruct (H' _ _ Hr) as [Hle' Htie'].
  assert (n = n') by lia. subst n'.
  specialize (Htie eq_refl). specialize (Htie' eq_refl). lia.
Qed.

End RunsFacts.

(** ** [find_peaks] on the padded indicator, and the selected yaw *)

Module SelectionFacts.

Import Peaks PeakSpec PeaksFacts PlateauFacts ArgmaxFacts RunsFacts.
Local Open Scope Z_scope.

Lemma padded_floor (s : list bool) (j : Z) :
  Qltb (item (padded s) j) 0 = false.
Proof. rewrite item_padded. destruct (sbit s (j - 1)); reflexivity. Qed.

Lemma midpoint_inside (st n : Z) :
  1 <= n -> st < (2 * st + n + 1) / 2 < st + n + 1.
Proof. intros H. split; Z.div_mod_to_equations; lia. Qed.

Lemma midpoint_unpadded (st n : nat) :
  (1 <= n)%nat ->
  midpoint (maximum_of_run (st, n)) - 1 = Z.of_nat (run_midpoint (st, n)).
Proof.
  intros H. unfold maximum_of_run, run_midpoint. cbn [fst snd midpoint].
  rewrite Nat2Z.inj_add, Nat2Z.inj_div, Nat2Z.inj_sub by lia.
  change (Z.of_nat 2) with 2. change (Z.of_nat 1) with 1.
  Z.div_mod_to_equations. lia.
Qed.

Section Run.

Variables (s : list bool) (st n : nat).
Hypothesis run : maximal_run s st n.

Lemma run_plateau :
  forall j, Z.of_nat st < j < Z.of_nat st + Z.of_nat n + 1 ->
            item (padded s) j = 1%Q.
Proof.
  intros j Hj. rewrite item_padded.
  replace (j - 1) with (Z.of_nat (Z.to_nat (j - 1))) by lia.
  rewrite sbit_nat. destruct run as (_ & Hall & _ & _).
  rewrite Hall by lia. reflexivity.
Qed.

Lemma run_foot_left : item (padded s) (Z.of_nat st) = 0%Q.
Proof.
  rewrite item_padded.
  destruct run as (_ & _ & [-> | Hleft] & _).
  - rewrite sbit_neg by (cbn; lia). reflexivity.
  - destruct st as [| st'].
    + rewrite sbit_neg by (cbn; lia). reflexivity.
    + replace (Z.of_nat (S st') - 1) with (Z.of_nat (S st' - 1)) by lia.
      rewrite sbit_nat, Hleft. reflexivity.
Qed.

Lemma run_foot_right :
  item (padded s) (Z.of_nat st + Z.of_nat n + 1) = 0%Q.
Proof.
  rewrite item_padded.
  replace (Z.of_nat st + Z.of_nat n + 1 - 1) with (Z.of_nat (st + n)) by lia.
  rewrite sbit_nat. destruct run as (_ & _ & _ & ->). reflexivity.
Qed.

Lemma run_peak_inside :
  Z.of_nat st < midpoint (maximum_of_run (st, n))
  < Z.of_nat st + Z.of_nat n + 1.
Proof.
  unfold maximum_of_run. cbn [fst snd midpoint].
  apply midpoint_inside. destruct run. lia.
Qed.

Lemma run_hi_inside :
  Z.of_nat st + Z.of_nat n + 1 <= Z.of_nat (length (padded s)) - 1.
Proof.
  rewrite length_padded.
  pose proof (maximal_run_inside _ _ _ run). lia.
Qed.

Lemma run_peak_height :
  select_by_property 1 (item (padded s) (midpoint (maximum_of_run (st, n))))
  = true.
Proof. rewrite run_plateau by apply run_peak_inside. reflexivity. Qed.

Lemma run_peak_width :
  width_is
    (peak_width (padded s) (1 # 2) (midpoint (maximum_of_run (st, n)))
       (peak_prominence (padded s) (midpoint (maximum_of_run (st, n)))))
    n.
Proof.
  unfold width_is.
  rewrite (peak_width_plateau (padded s) (padded_floor s) (Z.of_nat st)
             (Z.of_nat st + Z.of_nat n + 1)).
  - apply inject_Z_injective. lia.
  - lia.
  - apply run_hi_inside.
  - apply run_peak_inside.
  - apply run_plateau.
  - apply run_foot_left.
  - apply run_foot_right.
Qed.

Lemma run_peak_wide :
  select_by_property 1
    (peak_width (padded s) (1 # 2) (midpoint (maximum_of_run (st, n)))
       (peak_prominence (padded s) (midpoint (maximum_of_run (st, n)))))
  = true.
Proof.
  unfold select_by_property. apply Qle_bool_iff.
  pose proof run_peak_width as Hw. unfold width_is in Hw.
  rewrite Hw. change 1%Q with (inject_Z 1).
  rewrite <- Zle_Qle. destruct run. lia.
Qed.

End Run.

Lemma filter_keeps_all {A : Type} (f : A -> bool) (l : list A) :
  (forall a, In a l -> f a = true) -> filter f l = l.
Proof.
  induction l as [| a l IH]; intros H; [reflexivity |].
  cbn [filter]. rewrite (H a) by (left; reflexivity).
  f_equal. apply IH. intros b Hb. apply H. right. exact Hb.
Qed.

(** With [height=1] and [width=1] no plateau of the indicator is filtered
    out: [find_peaks] returns one peak per maximal run. *)
Lemma find_peaks_padded (s : list bool) :
  find_peaks (padded s) 1 1
  = map (fun r =>
           let p := midpoint (maximum_of_run r) in
           (p, peak_width (padded s) (1 # 2) p
                 (peak_prominence (padded s) p)))
      (success_runs s).
Proof.
  unfold find_peaks. rewrite local_maxima_padded, map_map.
  rewrite (filter_keeps_all (fun p => select_by_property 1 (item (padded s) p))).
  - rewrite map_map. apply filter_keeps_all.
    intros [p w] Hin. apply in_map_iff in Hin.
    destruct Hin as ([st n] & Heq & Hin). inversion Heq; subst.
    apply success_runs_maximal in Hin. cbn [snd].
    apply run_peak_wide. exact Hin.
  - intros p Hin. apply in_map_iff in Hin.
    destruct Hin as ([st n] & <- & Hin).
    apply success_runs_maximal in Hin.
    apply run_peak_height. exact Hin.
Qed.

Lemma find_peaks_widths (s : list bool) :
  Forall2 width_is (map snd (find_peaks (padded s) 1 1))
    (map snd (success_runs s)).
Proof.
  rewrite find_peaks_padded, map_map. cbn [snd].
  assert (H : forall r, In r (success_runs s) -> maximal_run s (fst r) (snd r)).
  { intros [st n] Hin. apply success_runs_maximal. exact Hin. }
  induction (success_runs s) as [| [st n] rs IH]; [constructor |].
  cbn [map]. constructor.
  - apply run_peak_width. apply (H (st, n)). left. reflexivity.
  - apply IH. intros r Hr. apply H. right. exact Hr.
Qed.

(** The selected index is the midpoint of the widest run: the first one
    among the widest. *)
Lemma idx_of_widest_peak_widest (s : list bool) :
  match idx_of_widest_peak s with
  | None => ~ In true s
  | Some m =>
      exists st n, widest_run s st n /\ m = Z.of_nat (run_midpoint (st, n))
  end.
Proof.
  unfold idx_of_widest_peak.
  pose proof (argmax_first_max _ _ (find_peaks_widths s)) as Ha.
  destruct (argmax (map snd (find_peaks (padded s) 1 1))) as [a |].
  - destruct Ha as (Hlt & Hmax & Hfirst). rewrite length_map in Hlt.
    destruct (nth_error (success_runs s) a) as [[st n] |] eqn:Er;
      [| apply nth_error_None in Er; lia].
    rewrite find_peaks_padded, map_map. cbn [fst].
    rewrite nth_error_map, Er. cbn [option_map].
    destruct (nth_error_split _ _ Er) as (l1 & l2 & Heq & Hl1).
    assert (Hn : nth a (map snd (success_runs s)) 0%nat = n).
    { rewrite Heq, map_app. cbn [map].
      rewrite <- Hl1, <- (length_map snd l1). apply nth_middle. }
    rewrite Hn in *.
    assert (Hrun : maximal_run s st n).
    { apply success_runs_maximal. rewrite Heq. apply in_elt. }
    exists st, n. split; [split; [exact Hrun |] |].
    + intros st' n' Hrun'. apply success_runs_maximal in Hrun'.
      assert (Hle : (n' <= n)%nat).
      { apply Hmax. apply (in_map snd) in Hrun'. exact Hrun'. }
      split; [exact Hle |]. intros ->.
      rewrite Heq in Hrun'. apply in_app_or in Hrun'.
      destruct Hrun' as [Hin | [Hin | Hin]].
      * destruct (In_nth _ _ (0%nat, 0%nat) Hin) as (j & Hj & Hnth).
        specialize (Hfirst j ltac:(lia)).
        rewrite Heq, map_app in Hfirst.
        rewrite app_nth1 in Hfirst by (rewrite length_map; exact Hj).
        change 0%nat with (snd (0%nat, 0%nat)) in Hfirst at 1.
        rewrite map_nth, Hnth in Hfirst. cbn [snd] in Hfirst. lia.
      * inversion Hin. lia.
      * pose proof (runs_from_sorted s 0 None l1 l2 (st, n) I Heq _ Hin)
          as Hs. cbn [fst] in Hs. lia.
    + apply midpoint_unpadded. destruct Hrun. lia.
  - apply map_eq_nil in Ha. apply success_runs_nil. exact Ha.
Qed.

(** The code computes what the specification's words compute. *)
Lemma idx_of_widest_peak_refines (s : list bool) :
  idx_of_widest_peak s = option_map Z.of_nat (widest_run_midpoint s).
Proof.
  pose proof (idx_of_widest_peak_widest s) as H.
  unfold widest_run_midpoint.
  destruct (idx_of_widest_peak s) as [m |].
  - destruct H as (st & n & Hw & ->).
    assert (Hin : In true s).
    { destruct Hw as [(Hn & Hall & _) _].
      rewrite <- (Hall st) by lia. apply nth_In.
      destruct (Nat.lt_ge_cases st (length s)) as [Hlt | Hge]; [exact Hlt |].
      specialize (Hall st). rewrite nth_overflow in Hall by exact Hge.
      assert (false = true) by (apply Hall; lia). discriminate. }
    destruct (widest_first_exists s Hin) as ([st' n'] & E). rewrite E.
    apply widest_first_widest in E.
    destruct (widest_run_unique _ _ _ _ _ Hw E) as [-> ->]. reflexivity.
  - apply success_runs_nil in H. rewrite H. reflexivity.
Qed.

End SelectionFacts.

(** ** [evaluate_grasp_point] *)

Module EvaluateFacts.

Import Geometry Grasping Peaks PeakSpec RunsFacts SelectionFacts.

Lemma length_linspace (a b : R) (n : nat) : length (linspace a b n) = n.
Proof.
  unfold linspace. destruct n as [| [| n]]; [reflexivity | reflexivity |].
  rewrite length_map, length_seq. reflexivity.
Qed.

Lemma fold_left_Qplus_count (l : list bool) :
  forall acc : Q,
    (fold_left Qplus (map b2q l) acc
     == acc + inject_Z (Z.of_nat (count_occ bool_dec l true)))%Q.
Proof.
  induction l as [| b l IH]; intros acc.
  - cbn. ring.
  - cbn [map fold_left]. rewrite IH. destruct b; cbn [count_occ b2q].
    + destruct (bool_dec true true) as [_ | E]; [| congruence].
      rewrite Nat2Z.inj_succ. unfold Z.succ. rewrite inject_Z_plus. ring.
    + destruct (bool_dec false true) as [E | _]; [discriminate |]. ring.
Qed.

(** [np.sum(successes)] is truthy exactly when some attempt succeeded. *)
Lemma np_sum_truthy (l : list bool) :
  negb (Qeq_bool (np_sum l) 0) = true <-> In true l.
Proof.
  unfold np_sum. rewrite negb_true_iff.
  rewrite (count_occ_In bool_dec).
  split; intros H.
  - destruct (count_occ bool_dec l true) as [| c] eqn:E; [| lia].
    exfalso. assert (Hq : Qeq_bool (fold_left Qplus (map b2q l) 0) 0 = true).
    { apply Qeq_bool_iff. rewrite fold_left_Qplus_count, E. reflexivity. }
    congruence.
  - destruct (Qeq_bool _ 0) eqn:Eq; [| reflexivity].
    apply Qeq_bool_iff in Eq. rewrite fold_left_Qplus_count in Eq.
    rewrite Qplus_0_l in Eq. unfold Qeq in Eq. cbn in Eq. lia.
Qed.

Lemma fold_left_max_ge (l : list Z) :
  forall o : Z,
    (o <= fold_left Z.max l o)%Z /\
    (forall x, In x l -> (x <= fold_left Z.max l o)%Z) /\
    In (fold_left Z.max l o) (o :: l).
Proof.
  induction l as [| a l IH]; intros o; cbn [fold_left].
  - repeat split; [lia | intros x [] | left; reflexivity].
  - destruct (IH (Z.max o a)) as (H1 & H2 & H3). repeat split.
    + lia.
    + intros x [<- | Hx]; [lia | apply H2; exact Hx].
    + destruct H3 as [H3 | H3]; [| right; right; exact H3].
      destruct (Z.max_spec o a) as [[_ E] | [_ E]]; rewrite E in H3 |- *.
      * right. left. exact H3.
      * left. exact H3.
Qed.

(** [np.max] returns an element that bounds all the others. *)
Lemma np_max_spec (l : list Z) (m : Z) :
  np_max l = Some m -> In m l /\ forall x, In x l -> (x <= m)%Z.
Proof.
  destruct l as [| o t]; [discriminate |]. cbn [np_max].
  intros H. inversion H; subst. clear H.
  destruct (fold_left_max_ge t o) as (H1 & H2 & H3).
  split; [exact H3 |]. intros x [<- | Hx]; [exact H1 | apply H2; exact Hx].
Qed.

Lemma np_max_some (l : list Z) : l <> [] -> exists m, np_max l = Some m.
Proof. destruct l; [congruence | intros _; eexists; reflexivity]. Qed.

(** The bound characterises the maximum. *)
Lemma np_max_unique (l : list Z) (m m' : Z) :
  np_max l = Some m ->
  In m' l -> (forall x, In x l -> (x <= m')%Z) -> m = m'.
Proof.
  intros H Hin Hle. apply np_max_spec in H. destruct H as [Hm Hb].
  specialize (Hb _ Hin). specialize (Hle _ Hm). lia.
Qed.

Lemma py_index_nat {A : Type} (l : list A) (i : nat) :
  py_index l (Z.of_nat i) = nth_error l i.
Proof.
  unfold py_index. destruct (Z.ltb_spec (Z.of_nat i) 0); [lia |].
  rewrite Nat2Z.id. reflexivity.
Qed.

(** The midpoint of a run lies on the run. *)
Lemma run_midpoint_inside (st n : nat) :
  (1 <= n)%nat -> (st <= run_midpoint (st, n) < st + n)%nat.
Proof.
  intros H. unfold run_midpoint. cbn [fst snd].
  assert ((n - 1) / 2 <= n - 1)%nat by (apply Nat.Div0.div_le_upper_bound; lia).
  lia.
Qed.

(** As soon as one attempt succeeded, the peak selection returns a position
    of the indicator, and that position holds a success. *)
Lemma selected_index (successes : list bool) :
  In true successes ->
  exists (m st n : nat),
    idx_of_widest_peak successes = Some (Z.of_nat m) /\
    widest_run successes st n /\ m = run_midpoint (st, n) /\
    (m < length successes)%nat /\ nth m successes false = true.
Proof.
  intros Hin. pose proof (idx_of_widest_peak_widest successes) as H.
  destruct (idx_of_widest_peak successes) as [z |]; [| contradiction].
  destruct H as (st & n & Hw & ->).
  exists (run_midpoint (st, n)), st, n.
  pose proof Hw as [Hrun _]. pose proof (maximal_run_inside _ _ _ Hrun).
  destruct Hrun as (Hn & Hall & _).
  pose proof (run_midpoint_inside st n Hn).
  split; [reflexivity |]. split; [exact Hw |]. split; [reflexivity |].
  split; [lia |]. apply Hall. lia.
Qed.

Section Evaluate.

Variable SUCCESS : Z.
Variable sim : Simulation.

Lemma length_sweep (R0 : Rotation) (pos : Vec3) :
  forall (yaws : list R) (s : SimState sim),
    length (fst (sweep sim R0 pos yaws s)) = length yaws.
Proof.
  induction yaws as [| yaw yaws IH]; intros s; [reflexivity |].
  cbn [sweep].
  destruct (test_grasp sim _ (restore_state sim s)) as [attempt s1].
  specialize (IH s1). destruct (sweep sim R0 pos yaws s1) as [attempts s2].
  cbn [fst length] in *. rewrite IH. reflexivity.
Qed.

Lemma successes_nth (outcomes : list Z) (m : nat) :
  nth m (map (is_positive SUCCESS) outcomes) false = true ->
  nth_error outcomes m = Some SUCCESS.
Proof.
  revert m. induction outcomes as [| o t IH]; intros [| m] H; cbn in H;
    try discriminate.
  - unfold is_positive in H. apply Z.eqb_eq in H. subst. reflexivity.
  - cbn [nth_error]. apply IH. exact H.
Qed.

Lemma successes_in (outcomes : list Z) :
  In true (map (is_positive SUCCESS) outcomes) <-> In SUCCESS outcomes.
Proof.
  rewrite in_map_iff. unfold is_positive. split.
  - intros (o & Ho & Hin). apply Z.eqb_eq in Ho. subst. exact Hin.
  - intros Hin. exists SUCCESS. rewrite Z.eqb_refl. split; [reflexivity | exact Hin].
Qed.

(** What lines 121-134 return when some yaw succeeded. *)
Lemma select_grasp_success (R0 : Rotation) (pos : Vec3) (yaws : list R)
    (attempts : list (Z * R)) :
  length yaws = length attempts ->
  In SUCCESS (map fst attempts) ->
  exists (m st n : nat) (yaw w : R) (label : Z),
    select_grasp SUCCESS R0 pos yaws attempts
    = Some (mkGrasp (mkTransform (rot_mul R0 (from_euler_z yaw)) pos) w,
            label) /\
    idx_of_widest_peak (map (is_positive SUCCESS) (map fst attempts))
    = Some (Z.of_nat m) /\
    widest_run (map (is_positive SUCCESS) (map fst attempts)) st n /\
    m = run_midpoint (st, n) /\
    nth_error yaws m = Some yaw /\
    nth_error attempts m = Some (SUCCESS, w) /\
    np_max (map fst attempts) = Some label.
Proof.
  intros Hlen Hin. unfold select_grasp.
  pose proof (proj2 (successes_in _) Hin) as Hs.
  rewrite (proj2 (np_sum_truthy _) Hs).
  destruct (selected_index _ Hs) as (m & st & n & Hidx & Hw & Hm & Hlt & Hnth).
  rewrite Hidx, !py_index_nat. rewrite !length_map in Hlt.
  apply successes_nth in Hnth.
  destruct (nth_error attempts m) as [[o w] |] eqn:Ea;
    [| apply nth_error_None in Ea; lia].
  destruct (nth_error yaws m) as [yaw |] eqn:Ey;
    [| apply nth_error_None in Ey; lia].
  rewrite nth_error_map, Ea in Hnth. cbn in Hnth. inversion Hnth; subst o.
  rewrite nth_error_map, Ea. cbn [option_map snd].
  destruct (np_max_some (map fst attempts)) as (label & Hmax).
  { intros E. rewrite E in Hin. contradiction. }
  rewrite Hmax.
  exists (run_midpoint (st, n)), st, n, yaw, w, label. subst m.
  split; [reflexivity |]. split; [reflexivity |]. split; [exact Hw |].
  split; [reflexivity |]. split; [exact Ey |]. split; [exact Ea | reflexivity].
Qed.

(** What lines 121-134 return when no yaw succeeded. *)
Lemma select_grasp_failure (R0 : Rotation) (pos : Vec3) (yaws : list R)
    (attempts : list (Z * R)) :
  attempts <> [] ->
  ~ In SUCCESS (map fst attempts) ->
  exists label : Z,
    select_grasp SUCCESS R0 pos yaws attempts
    = Some (mkGrasp (mkTransform rot_identity pos) 0%R, label) /\
    np_max (map fst attempts) = Some label.
Proof.
  intros Hne Hnot. unfold select_grasp.
  destruct (negb (Qeq_bool (np_sum (map (is_positive SUCCESS)
                                      (map fst attempts))) 0)) eqn:E.
  - apply np_sum_truthy, successes_in in E. contradiction.
  - destruct (np_max_some (map fst attempts)) as (label & Hmax).
    { intros E'. apply map_eq_nil in E'. contradiction. }
    rewrite Hmax. exists label. split; reflexivity.
Qed.

Lemma evaluate_unfold (pos normal : Vec3) (num_rotations : nat)
    (s : SimState sim) :
  evaluate_grasp_point SUCCESS sim pos normal num_rotations s
  = match select_grasp SUCCESS (grasp_frame normal) pos
            (linspace 0 PI num_rotations)
            (sweep_attempts sim pos normal num_rotations s) with
    | Some result =>
        Some (result,
              snd (sweep sim (grasp_frame normal) pos
                     (linspace 0 PI num_rotations) s))
    | None => None
    end.
Proof.
  unfold evaluate_grasp_point, sweep_attempts.
  destruct (sweep sim (grasp_frame normal) pos (linspace 0 PI num_rotations) s)
    as [attempts s']. reflexivity.
Qed.

Lemma length_sweep_attempts (pos normal : Vec3) (num_rotations : nat)
    (s : SimState sim) :
  length (sweep_attempts sim pos normal num_rotations s) = num_rotations.
Proof.
  unfold sweep_attempts. rewrite length_sweep. apply length_linspace.
Qed.

(** With at least one yaw angle the evaluation returns. *)
Lemma evaluate_returns (pos normal : Vec3) (num_rotations : nat)
    (s : SimState sim) :
  (1 <= num_rotations)%nat ->
  exists grasp label s',
    evaluate_grasp_point SUCCESS sim pos normal num_rotations s
    = Some ((grasp, label), s') /\
    np_max (sweep_outcomes sim pos normal num_rotations s) = Some label.
Proof.
  intros Hn. rewrite evaluate_unfold. unfold sweep_outcomes.
  pose proof (length_sweep_attempts pos normal num_rotations s) as Hlen.
  set (attempts := sweep_attempts sim pos normal num_rotations s) in *.
  destruct (in_dec Z.eq_dec SUCCESS (map fst attempts)) as [Hin | Hnot].
  - destruct (select_grasp_success (grasp_frame normal) pos
                (linspace 0 PI num_rotations) attempts)
      as (m & st & n & yaw & w & label & -> & _ & _ & _ & _ & _ & Hmax).
    + rewrite length_linspace. symmetry. exact Hlen.
    + exact Hin.
    + eexists _, _, _. split; [reflexivity | exact Hmax].
  - destruct (select_grasp_failure (grasp_frame normal) pos
                (linspace 0 PI num_rotations) attempts)
      as (label & -> & Hmax).
    + intros E. rewrite E in Hlen. cbn in Hlen. lia.
    + exact Hnot.
    + eexists _, _, _. split; [reflexivity | exact Hmax].
Qed.

End Evaluate.

End EvaluateFacts.

(** ** Real-valued geometry *)

Module GeometryFacts.

Import Geometry.
Local Open Scope R_scope.

Lemma np_round_IZR (z : Z) : np_round (IZR z) = z.
Proof.
  unfold np_round.
  assert (Hup : up (IZR z) = (z + 1)%Z).
  { symmetry. apply tech_up; rewrite plus_IZR; lra. }
  rewrite Hup. replace (z + 1 - 1)%Z with z by lia.
  destruct (Rlt_dec (IZR z - IZR z) (1 / 2)) as [_ | H]; [reflexivity | lra].
Qed.

(** Below the half-way point [np.round] rounds down. *)
Lemma np_round_below_half (z : Z) (x : R) :
  IZR z <= x < IZR z + 1 / 2 -> np_round x = z.
Proof.
  intros H. unfold np_round.
  assert (Hup : up x = (z + 1)%Z).
  { symmetry. apply tech_up; rewrite plus_IZR; lra. }
  rewrite Hup. replace (z + 1 - 1)%Z with z by lia.
  destruct (Rlt_dec (x - IZR z) (1 / 2)) as [_ | Hn]; [reflexivity | lra].
Qed.

Lemma quat_eq (a b : Quat) :
  qx a = qx b -> qy a = qy b -> qz a = qz b -> qw a = qw b -> a = b.
Proof. destruct a, b. cbn. intros -> -> -> ->. reflexivity. Qed.

Lemma vec3_eq (a b : Vec3) :
  vx a = vx b -> vy a = vy b -> vz a = vz b -> a = b.
Proof. destruct a, b. cbn. intros -> -> ->. reflexivity. Qed.

(** Normalising a quaternion of norm 1 changes nothing. *)
Lemma quat_normalize_unit (q : Quat) :
  qx q * qx q + qy q * qy q + qz q * qz q + qw q * qw q = 1 ->
  quat_normalize q = q.
Proof.
  intros H. unfold quat_normalize, quat_norm. rewrite H, sqrt_1.
  apply quat_eq; cbn; field.
Qed.

(** The norm is multiplicative for the Hamilton product. *)
Lemma compose_quat_norm (p q : Quat) :
  let r := compose_quat p q in
  qx r * qx r + qy r * qy r + qz r * qz r + qw r * qw r
  = (qx p * qx p + qy p * qy p + qz p * qz p + qw p * qw p)
    * (qx q * qx q + qy q * qy q + qz q * qz q + qw q * qw q).
Proof. cbn. ring. Qed.

Lemma rot_mul_unit (p q : Rotation) :
  unit_rotation p -> unit_rotation q ->
  as_quat (rot_mul p q) = compose_quat (as_quat p) (as_quat q) /\
  unit_rotation (rot_mul p q).
Proof.
  unfold unit_rotation. intros Hp Hq.
  pose proof (compose_quat_norm (as_quat p) (as_quat q)) as Hn.
  cbv zeta in Hn. rewrite Hp, Hq, Rmult_1_l in Hn.
  assert (E : as_quat (rot_mul p q) = compose_quat (as_quat p) (as_quat q)).
  { unfold rot_mul. cbn [as_quat]. apply quat_normalize_unit. exact Hn. }
  split; [exact E |]. rewrite E. exact Hn.
Qed.

Lemma rot_identity_unit : unit_rotation rot_identity.
Proof. unfold unit_rotation. cbn. ring. Qed.

Lemma from_euler_z_unit (yaw : R) : unit_rotation (from_euler_z yaw).
Proof.
  unfold unit_rotation. cbn.
  pose proof (sin2_cos2 (yaw / 2)) as H. unfold Rsqr in H. lra.
Qed.

Lemma PI_large : 1 / 1000 < PI.
Proof. pose proof PI2_1. lra. Qed.

(** [from_rotvec] of the vector pi * (0, 0, 1): the half turn about z. *)
Lemma half_turn_about_z :
  as_quat (from_rotvec (vscale (mkVec3 0 0 1) PI)) = mkQuat 0 0 1 0.
Proof.
  unfold from_rotvec, vscale, dot. cbn [vx vy vz as_quat].
  replace (0 * PI * (0 * PI) + 0 * PI * (0 * PI) + 1 * PI * (1 * PI))
    with (PI * PI) by ring.
  rewrite sqrt_square by (pose proof PI_RGT_0; lra).
  destruct (Rle_dec PI (1 / 1000)) as [H | _];
    [pose proof PI_large; lra |].
  rewrite sin_PI2, cos_PI2.
  apply quat_eq; cbn; try ring.
  field. pose proof PI_RGT_0. lra.
Qed.

Lemma half_turn_unit :
  unit_rotation (from_rotvec (vscale (mkVec3 0 0 1) PI)).
Proof. unfold unit_rotation. rewrite half_turn_about_z. cbn. ring. Qed.

(** Composing twice with the half turn about z negates the quaternion. *)
Lemma compose_half_turn_twice (q : Quat) :
  compose_quat (compose_quat q (mkQuat 0 0 1 0)) (mkQuat 0 0 1 0)
  = quat_neg q.
Proof. apply quat_eq; cbn; ring. Qed.

End GeometryFacts.

(** ** [store_sample] *)

Module StoreFacts.

Import Geometry Grasping GeometryFacts.
Local Open Scope R_scope.

Lemma index_eqb_eq (a b : Index) : index_eqb a b = true <-> a = b.
Proof.
  destruct a as [[ai aj] ak], b as [[bi bj] bk]. unfold index_eqb.
  rewrite !andb_true_iff, !Z.eqb_eq. split.
  - intros [[-> ->] ->]. reflexivity.
  - intros H. inversion H. auto.
Qed.

Lemma index_eqb_refl (a : Index) : index_eqb a a = true.
Proof. apply index_eqb_eq. reflexivity. Qed.

Lemma index_eqb_neq (a b : Index) : a <> b -> index_eqb a b = false.
Proof.
  intros H. destruct (index_eqb a b) eqn:E; [| reflexivity].
  apply index_eqb_eq in E. contradiction.
Qed.

Lemma assign_same {A : Type} (vol : Index -> A) (i : Index) (v : A) :
  assign vol i v i = v.
Proof. unfold assign. rewrite index_eqb_refl. reflexivity. Qed.

Lemma assign_other {A : Type} (vol : Index -> A) (i j : Index) (v : A) :
  j <> i -> assign vol i v j = vol j.
Proof. intros H. unfold assign. rewrite index_eqb_neq by exact H. reflexivity. Qed.

Section Store.

Variable SUCCESS : Z.
Variable tsdf : TSDFVolume.

Lemma store_one_unfold (vols : Volumes) (grasp : Grasp) (label : Z) :
  store_one SUCCESS tsdf vols (grasp, label)
  = if out_of_range tsdf (voxel_index tsdf grasp) then vols
    else
      mkVolumes
        (assign (qual_vol vols) (voxel_index tsdf grasp)
           (label2quality SUCCESS label))
        (assign (rot_vol0 vols) (voxel_index tsdf grasp)
           (as_quat (rotation (pose grasp))))
        (assign (rot_vol1 vols) (voxel_index tsdf grasp)
           (as_quat (rot_mul (rotation (pose grasp)) R_z180)))
        (assign (width_vol vols) (voxel_index tsdf grasp) (width grasp))
        (assign (mask vols) (voxel_index tsdf grasp) 1).
Proof. reflexivity. Qed.

Lemma store_one_skips (vols : Volumes) (grasp : Grasp) (label : Z) :
  out_of_range tsdf (voxel_index tsdf grasp) = true ->
  store_one SUCCESS tsdf vols (grasp, label) = vols.
Proof. intros H. rewrite store_one_unfold, H. reflexivity. Qed.

(** A pair leaves every voxel other than its own as it was. *)
Lemma store_one_elsewhere (vols : Volumes) (grasp : Grasp) (label : Z)
    (i : Index) :
  voxel_index tsdf grasp <> i ->
  let v := store_one SUCCESS tsdf vols (grasp, label) in
  qual_vol v i = qual_vol vols i /\ rot_vol0 v i = rot_vol0 vols i /\
  rot_vol1 v i = rot_vol1 vols i /\ width_vol v i = width_vol vols i /\
  mask v i = mask vols i.
Proof.
  intros H. cbv zeta. rewrite store_one_unfold.
  destruct (out_of_range tsdf (voxel_index tsdf grasp)).
  - repeat split.
  - cbn [qual_vol rot_vol0 rot_vol1 width_vol mask].
    rewrite !assign_other by congruence. repeat split.
Qed.

Lemma store_rest_elsewhere (i : Index) :
  forall (rest : list (Grasp * Z)) (vols : Volumes),
    (forall g l, In (g, l) rest -> voxel_index tsdf g <> i) ->
    let v := fold_left (store_one SUCCESS tsdf) rest vols in
    qual_vol v i = qual_vol vols i /\ rot_vol0 v i = rot_vol0 vols i /\
    rot_vol1 v i = rot_vol1 vols i /\ width_vol v i = width_vol vols i /\
    mask v i = mask vols i.
Proof.
  induction rest as [| [g l] rest IH]; intros vols H; cbv zeta.
  - repeat split.
  - cbn [fold_left].
    destruct (IH (store_one SUCCESS tsdf vols (g, l))) as (Q & R0 & R1 & W & M).
    { intros g' l' Hin. apply (H g' l'). right. exact Hin. }
    destruct (store_one_elsewhere vols g l i) as (Q' & R0' & R1' & W' & M').
    { apply (H g l). left. reflexivity. }
    cbv zeta in *. rewrite Q, R0, R1, W, M. repeat split; assumption.
Qed.

(** A voxel once marked stays marked. *)
Lemma mask_stays_marked (i : Index) :
  forall (rest : list (Grasp * Z)) (vols : Volumes),
    mask vols i = 1 ->
    mask (fold_left (store_one SUCCESS tsdf) rest vols) i = 1.
Proof.
  induction rest as [| [g l] rest IH]; intros vols H; [exact H |].
  cbn [fold_left]. apply IH. rewrite store_one_unfold.
  destruct (out_of_range tsdf (voxel_index tsdf g)); [exact H |].
  cbn [mask]. unfold assign.
  destruct (index_eqb i (voxel_index tsdf g)); [reflexivity | exact H].
Qed.

Lemma store_skips_inside (pre post : list (Grasp * Z)) (grasp : Grasp)
    (label : Z) (vols : Volumes) :
  out_of_range tsdf (voxel_index tsdf grasp) = true ->
  fold_left (store_one SUCCESS tsdf) (pre ++ (grasp, label) :: post) vols
  = fold_left (store_one SUCCESS tsdf) (pre ++ post) vols.
Proof.
  intros H. rewrite !fold_left_app. cbn [fold_left].
  rewrite store_one_skips by exact H. reflexivity.
Qed.

(** What the volumes hold at the voxel of an in-range pair of the pool. *)
Lemma store_sample_at (grasps : list Grasp) (labels : list Z)
    (pre post : list (Grasp * Z)) (grasp : Grasp) (label : Z) :
  combine grasps labels = pre ++ (grasp, label) :: post ->
  out_of_range tsdf (voxel_index tsdf grasp) = false ->
  let v := store_sample SUCCESS tsdf grasps labels in
  let i := voxel_index tsdf grasp in
  mask v i = 1 /\
  ((forall g l, In (g, l) post -> voxel_index tsdf g <> i) ->
   qual_vol v i = label2quality SUCCESS label /\
   rot_vol0 v i = as_quat (rotation (pose grasp)) /\
   rot_vol1 v i = as_quat (rot_mul (rotation (pose grasp)) R_z180) /\
   width_vol v i = width grasp).
Proof.
  intros Hpool Hin. cbv zeta. unfold store_sample.
  rewrite Hpool, fold_left_app. cbn [fold_left].
  set (before := fold_left (store_one SUCCESS tsdf) pre zeros).
  assert (Hone : store_one SUCCESS tsdf before (grasp, label)
    = mkVolumes
        (assign (qual_vol before) (voxel_index tsdf grasp)
           (label2quality SUCCESS label))
        (assign (rot_vol0 before) (voxel_index tsdf grasp)
           (as_quat (rotation (pose grasp))))
        (assign (rot_vol1 before) (voxel_index tsdf grasp)
           (as_quat (rot_mul (rotation (pose grasp)) R_z180)))
        (assign (width_vol before) (voxel_index tsdf grasp) (width grasp))
        (assign (mask before) (voxel_index tsdf grasp) 1))
    by (rewrite store_one_unfold, Hin; reflexivity).
  rewrite Hone. split.
  - apply mask_stays_marked. cbn [mask]. apply assign_same.
  - intros Hlater.
    destruct (store_rest_elsewhere (voxel_index tsdf grasp) post
                (mkVolumes
                   (assign (qual_vol before) (voxel_index tsdf grasp)
                      (label2quality SUCCESS label))
                   (assign (rot_vol0 before) (voxel_index tsdf grasp)
                      (as_quat (rotation (pose grasp))))
                   (assign (rot_vol1 before) (voxel_index tsdf grasp)
                      (as_quat (rot_mul (rotation (pose grasp)) R_z180)))
                   (assign (width_vol before) (voxel_index tsdf grasp)
                      (width grasp))
                   (assign (mask before) (voxel_index tsdf grasp) 1))
                Hlater)
      as (Q & R0 & R1 & W & _).
    cbv zeta in *. rewrite Q, R0, R1, W.
    cbn [qual_vol rot_vol0 rot_vol1 width_vol].
    rewrite !assign_same. repeat split.
Qed.

End Store.

(** On the unit grid the voxel of a grasp is its rounded position. *)
Lemma voxel_index_unit_grid_round (x y z w : R) :
  voxel_index Examples.unit_grid (Examples.grasp_at (mkVec3 x y z) w)
  = (np_round x, np_round y, np_round z).
Proof.
  unfold voxel_index, to_voxel_coordinates, Examples.grasp_at,
    Examples.unit_grid, vdiv.
  cbn [voxel_size pose translation vx vy vz].
  replace (x / 1) with x by field. replace (y / 1) with y by field.
  replace (z / 1) with z by field. reflexivity.
Qed.

(** The voxel of a grasp placed on integer coordinates of the unit grid. *)
Lemma voxel_index_unit_grid (i j k : Z) (w : R) :
  voxel_index Examples.unit_grid
    (Examples.grasp_at (mkVec3 (IZR i) (IZR j) (IZR k)) w)
  = (i, j, k).
Proof.
  unfold voxel_index, to_voxel_coordinates, Examples.grasp_at,
    Examples.unit_grid, vdiv.
  cbn [voxel_size pose translation vx vy vz].
  replace (IZR i / 1) with (IZR i) by field.
  replace (IZR j / 1) with (IZR j) by field.
  replace (IZR k / 1) with (IZR k) by field.
  rewrite !np_round_IZR. reflexivity.
Qed.

End StoreFacts.

(** ** The grasp frame and the sampler *)

Module FrameFacts.

Import Geometry Grasping GeometryFacts.
Local Open Scope R_scope.

(** The tolerance test of line 104 fails for an axis at right angles. *)
Lemma isclose_far (d : R) :
  Rabs d < 9 / 10 -> isclose (Rabs d) 1 (1 / 10000) = false.
Proof.
  intros H. unfold isclose.
  destruct (Rle_dec (Rabs (Rabs d - 1)) (1 / 100000000 + 1 / 10000 * Rabs 1))
    as [Hle | _]; [| reflexivity].
  exfalso. rewrite Rabs_R1 in Hle.
  rewrite Rabs_left in Hle by lra. lra.
Qed.

(** Whatever the normal, the three axes are mutually orthogonal, the third
    is the negated normal, and the frame is right-handed up to the squared
    length of [y_axis]; [x_axis] is as long as [y_axis] when the normal has
    length 1.  Nothing makes [y_axis] a unit vector. *)
Lemma grasp_frame_axes_orthogonal (normal : Vec3) :
  let '(x_axis, y_axis, z_axis) := grasp_frame_axes normal in
  z_axis = vneg normal /\
  dot x_axis y_axis = 0 /\ dot y_axis z_axis = 0 /\ dot x_axis z_axis = 0 /\
  cross x_axis y_axis = vscale z_axis (dot y_axis y_axis) /\
  dot x_axis x_axis = dot y_axis y_axis * dot normal normal.
Proof.
  unfold grasp_frame_axes. destruct normal as [a b c].
  destruct (isclose _ 1 (1 / 10000));
    unfold dot, cross, vneg, vscale; cbn [vx vy vz];
    (split; [reflexivity |]); (split; [ring |]); (split; [ring |]);
    (split; [ring |]); (split; [apply vec3_eq; cbn [vx vy vz]; ring | ring]).
Qed.

(** The common length of [x_axis] and [y_axis] for a unit normal: the sine
    of the angle between the normal and the reference axis. *)
Lemma grasp_frame_axes_length (normal : Vec3) :
  dot normal normal = 1 ->
  let '(x_axis, y_axis, _) := grasp_frame_axes normal in
  let reference :=
    if isclose (Rabs (dot (mkVec3 1 0 0) (vneg normal))) 1 (1 / 10000)
    then mkVec3 0 1 0 else mkVec3 1 0 0 in
  dot y_axis y_axis = 1 - dot reference normal * dot reference normal /\
  dot x_axis x_axis = 1 - dot reference normal * dot reference normal.
Proof.
  unfold grasp_frame_axes. destruct normal as [a b c].
  unfold dot at 1. cbn [vx vy vz]. intros Hn.
  destruct (isclose _ 1 (1 / 10000));
    unfold dot, cross, vneg; cbn [vx vy vz]; split; nra.
Qed.

(** From the linear condition to the third column of the rotation matrix:
    [Q * k * conj Q = z * |Q|^2]. *)
Lemma third_column_linear (x y z w p q r : R) :
  y = w * p + q * z - r * y ->
  - x = w * q + r * x - p * z ->
  w = w * r + p * y - q * x ->
  z = p * x + q * y + r * z ->
  2 * (x * z + y * w) = p * (x * x + y * y + z * z + w * w) /\
  2 * (y * z - x * w) = q * (x * x + y * y + z * z + w * w) /\
  - (x * x) - y * y + z * z + w * w = r * (x * x + y * y + z * z + w * w).
Proof.
  intros L1 L2 L3 L4.
  assert (A1 : z * x = (p * x + q * y + r * z) * x) by (rewrite <- L4; reflexivity).
  assert (A2 : w * y = w * (w * p + q * z - r * y)) by (rewrite <- L1; reflexivity).
  assert (A3 : - x * z = (w * q + r * x - p * z) * z) by (rewrite <- L2; reflexivity).
  assert (A4 : w * y = (w * r + p * y - q * x) * y) by (rewrite <- L3; reflexivity).
  assert (B1 : z * y = (p * x + q * y + r * z) * y) by (rewrite <- L4; reflexivity).
  assert (B2 : w * - x = w * (w * q + r * x - p * z)) by (rewrite <- L2; reflexivity).
  assert (B3 : w * x = (w * r + p * y - q * x) * x) by (rewrite <- L3; reflexivity).
  assert (B4 : y * z = (w * p + q * z - r * y) * z) by (rewrite <- L1; reflexivity).
  assert (C1 : z * z = (p * x + q * y + r * z) * z) by (rewrite <- L4; reflexivity).
  assert (C2 : w * w = w * (w * r + p * y - q * x)) by (rewrite <- L3; reflexivity).
  assert (C3 : y * y = (w * p + q * z - r * y) * y) by (rewrite <- L1; reflexivity).
  assert (C4 : - x * x = (w * q + r * x - p * z) * x) by (rewrite <- L2; reflexivity).
  repeat split; lra.
Qed.

(** What each value of [argmax4] says about the four entries. *)
Lemma argmax4_spec (d0 d1 d2 d3 : R) :
  match argmax4 d0 d1 d2 d3 with
  | 0%nat => d1 <= d0 /\ d2 <= d0 /\ d3 <= d0
  | 1%nat => d0 < d1 /\ d2 <= d1 /\ d3 <= d1
  | 2%nat => d0 < d2 /\ d1 < d2 /\ d3 <= d2
  | 3%nat => d0 < d3 /\ d1 < d3 /\ d2 < d3
  | _ => False
  end.
Proof.
  unfold argmax4.
  destruct (Rlt_dec d0 d1); destruct (Rlt_dec _ d2); destruct (Rlt_dec _ d3);
    repeat split; lra.
Qed.

(** A non-zero quaternion that carries the z axis onto [z] normalises to a
    rotation whose third column is [z]. *)
Lemma normalized_third_column (Q : Quat) (z : Vec3) :
  0 < qx Q * qx Q + qy Q * qy Q + qz Q * qz Q + qw Q * qw Q ->
  carries Q z ->
  let r := mkRotation (quat_normalize Q) in
  unit_rotation r /\
  mkVec3 (m02 (as_dcm r)) (m12 (as_dcm r)) (m22 (as_dcm r)) = z.
Proof.
  intros HN (L1 & L2 & L3 & L4). cbv zeta.
  destruct (third_column_linear _ _ _ _ _ _ _ L1 L2 L3 L4) as (T1 & T2 & T3).
  unfold unit_rotation, as_dcm, quat_normalize, quat_norm.
  cbn [as_quat qx qy qz qw m02 m12 m22].
  set (N := qx Q * qx Q + qy Q * qy Q + qz Q * qz Q + qw Q * qw Q) in *.
  pose proof (sqrt_sqrt N ltac:(lra)) as Hn.
  assert (Hn0 : sqrt N <> 0) by (intros E; rewrite E in Hn; lra).
  set (n := sqrt N) in *.
  split.
  - replace (qx Q / n * (qx Q / n) + qy Q / n * (qy Q / n)
             + qz Q / n * (qz Q / n) + qw Q / n * (qw Q / n))
      with (N / (n * n)) by (unfold N; field; exact Hn0).
    rewrite Hn. field. lra.
  - destruct z as [p q r]. cbn [vx vy vz] in *. apply vec3_eq; cbn [vx vy vz].
    + replace (2 * (qx Q / n * (qz Q / n) + qy Q / n * (qw Q / n)))
        with (2 * (qx Q * qz Q + qy Q * qw Q) / (n * n)) by (field; exact Hn0).
      rewrite Hn, T1. field. lra.
    + replace (2 * (qy Q / n * (qz Q / n) - qx Q / n * (qw Q / n)))
        with (2 * (qy Q * qz Q - qx Q * qw Q) / (n * n)) by (field; exact Hn0).
      rewrite Hn, T2. field. lra.
    + replace (- (qx Q / n * (qx Q / n)) - qy Q / n * (qy Q / n)
               + qz Q / n * (qz Q / n) + qw Q / n * (qw Q / n))
        with ((- (qx Q * qx Q) - qy Q * qy Q + qz Q * qz Q + qw Q * qw Q)
              / (n * n)) by (field; exact Hn0).
      rewrite Hn, T3. field. lra.
Qed.

(** Whichever formula is used, the quaternion extracted from the frame of
    the cross products carries the z axis onto the approach axis. *)
Lemma frame_quat_carries (z ref : Vec3) (choice : nat) :
  dot z z = 1 ->
  ref = mkVec3 1 0 0 \/ ref = mkVec3 0 1 0 ->
  carries
    (extract_quat (columns (cross (cross z ref) z) (cross z ref) z) choice) z.
Proof.
  destruct z as [p q r]. unfold dot. cbn [vx vy vz]. intros H Href.
  assert (Hp : p * (p * p + q * q + r * r) = p) by (rewrite H; ring).
  assert (Hq : q * (p * p + q * q + r * r) = q) by (rewrite H; ring).
  assert (Hr : r * (p * p + q * q + r * r) = r) by (rewrite H; ring).
  destruct Href as [-> | ->]; destruct choice as [| [| [| k]]];
    unfold carries, extract_quat, columns, cross;
    cbn [vx vy vz m00 m01 m02 m10 m11 m12 m20 m21 m22 qx qy qz qw];
    repeat split; lra.
Qed.

Lemma sum_squares_pos (x y z w : R) :
  x <> 0 \/ y <> 0 \/ z <> 0 \/ w <> 0 ->
  0 < x * x + y * y + z * z + w * w.
Proof. intros [H | [H | [H | H]]]; nra. Qed.

(** The formula [from_dcm] selects never extracts the zero quaternion from
    the frame of the cross products: the entry it puts first is at least 1. *)
Lemma frame_quat_nonzero (z ref : Vec3) :
  dot z z = 1 ->
  ref = mkVec3 1 0 0 \/ ref = mkVec3 0 1 0 ->
  let m := columns (cross (cross z ref) z) (cross z ref) z in
  let Q := extract_quat m
             (argmax4 (m00 m) (m11 m) (m22 m) (m00 m + m11 m + m22 m)) in
  0 < qx Q * qx Q + qy Q * qy Q + qz Q * qz Q + qw Q * qw Q.
Proof.
  destruct z as [p q r]. unfold dot. cbn [vx vy vz]. intros H Href. cbv zeta.
  match goal with
  | |- context [argmax4 ?a ?b ?c ?d] =>
      pose proof (argmax4_spec a b c d) as Hsel;
      destruct (argmax4 a b c d) as [| [| [| [| k]]]]
  end;
    try contradiction;
    destruct Href as [-> | ->];
    unfold extract_quat, columns, cross in *;
    cbn [vx vy vz m00 m01 m02 m10 m11 m12 m20 m21 m22 qx qy qz qw] in *;
    destruct Hsel as (H1 & H2 & H3);
    apply sum_squares_pos.
  - left. nra.
  - left. nra.
  - right. left. nra.
  - right. left. nra.
  - right. right. left. nra.
  - right. right. left. nra.
  - right. right. right. nra.
  - right. right. right. nra.
Qed.

(** For every unit normal the grasp frame is a rotation whose third column,
    the approach axis, is the negated normal. *)
Lemma grasp_frame_approach_axis (normal : Vec3) :
  dot normal normal = 1 ->
  unit_rotation (grasp_frame normal) /\
  mkVec3 (m02 (as_dcm (grasp_frame normal))) (m12 (as_dcm (grasp_frame normal)))
    (m22 (as_dcm (grasp_frame normal)))
  = vneg normal.
Proof.
  intros Hn.
  assert (Hz : dot (vneg normal) (vneg normal) = 1).
  { destruct normal as [a b c]. unfold dot, vneg in *. cbn [vx vy vz] in *. lra. }
  unfold grasp_frame, grasp_frame_axes, from_dcm.
  destruct (isclose _ 1 (1 / 10000)).
  - apply normalized_third_column.
    + apply (frame_quat_nonzero (vneg normal) (mkVec3 0 1 0) Hz). right. reflexivity.
    + apply frame_quat_carries; [exact Hz | right; reflexivity].
  - apply normalized_third_column.
    + apply (frame_quat_nonzero (vneg normal) (mkVec3 1 0 0) Hz). left. reflexivity.
    + apply frame_quat_carries; [exact Hz | left; reflexivity].
Qed.

Section Sampler.

Variable rng : RandomSource.
Hypothesis rng_ok : draws_in_range rng.

Lemma sample_grasp_point_spec (cloud : PointCloud) (finger_depth : R)
    (g : RngState rng) :
  points cloud <> [] ->
  length (normals cloud) = length (points cloud) ->
  0 <= finger_depth ->
  let idx := fst (randint rng (length (points cloud)) g) in
  let g1 := snd (randint rng (length (points cloud)) g) in
  let draw :=
    uniform rng (- (2 / 10) * finger_depth) ((1 + 2 / 10) * finger_depth) g1 in
  exists point normal : Vec3,
    nth_error (points cloud) idx = Some point /\
    nth_error (normals cloud) idx = Some normal /\
    - (2 / 10) * finger_depth <= fst draw <= (1 + 2 / 10) * finger_depth /\
    sample_grasp_point rng cloud finger_depth g
    = Some ((vadd point (vscale normal (finger_depth - fst draw)), normal),
            snd draw).
Proof.
  intros Hne Hlen Hfd idx g1 draw. destruct rng_ok as [Hint Huni].
  assert (Hidx : (idx < length (points cloud))%nat).
  { apply Hint. destruct (points cloud); [congruence | cbn; lia]. }
  destruct (nth_error (points cloud) idx) as [point |] eqn:Ep;
    [| apply nth_error_None in Ep; lia].
  destruct (nth_error (normals cloud) idx) as [normal |] eqn:En;
    [| apply nth_error_None in En; lia].
  exists point, normal. split; [reflexivity |]. split; [reflexivity |].
  split; [apply Huni; lra |].
  unfold sample_grasp_point. subst idx g1 draw.
  destruct (points cloud) as [| p0 ps] eqn:Epts; [congruence |].
  destruct (randint rng (length (p0 :: ps)) g) as [i g'] eqn:Er.
  cbn [fst snd] in *. rewrite Ep, En.
  destruct (uniform rng (- (2 / 10) * finger_depth)
              ((1 + 2 / 10) * finger_depth) g') as [u g''].
  reflexivity.
Qed.

End Sampler.

Lemma lowest_draws_in_range : draws_in_range Examples.lowest_draws.
Proof.
  split.
  - intros n g Hn. exact Hn.
  - intros low high g H. cbn. lra.
Qed.

End FrameFacts.

(** ** The candidate loop *)

Module LoopFacts.

Import Geometry Grasping EvaluateFacts FrameFacts.
Local Open Scope nat_scope.

Section Loop.

Variable SUCCESS : Z.
Variable sim : Simulation.
Variable rng : RandomSource.
Variable n : nat.

Lemma count_negatives_snoc (ls : list Z) (l : Z) :
  count_negatives SUCCESS (ls ++ [l])
  = count_negatives SUCCESS ls + (if is_positive SUCCESS l then 0 else 1).
Proof.
  unfold count_negatives. rewrite filter_app, length_app. cbn [filter].
  destruct (is_positive SUCCESS l); reflexivity.
Qed.

Lemma count_positives (ls : list Z) :
  length (filter (is_positive SUCCESS) ls) + count_negatives SUCCESS ls
  = length ls.
Proof.
  unfold count_negatives. induction ls as [| l ls IH]; [reflexivity |].
  cbn [filter]. destruct (is_positive SUCCESS l); cbn [negb length]; lia.
Qed.

Lemma offer_success (pool : Pool) (grasp : Grasp) :
  offer SUCCESS n pool grasp SUCCESS
  = mkPool (grasps pool ++ [grasp]) (labels pool ++ [SUCCESS])
      (num_negatives pool + 0).
Proof.
  unfold offer, accepts, is_positive. rewrite Z.eqb_refl. reflexivity.
Qed.

Lemma offer_failure (pool : Pool) (grasp : Grasp) (label : Z) :
  label <> SUCCESS ->
  offer SUCCESS n pool grasp label
  = if num_negatives pool <? n / 2
    then mkPool (grasps pool ++ [grasp]) (labels pool ++ [label])
           (num_negatives pool + 1)
    else pool.
Proof.
  intros H. unfold offer, accepts, is_positive.
  apply Z.eqb_neq in H. rewrite H. reflexivity.
Qed.

Lemma empty_pool_inv : pool_inv SUCCESS n empty_pool.
Proof. unfold pool_inv. cbn. repeat split; lia. Qed.

Lemma offer_inv (pool : Pool) (grasp : Grasp) (label : Z) :
  pool_inv SUCCESS n pool ->
  length (grasps pool) < n ->
  pool_inv SUCCESS n (offer SUCCESS n pool grasp label).
Proof.
  intros (Hlen & Hneg & Hq & Hb) Hlt. unfold offer, accepts.
  destruct (is_positive SUCCESS label) eqn:Ep; cbn [orb].
  - unfold pool_inv. cbn [grasps labels num_negatives].
    rewrite !length_app, count_negatives_snoc, Ep. cbn [length].
    repeat split; lia.
  - destruct (Nat.ltb_spec (num_negatives pool) (n / 2)) as [Hlow | Hfull].
    + unfold pool_inv. cbn [grasps labels num_negatives].
      rewrite !length_app, count_negatives_snoc, Ep. cbn [length].
      repeat split; lia.
    + repeat split; assumption.
Qed.

(** When the loop returns, the pool holds exactly the quota, of which at
    most half are negatives. *)
Lemma collect_inv (cloud : PointCloud) (finger_depth : R) :
  forall (fuel : nat) (pool : Pool) (w : World sim rng)
         (pool' : Pool) (w' : World sim rng),
    pool_inv SUCCESS n pool ->
    collect SUCCESS sim rng fuel cloud finger_depth n pool w
    = Returned (pool', w') ->
    pool_inv SUCCESS n pool' /\ length (grasps pool') = n.
Proof.
  induction fuel as [| fuel IH]; intros pool w pool' w' Hinv Hrun;
    cbn [collect] in Hrun;
    destruct (Nat.ltb_spec (length (grasps pool)) n) as [Hlt | Hge].
  - discriminate.
  - inversion Hrun; subst. split; [exact Hinv |].
    destruct Hinv as (_ & _ & Hq & _). lia.
  - destruct (sample_grasp_point rng cloud finger_depth (fst w))
      as [[[point normal] g] |]; [| discriminate].
    destruct (evaluate_grasp_point SUCCESS sim point normal 12 (snd w))
      as [[[grasp label] s] |]; [| discriminate].
    apply (IH _ _ _ _ (offer_inv pool grasp label Hinv Hlt) Hrun).
  - inversion Hrun; subst. split; [exact Hinv |].
    destruct Hinv as (_ & _ & Hq & _). lia.
Qed.

Hypothesis rng_ok : draws_in_range rng.
Hypothesis always :
  forall T s, fst (fst (test_grasp sim T s)) = SUCCESS.

Lemma sweep_all_success (R0 : Rotation) (pos : Vec3) :
  forall (yaws : list R) (s : SimState sim) (o : Z),
    In o (map fst (fst (sweep sim R0 pos yaws s))) -> o = SUCCESS.
Proof.
  induction yaws as [| yaw yaws IH]; intros s o Hin; [contradiction |].
  cbn [sweep] in Hin.
  pose proof (always (mkTransform (rot_mul R0 (from_euler_z yaw)) pos)
                (restore_state sim s)) as Ha.
  destruct (test_grasp sim _ (restore_state sim s)) as [attempt s1].
  specialize (IH s1 o). destruct (sweep sim R0 pos yaws s1) as [attempts s2].
  cbn [fst map] in *. destruct Hin as [<- | Hin]; [exact Ha | apply IH, Hin].
Qed.

(** With a simulation in which every grasp holds, the loop fills the quota
    in as many draws. *)
Lemma collect_returns (cloud : PointCloud) (finger_depth : R) :
  points cloud <> [] ->
  length (normals cloud) = length (points cloud) ->
  (0 <= finger_depth)%R ->
  forall (fuel : nat) (pool : Pool) (w : World sim rng),
    n <= length (grasps pool) + fuel ->
    exists pool' w',
      collect SUCCESS sim rng fuel cloud finger_depth n pool w
      = Returned (pool', w').
Proof.
  intros Hne Hlen Hfd.
  induction fuel as [| fuel IH]; intros pool w Hfuel; cbn [collect];
    destruct (Nat.ltb_spec (length (grasps pool)) n) as [Hlt | Hge];
    try lia; try (eexists _, _; reflexivity).
  destruct (sample_grasp_point_spec rng rng_ok cloud finger_depth (fst w)
              Hne Hlen Hfd) as (point & normal & _ & _ & _ & ->).
  destruct (evaluate_returns SUCCESS sim
              (vadd point
                 (vscale normal
                    (finger_depth
                     - fst (uniform rng (- (2 / 10) * finger_depth)
                              ((1 + 2 / 10) * finger_depth)
                              (snd (randint rng (length (points cloud))
                                      (fst w)))))))
              normal 12 (snd w) ltac:(lia))
    as (grasp & label & s' & -> & Hmax).
  apply np_max_spec in Hmax. destruct Hmax as [Hin _].
  apply sweep_all_success in Hin. subst label.
  apply IH. rewrite offer_success. cbn [grasps].
  rewrite length_app. cbn [length]. lia.
Qed.

End Loop.

End LoopFacts.

(** ** A sweep without a success, evaluated *)

Module SweepExample.

Import Geometry Grasping GeometryFacts FrameFacts EvaluateFacts Examples.
Local Open Scope R_scope.

Lemma sqrt_16 : sqrt 16 = 4.
Proof. replace 16 with (4 * 4) by lra. apply sqrt_square. lra. Qed.

(** On a horizontal surface the frame is the half turn about x. *)
Lemma grasp_frame_up : grasp_frame up_normal = mkRotation (mkQuat 1 0 0 0).
Proof.
  unfold grasp_frame, grasp_frame_axes, up_normal.
  rewrite isclose_far.
  2:{ unfold dot, vneg. cbn [vx vy vz].
      match goal with
      | |- Rabs ?e < _ => replace e with 0 by lra
      end.
      rewrite Rabs_R0. lra. }
  unfold from_dcm, columns, cross, vneg. cbn [vx vy vz].
  cbn [m00 m01 m02 m10 m11 m12 m20 m21 m22].
  unfold argmax4.
  repeat match goal with
         | |- context [Rlt_dec ?a ?b] =>
             destruct (Rlt_dec a b); [exfalso; lra |]
         end.
  unfold extract_quat. cbn [m00 m01 m02 m10 m11 m12 m20 m21 m22].
  unfold quat_normalize, quat_norm. cbn [qx qy qz qw].
  match goal with
  | |- context [sqrt ?e] => replace e with 16 by lra
  end.
  rewrite sqrt_16. f_equal. apply quat_eq; cbn [qx qy qz qw]; lra.
Qed.

Lemma qx_half_turn_yaw (yaw : R) :
  qx (as_quat (rot_mul (mkRotation (mkQuat 1 0 0 0)) (from_euler_z yaw)))
  = cos (yaw / 2).
Proof.
  destruct (rot_mul_unit (mkRotation (mkQuat 1 0 0 0)) (from_euler_z yaw))
    as [-> _].
  - unfold unit_rotation. cbn. lra.
  - apply from_euler_z_unit.
  - cbn. ring.
Qed.

Lemma never_succeeds_outcomes (pos : Vec3) :
  forall (yaws : list R) (s : unit),
    map fst (fst (sweep never_succeeds (mkRotation (mkQuat 1 0 0 0)) pos
                    yaws s))
    = map outcome_at yaws.
Proof.
  induction yaws as [| yaw yaws IH]; intros s; [reflexivity |].
  cbn [sweep never_succeeds test_grasp restore_state].
  specialize (IH s).
  destruct (sweep never_succeeds (mkRotation (mkQuat 1 0 0 0)) pos yaws s)
    as [attempts s'].
  cbn [fst map rotation] in *. rewrite IH, qx_half_turn_yaw. reflexivity.
Qed.

Lemma sweep_outcomes_never_succeeds (n : nat) :
  sweep_outcomes never_succeeds origin up_normal n tt
  = map outcome_at (linspace 0 PI n).
Proof.
  unfold sweep_outcomes, sweep_attempts. rewrite grasp_frame_up.
  apply never_succeeds_outcomes.
Qed.

Lemma outcome_at_first : outcome_at (0 + INR 0 * ((PI - 0) / INR (12 - 1))) = 0%Z.
Proof.
  unfold outcome_at.
  replace ((0 + INR 0 * ((PI - 0) / INR (12 - 1))) / 2) with 0
    by (cbn [INR]; lra).
  rewrite cos_0. destruct (Rlt_dec 1 (1 / 2)); [lra | reflexivity].
Qed.

Lemma outcome_at_last : outcome_at (0 + INR 11 * ((PI - 0) / INR (12 - 1))) = 1%Z.
Proof.
  unfold outcome_at.
  replace ((0 + INR 11 * ((PI - 0) / INR (12 - 1))) / 2) with (PI / 2)
    by (cbn [INR Nat.sub]; field).
  rewrite cos_PI2. destruct (Rlt_dec 0 (1 / 2)); [reflexivity | lra].
Qed.

Lemma outcome_at_codes (yaw : R) : outcome_at yaw = 0%Z \/ outcome_at yaw = 1%Z.
Proof. unfold outcome_at. destruct (Rlt_dec _ _); [right | left]; reflexivity. Qed.

(** The twelve outcomes: the first is 0, the last is 1, none is above 1. *)
Lemma twelve_outcomes :
  let outcomes := sweep_outcomes never_succeeds origin up_normal 12 tt in
  hd_error outcomes = Some 0%Z /\ In 1%Z outcomes /\
  (forall o, In o outcomes -> (o <= 1)%Z) /\ ~ In 2%Z outcomes.
Proof.
  cbv zeta. rewrite sweep_outcomes_never_succeeds.
  assert (Hcodes : forall o, In o (map outcome_at (linspace 0 PI 12))
                             -> (o <= 1)%Z).
  { intros o Hin. apply in_map_iff in Hin. destruct Hin as (yaw & <- & _).
    destruct (outcome_at_codes yaw) as [-> | ->]; lia. }
  split; [| split; [| split; [exact Hcodes |]]].
  - unfold linspace. cbn [seq map hd_error]. rewrite outcome_at_first.
    reflexivity.
  - unfold linspace. cbn [seq map]. do 11 right. left. apply outcome_at_last.
  - intros Hin. apply Hcodes in Hin. lia.
Qed.

End SweepExample.

(** * The claims *)

Module Claims.

Import Geometry Grasping Peaks PeakSpec RunsFacts SelectionFacts EvaluateFacts.
Import GeometryFacts StoreFacts FrameFacts LoopFacts SweepExample Examples.
Local Open Scope R_scope.

(** C1. Peak selection is a function of the sweep's outcome sequence: the
    success indicator is padded with a failure at both ends, [find_peaks]
    returns one peak per maximal run of successes (of width at least 1), and
    the index [argmax] then selects is the midpoint of the widest run, the
    one starting first among the widest, of which there is only one; it is
    what the specification's own procedure computes.  For [fail, success, success, fail, success] the
    padded signal is [0,0,1,1,0,1,0] and the index selected is 1, inside
    the run of two. *)
Theorem peak_selection_widest_run_midpoint :
  forall (SUCCESS : Z) (outcomes : list Z),
    let successes := map (is_positive SUCCESS) outcomes in
    padded successes = (0 :: map b2q successes ++ [0])%Q /\
    map fst (find_peaks (padded successes) 1 1)
    = map (fun r => (Z.of_nat (run_midpoint r) + 1)%Z)
        (success_runs successes) /\
    (forall st n : nat,
        In (st, n) (success_runs successes) <-> maximal_run successes st n) /\
    idx_of_widest_peak successes
    = option_map Z.of_nat (widest_run_midpoint successes) /\
    (In SUCCESS outcomes ->
     exists st n : nat,
       widest_run successes st n /\
       idx_of_widest_peak successes = Some (Z.of_nat (st + (n - 1) / 2))) /\
    (forall st n st' n' : nat,
        widest_run successes st n -> widest_run successes st' n' ->
        st = st' /\ n = n') /\
    (forall fail : Z,
        fail <> SUCCESS ->
        outcomes = [fail; SUCCESS; SUCCESS; fail; SUCCESS] ->
        padded successes = [0; 0; 1; 1; 0; 1; 0]%Q /\
        widest_run successes 1 2 /\
        idx_of_widest_peak successes = Some 1%Z).
Proof.
  intros SUCCESS outcomes successes. subst successes.
  split; [reflexivity |]. split.
  { rewrite find_peaks_padded, map_map. cbn [fst].
    apply map_ext_in. intros [st n] Hin.
    apply success_runs_maximal in Hin. destruct Hin as (Hn & _).
    pose proof (midpoint_unpadded st n Hn). lia. }
  split; [intros st n; apply success_runs_maximal |].
  split; [apply idx_of_widest_peak_refines |]. split.
  - intros Hin. apply (successes_in SUCCESS) in Hin.
    destruct (selected_index _ Hin) as (m & st & n & Hidx & Hw & Hm & _).
    exists st, n. split; [exact Hw |]. rewrite Hidx, Hm. reflexivity.
  - split; [apply widest_run_unique |].
    intros fail Hfail ->. cbn [map]. unfold is_positive.
    rewrite Z.eqb_refl. apply Z.eqb_neq in Hfail. rewrite Hfail.
    split; [reflexivity |]. split; [| reflexivity].
    apply widest_first_widest. reflexivity.
Qed.

Lemma peak_selection_widest_run_midpoint_witness :
  exists st n : nat,
    widest_run (map (is_positive 1) [0; 1; 1; 0; 1]%Z) st n /\
    idx_of_widest_peak (map (is_positive 1) [0; 1; 1; 0; 1]%Z)
    = Some (Z.of_nat (st + (n - 1) / 2)).
Proof.
  apply (peak_selection_widest_run_midpoint 1 [0; 1; 1; 0; 1]%Z).
  right. left. reflexivity.
Defined.

(** C3. The label returned by [evaluate_grasp_point] is the greatest outcome
    of the sweep; when no outcome is coded above success, the label is
    success exactly when some yaw succeeded. *)
Theorem evaluation_label_is_max_outcome :
  forall (SUCCESS : Z) (sim : Simulation) (pos normal : Vec3)
         (num_rotations : nat) (s : SimState sim),
    (1 <= num_rotations)%nat ->
    let outcomes := sweep_outcomes sim pos normal num_rotations s in
    exists (grasp : Grasp) (label : Z) (s' : SimState sim),
      evaluate_grasp_point SUCCESS sim pos normal num_rotations s
      = Some ((grasp, label), s') /\
      In label outcomes /\
      (forall o, In o outcomes -> (o <= label)%Z) /\
      ((forall o, In o outcomes -> (o <= SUCCESS)%Z) ->
       (label = SUCCESS <-> In SUCCESS outcomes)).
Proof.
  intros SUCCESS sim pos normal num_rotations s Hn outcomes.
  destruct (evaluate_returns SUCCESS sim pos normal num_rotations s Hn)
    as (grasp & label & s' & Heval & Hmax).
  exists grasp, label, s'. apply np_max_spec in Hmax.
  destruct Hmax as [Hin Hle].
  split; [exact Heval |]. split; [exact Hin |]. split; [exact Hle |].
  intros Hcode. split.
  - intros <-. exact Hin.
  - intros Hs. specialize (Hle _ Hs). specialize (Hcode _ Hin). lia.
Qed.

Lemma evaluation_label_is_max_outcome_witness :
  exists (grasp : Grasp) (s' : unit),
    evaluate_grasp_point 1 always_succeeds origin up_normal 12 tt
    = Some ((grasp, 1%Z), s').
Proof.
  destruct (evaluation_label_is_max_outcome 1 always_succeeds origin
              up_normal 12 tt ltac:(lia))
    as (grasp & label & s' & Heval & _ & _ & Hiff).
  assert (Hlabel : label = 1%Z).
  { apply Hiff.
    - intros o Ho.
      rewrite (sweep_all_success 1 always_succeeds (fun _ _ => eq_refl)
                 _ _ _ _ _ Ho).
      lia.
    - left. reflexivity. }
  exists grasp, s'. rewrite Hlabel in Heval. exact Heval.
Defined.

(** C10. When some yaw succeeded, the yaw index selected by peak detection
    holds a success: the returned pose uses that yaw, the returned width is
    the one recorded there, and, when no outcome is coded above success, the
    returned label is that yaw's own outcome. *)
Theorem selected_yaw_succeeded :
  forall (SUCCESS : Z) (sim : Simulation) (pos normal : Vec3)
         (num_rotations : nat) (s : SimState sim),
    let outcomes := sweep_outcomes sim pos normal num_rotations s in
    let widths := sweep_widths sim pos normal num_rotations s in
    In SUCCESS outcomes ->
    exists (m : nat) (yaw : R) (grasp : Grasp) (label : Z) (s' : SimState sim),
      evaluate_grasp_point SUCCESS sim pos normal num_rotations s
      = Some ((grasp, label), s') /\
      idx_of_widest_peak (map (is_positive SUCCESS) outcomes)
      = Some (Z.of_nat m) /\
      nth_error outcomes m = Some SUCCESS /\
      nth_error widths m = Some (width grasp) /\
      nth_error (linspace 0 PI num_rotations) m = Some yaw /\
      pose grasp
      = mkTransform (rot_mul (grasp_frame normal) (from_euler_z yaw)) pos /\
      ((forall o, In o outcomes -> (o <= SUCCESS)%Z) ->
       nth_error outcomes m = Some label).
Proof.
  intros SUCCESS sim pos normal num_rotations s outcomes widths Hin.
  subst outcomes widths. unfold sweep_outcomes, sweep_widths in *.
  rewrite evaluate_unfold.
  pose proof (length_sweep_attempts sim pos normal num_rotations s) as Hlen.
  set (attempts := sweep_attempts sim pos normal num_rotations s) in *.
  destruct (select_grasp_success SUCCESS (grasp_frame normal) pos
              (linspace 0 PI num_rotations) attempts)
    as (m & st & n & yaw & w & label & -> & Hidx & _ & _ & Hy & Ha & Hmax).
  { rewrite length_linspace. symmetry. exact Hlen. }
  { exact Hin. }
  exists m, yaw. eexists _, label, _.
  split; [reflexivity |]. split; [exact Hidx |].
  assert (Hom : nth_error (map fst attempts) m = Some SUCCESS)
    by (rewrite nth_error_map, Ha; reflexivity).
  split; [exact Hom |]. split; [rewrite nth_error_map, Ha; reflexivity |].
  split; [exact Hy |]. split; [reflexivity |].
  intros Hcode. rewrite Hom. f_equal. symmetry.
  apply (np_max_unique _ _ _ Hmax Hin Hcode).
Qed.

Lemma selected_yaw_succeeded_witness :
  exists (m : nat) (grasp : Grasp) (label : Z) (s' : unit),
    evaluate_grasp_point 1 always_succeeds origin up_normal 12 tt
    = Some ((grasp, label), s') /\
    nth_error (sweep_outcomes always_succeeds origin up_normal 12 tt) m
    = Some 1%Z /\
    nth_error (sweep_widths always_succeeds origin up_normal 12 tt) m
    = Some (width grasp) /\
    nth_error (sweep_outcomes always_succeeds origin up_normal 12 tt) m
    = Some label.
Proof.
  destruct (selected_yaw_succeeded 1 always_succeeds origin up_normal 12 tt)
    as (m & yaw & grasp & label & s' & Heval & _ & Ho & Hw & _ & _ & Hl).
  - left. reflexivity.
  - exists m, grasp, label, s'.
    split; [exact Heval |]. split; [exact Ho |]. split; [exact Hw |].
    apply Hl. intros o Hin.
    rewrite (sweep_all_success 1 always_succeeds (fun _ _ => eq_refl)
               _ _ _ _ _ Hin).
    lia.
Defined.

(** C5. At the voxel of a stored grasp the symmetric rotation channel holds
    the quaternion of the grasp orientation composed with the half turn about
    z, the unit quaternion (0, 0, 1, 0); composing the rotation of that
    channel with the half turn once more gives the orientation back with the
    sign of its quaternion flipped.  Floats are read as real numbers. *)
Theorem symmetric_channel_is_half_turn_involution :
  forall (SUCCESS : Z) (tsdf : TSDFVolume) (vols : Volumes) (grasp : Grasp)
         (label : Z),
    unit_rotation (rotation (pose grasp)) ->
    out_of_range tsdf (voxel_index tsdf grasp) = false ->
    let q := as_quat (rotation (pose grasp)) in
    let v := store_one SUCCESS tsdf vols (grasp, label) in
    let i := voxel_index tsdf grasp in
    as_quat (R_z180) = mkQuat 0 0 1 0 /\
    rot_vol0 v i = q /\
    rot_vol1 v i = compose_quat q (mkQuat 0 0 1 0) /\
    unit_rotation (mkRotation (rot_vol1 v i)) /\
    as_quat (rot_mul (mkRotation (rot_vol1 v i)) R_z180) = quat_neg q.
Proof.
  intros SUCCESS tsdf vols grasp label Hunit Hin q v i. subst q v i.
  rewrite store_one_unfold, Hin. cbn [rot_vol0 rot_vol1].
  rewrite !assign_same.
  destruct (rot_mul_unit (rotation (pose grasp)) R_z180 Hunit half_turn_unit)
    as [Hq Hu].
  unfold R_z180 in *. rewrite half_turn_about_z in Hq.
  assert (Hp : unit_rotation
                 (mkRotation
                    (compose_quat (as_quat (rotation (pose grasp)))
                       (mkQuat 0 0 1 0)))).
  { unfold unit_rotation in Hu |- *. rewrite Hq in Hu. exact Hu. }
  rewrite Hq.
  split; [apply half_turn_about_z |]. split; [reflexivity |].
  split; [reflexivity |]. split; [exact Hp |].
  destruct (rot_mul_unit _ _ Hp half_turn_unit) as [Hq2 _].
  rewrite Hq2, half_turn_about_z. cbn [as_quat].
  apply compose_half_turn_twice.
Qed.

Lemma symmetric_channel_is_half_turn_involution_witness :
  rot_vol1
    (store_one 1 unit_grid zeros (grasp_at origin (5 / 100), 1%Z))
    (voxel_index unit_grid (grasp_at origin (5 / 100)))
  = compose_quat (mkQuat 0 0 0 1) (mkQuat 0 0 1 0).
Proof.
  apply (symmetric_channel_is_half_turn_involution 1 unit_grid zeros
           (grasp_at origin (5 / 100)) 1%Z).
  - exact rot_identity_unit.
  - unfold origin. rewrite (voxel_index_unit_grid 0 0 0). reflexivity.
Defined.

(** C6. A pair whose rounded voxel index leaves [0, resolution - 1] on some
    axis writes nothing: the body of the loop returns the volumes as they
    were, the sample is the one the pool without the pair would give, and a
    pool of that pair alone leaves the mask at 0 everywhere.  The pair was
    nevertheless counted: the candidate loop appends every accepted
    candidate, whatever its position. *)
Theorem out_of_range_pair_is_dropped :
  forall (SUCCESS : Z) (tsdf : TSDFVolume) (grasp : Grasp) (label : Z),
    out_of_range tsdf (voxel_index tsdf grasp) = true ->
    (forall vols, store_one SUCCESS tsdf vols (grasp, label) = vols) /\
    (forall grasps labels pre post,
        combine grasps labels = pre ++ (grasp, label) :: post ->
        store_sample SUCCESS tsdf grasps labels
        = fold_left (store_one SUCCESS tsdf) (pre ++ post) zeros) /\
    store_sample SUCCESS tsdf [grasp] [label] = zeros /\
    (forall i, mask (store_sample SUCCESS tsdf [grasp] [label]) i = 0%R) /\
    (forall (num_grasps_per_scene : nat) (pool : Pool),
        accepts SUCCESS num_grasps_per_scene (num_negatives pool) label = true ->
        grasps (offer SUCCESS num_grasps_per_scene pool grasp label)
        = grasps pool ++ [grasp]).
Proof.
  intros SUCCESS tsdf grasp label Hout.
  assert (Hsole : store_sample SUCCESS tsdf [grasp] [label] = zeros).
  { unfold store_sample. cbn [combine fold_left].
    apply store_one_skips. exact Hout. }
  split; [intros vols; apply store_one_skips; exact Hout |].
  split.
  - intros grasps labels pre post Hpool. unfold store_sample.
    rewrite Hpool. apply store_skips_inside. exact Hout.
  - split; [exact Hsole |]. split.
    + intros i. rewrite Hsole. reflexivity.
    + intros n pool Hacc. unfold offer. rewrite Hacc. reflexivity.
Qed.

Lemma out_of_range_pair_is_dropped_witness :
  store_sample 1 unit_grid [grasp_at (mkVec3 (-1) 0 0) (5 / 100)] [1%Z]
  = zeros.
Proof.
  apply (out_of_range_pair_is_dropped 1 unit_grid
           (grasp_at (mkVec3 (-1) 0 0) (5 / 100)) 1%Z).
  rewrite (voxel_index_unit_grid (-1) 0 0). reflexivity.
Defined.

(** C7, as amended.  For a pair of the pool whose voxel index is in range,
    the mask at that index is 1.0; when no later pair of the pool rounds to
    the same index, the quality there is 1.0 for a success label and 0.0
    otherwise, the width is the grasp's opening and the primary rotation
    channel is the quaternion of the grasp's orientation.  A sole grasp out
    of range leaves the mask at 0.0 everywhere. *)
Theorem in_range_pair_is_rasterized :
  forall (SUCCESS : Z) (tsdf : TSDFVolume) (grasps : list Grasp)
         (labels : list Z) (pre post : list (Grasp * Z)) (grasp : Grasp)
         (label : Z),
    combine grasps labels = pre ++ (grasp, label) :: post ->
    out_of_range tsdf (voxel_index tsdf grasp) = false ->
    let v := store_sample SUCCESS tsdf grasps labels in
    let i := voxel_index tsdf grasp in
    mask v i = 1%R /\
    ((forall g l, In (g, l) post -> voxel_index tsdf g <> i) ->
     qual_vol v i = (if (label =? SUCCESS)%Z then 1%R else 0%R) /\
     width_vol v i = width grasp /\
     rot_vol0 v i = as_quat (rotation (pose grasp))) /\
    (forall g l,
        out_of_range tsdf (voxel_index tsdf g) = true ->
        forall j, mask (store_sample SUCCESS tsdf [g] [l]) j = 0%R).
Proof.
  intros SUCCESS tsdf grasps labels pre post grasp label Hpool Hin v i.
  destruct (store_sample_at SUCCESS tsdf grasps labels pre post grasp label
              Hpool Hin) as [Hmask Hrest].
  split; [exact Hmask |]. split.
  - intros Hlater. destruct (Hrest Hlater) as (Q & R0 & _ & W).
    split; [exact Q |]. split; [exact W | exact R0].
  - intros g l Hout j. unfold store_sample. cbn [combine fold_left].
    rewrite store_one_skips by exact Hout. reflexivity.
Qed.

Lemma in_range_pair_is_rasterized_witness :
  mask (store_sample 1 unit_grid [grasp_at origin (5 / 100)] [1%Z])
    (voxel_index unit_grid (grasp_at origin (5 / 100)))
  = 1%R.
Proof.
  apply (in_range_pair_is_rasterized 1 unit_grid [grasp_at origin (5 / 100)]
           [1%Z] [] [] (grasp_at origin (5 / 100)) 1%Z).
  - reflexivity.
  - unfold origin. rewrite (voxel_index_unit_grid 0 0 0). reflexivity.
Defined.

(** C7 as stated fails when two pairs of the pool round to the same voxel:
    the later one overwrites the earlier.  Here the first pair is a success
    in range, with opening 0.05; the pair that follows, a quarter of a voxel
    away, is a failure with opening 0.04, and the quality and the width held
    at the index of the first pair are those of the second. *)
Lemma in_range_pair_overwritten :
  let g1 := grasp_at (mkVec3 0 0 0) (5 / 100) in
  let g2 := grasp_at (mkVec3 (1 / 4) 0 0) (4 / 100) in
  let v := store_sample 1 unit_grid [g1; g2] [1%Z; 0%Z] in
  In (g1, 1%Z) (combine [g1; g2] [1%Z; 0%Z]) /\
  voxel_index unit_grid g1 = (0, 0, 0)%Z /\
  out_of_range unit_grid (voxel_index unit_grid g1) = false /\
  qual_vol v (voxel_index unit_grid g1) = 0 /\
  width_vol v (voxel_index unit_grid g1) = 4 / 100 /\
  qual_vol v (voxel_index unit_grid g1) <> label2quality 1 1 /\
  width_vol v (voxel_index unit_grid g1) <> width g1.
Proof.
  cbv zeta.
  assert (H1 : voxel_index unit_grid (grasp_at (mkVec3 0 0 0) (5 / 100))
               = (0, 0, 0)%Z)
    by apply (voxel_index_unit_grid 0 0 0).
  assert (H2 : voxel_index unit_grid (grasp_at (mkVec3 (1 / 4) 0 0) (4 / 100))
               = (0, 0, 0)%Z).
  { rewrite voxel_index_unit_grid_round.
    rewrite (np_round_below_half 0 (1 / 4)) by lra.
    rewrite (np_round_IZR 0). reflexivity. }
  assert (Hv :
    qual_vol
      (store_sample 1 unit_grid
         [grasp_at (mkVec3 0 0 0) (5 / 100);
          grasp_at (mkVec3 (1 / 4) 0 0) (4 / 100)] [1%Z; 0%Z]) (0, 0, 0)%Z
    = 0 /\
    width_vol
      (store_sample 1 unit_grid
         [grasp_at (mkVec3 0 0 0) (5 / 100);
          grasp_at (mkVec3 (1 / 4) 0 0) (4 / 100)] [1%Z; 0%Z]) (0, 0, 0)%Z
    = 4 / 100).
  { unfold store_sample. cbn [combine fold_left].
    rewrite !store_one_unfold, H1, H2.
    replace (out_of_range unit_grid (0, 0, 0)%Z) with false by reflexivity.
    cbn [qual_vol width_vol]. rewrite !assign_same. split; reflexivity. }
  destruct Hv as [Hq Hw]. rewrite H1.
  split; [left; reflexivity |]. split; [reflexivity |].
  split; [reflexivity |]. split; [exact Hq |]. split; [exact Hw |].
  rewrite Hq, Hw. unfold label2quality. cbn. split; lra.
Qed.

(** C8. With a non-empty cloud, [sample_grasp_point] reads the vertex at the
    index drawn below the number of vertices, draws the grasp depth between
    [-0.2 * finger_depth] and [1.2 * finger_depth], and returns the vertex
    moved along its normal by [finger_depth - grasp_depth], with that normal;
    the displacement lies between the same two bounds. *)
Theorem sampled_point_is_displaced_along_normal :
  forall (rng : RandomSource) (cloud : PointCloud) (finger_depth : R)
         (g : RngState rng),
    draws_in_range rng ->
    points cloud <> [] ->
    length (normals cloud) = length (points cloud) ->
    0 <= finger_depth ->
    let idx := fst (randint rng (length (points cloud)) g) in
    let g1 := snd (randint rng (length (points cloud)) g) in
    let draw :=
      uniform rng (- (2 / 10) * finger_depth) ((1 + 2 / 10) * finger_depth)
        g1 in
    let grasp_depth := fst draw in
    exists point normal : Vec3,
      (idx < length (points cloud))%nat /\
      nth_error (points cloud) idx = Some point /\
      nth_error (normals cloud) idx = Some normal /\
      - (2 / 10) * finger_depth <= grasp_depth <= (12 / 10) * finger_depth /\
      sample_grasp_point rng cloud finger_depth g
      = Some ((vadd point (vscale normal (finger_depth - grasp_depth)),
               normal), snd draw) /\
      - (2 / 10) * finger_depth <= finger_depth - grasp_depth
        <= (12 / 10) * finger_depth.
Proof.
  intros rng cloud fd g Hrng Hne Hlen Hfd idx g1 draw grasp_depth.
  destruct (sample_grasp_point_spec rng Hrng cloud fd g Hne Hlen Hfd)
    as (point & normal & Hp & Hn & Hrange & Hs).
  fold idx in Hp, Hn. fold g1 in Hrange, Hs. fold draw in Hrange, Hs.
  fold grasp_depth in Hrange, Hs.
  exists point, normal.
  split; [apply nth_error_Some; congruence |].
  split; [exact Hp |]. split; [exact Hn |].
  split; [lra |]. split; [exact Hs | lra].
Qed.

Lemma sampled_point_is_displaced_along_normal_witness :
  exists point normal : Vec3,
    sample_grasp_point lowest_draws one_point_cloud (5 / 100) tt
    = Some ((vadd point
               (vscale normal (5 / 100 - - (2 / 10) * (5 / 100))), normal),
            tt).
Proof.
  destruct (sampled_point_is_displaced_along_normal lowest_draws
              one_point_cloud (5 / 100) tt lowest_draws_in_range)
    as (point & normal & _ & _ & _ & _ & Hs & _).
  - discriminate.
  - reflexivity.
  - lra.
  - exists point, normal. exact Hs.
Defined.

(** C9, at the failing input: for the unit normal (-0.6, -0.8, 0) the
    approach axis is (0.6, 0.8, 0), canonical X is kept as the reference, and
    the two axes obtained by the cross products have squared length 0.64:
    the frame handed to [Rotation.from_dcm] is orthogonal but not
    orthonormal.  The rotation that comes out keeps the approach axis as its
    third column, but its first column leaves the plane z = 0 in which
    [x_axis] lies. *)
Theorem grasp_frame_axes_not_unit :
  let normal := mkVec3 (- (6 / 10)) (- (8 / 10)) 0 in
  dot normal normal = 1 /\
  grasp_frame_axes normal
  = (mkVec3 (64 / 100) (- (48 / 100)) 0,
     mkVec3 0 0 (- (8 / 10)),
     mkVec3 (6 / 10) (8 / 10) 0) /\
  (let '(x_axis, y_axis, z_axis) := grasp_frame_axes normal in
   dot x_axis x_axis = 64 / 100 /\ dot y_axis y_axis = 64 / 100 /\
   dot x_axis x_axis <> 1 /\ dot y_axis y_axis <> 1 /\
   vz x_axis = 0) /\
  m02 (as_dcm (grasp_frame normal)) = 6 / 10 /\
  m12 (as_dcm (grasp_frame normal)) = 8 / 10 /\
  m22 (as_dcm (grasp_frame normal)) = 0 /\
  m20 (as_dcm (grasp_frame normal)) = 27 / 365.
Proof.
  cbv zeta.
  assert (Haxes :
    grasp_frame_axes (mkVec3 (- (6 / 10)) (- (8 / 10)) 0)
    = (mkVec3 (64 / 100) (- (48 / 100)) 0,
       mkVec3 0 0 (- (8 / 10)),
       mkVec3 (6 / 10) (8 / 10) 0)).
  { unfold grasp_frame_axes. rewrite isclose_far.
    - unfold cross, vneg. cbn [vx vy vz].
      f_equal; [f_equal |]; apply vec3_eq; cbn [vx vy vz]; lra.
    - unfold dot, vneg. cbn [vx vy vz].
      match goal with
      | |- Rabs ?e < _ => replace e with (6 / 10) by lra
      end.
      rewrite Rabs_right by lra. lra. }
  assert (Hquat :
    as_quat (grasp_frame (mkVec3 (- (6 / 10)) (- (8 / 10)) 0))
    = quat_normalize
        (mkQuat (164 / 100) (- (48 / 100)) (6 / 10) (- (16 / 10)))).
  { unfold grasp_frame. rewrite Haxes.
    unfold from_dcm, columns. cbn [vx vy vz as_quat].
    cbn [m00 m01 m02 m10 m11 m12 m20 m21 m22]. unfold argmax4.
    repeat match goal with
           | |- context [Rlt_dec ?a ?b] =>
               destruct (Rlt_dec a b); [exfalso; lra |]
           end.
    unfold extract_quat. cbn [m00 m01 m02 m10 m11 m12 m20 m21 m22].
    f_equal. apply quat_eq; cbn [qx qy qz qw]; lra. }
  pose proof (sqrt_sqrt (584 / 100) ltac:(lra)) as HN.
  assert (HN0 : sqrt (584 / 100) <> 0).
  { intros E. rewrite E in HN. lra. }
  split; [unfold dot; cbn; lra |]. split; [exact Haxes |].
  split.
  { rewrite Haxes. unfold dot. cbn [vx vy vz]. repeat split; lra. }
  unfold as_dcm. rewrite Hquat. unfold quat_normalize, quat_norm.
  cbn [qx qy qz qw m02 m12 m22 m20].
  match goal with
  | |- context [sqrt ?e] => replace e with (584 / 100) by lra
  end.
  set (N := sqrt (584 / 100)) in *.
  repeat split.
  - replace (2 * (164 / 100 / N * (6 / 10 / N)
                  + - (48 / 100) / N * (- (16 / 10) / N)))
      with (3504 / 1000 / (N * N)) by (field; exact HN0).
    rewrite HN. lra.
  - replace (2 * (- (48 / 100) / N * (6 / 10 / N)
                  - 164 / 100 / N * (- (16 / 10) / N)))
      with (4672 / 1000 / (N * N)) by (field; exact HN0).
    rewrite HN. lra.
  - replace (- (164 / 100 / N * (164 / 100 / N))
             - - (48 / 100) / N * (- (48 / 100) / N)
             + 6 / 10 / N * (6 / 10 / N)
             + - (16 / 10) / N * (- (16 / 10) / N))
      with (0 / (N * N)) by (field; exact HN0).
    rewrite HN. lra.
  - replace (2 * (164 / 100 / N * (6 / 10 / N)
                  - - (48 / 100) / N * (- (16 / 10) / N)))
      with (432 / 1000 / (N * N)) by (field; exact HN0).
    rewrite HN. lra.
Qed.

(** C4, as amended.  If no yaw of the sweep succeeds, the grasp returned has
    the identity rotation, the raw position as translation and width 0.0,
    and the label returned is the greatest outcome of the sweep, a failure;
    it is the outcome of the first yaw when no other yaw has a greater
    one. *)
Theorem no_success_gives_identity_grasp :
  forall (SUCCESS : Z) (sim : Simulation) (pos normal : Vec3)
         (num_rotations : nat) (s : SimState sim),
    let outcomes := sweep_outcomes sim pos normal num_rotations s in
    (1 <= num_rotations)%nat ->
    ~ In SUCCESS outcomes ->
    exists (label : Z) (s' : SimState sim),
      evaluate_grasp_point SUCCESS sim pos normal num_rotations s
      = Some ((mkGrasp (mkTransform (mkRotation (mkQuat 0 0 0 1)) pos) 0,
               label), s') /\
      In label outcomes /\
      (forall o, In o outcomes -> (o <= label)%Z) /\
      label <> SUCCESS /\
      (forall first,
          hd_error outcomes = Some first ->
          (forall o, In o outcomes -> (o <= first)%Z) ->
          label = first).
Proof.
  intros SUCCESS sim pos normal num_rotations s outcomes Hn Hnot.
  subst outcomes. unfold sweep_outcomes in *. rewrite evaluate_unfold.
  pose proof (length_sweep_attempts sim pos normal num_rotations s) as Hlen.
  set (attempts := sweep_attempts sim pos normal num_rotations s) in *.
  destruct (select_grasp_failure SUCCESS (grasp_frame normal) pos
              (linspace 0 PI num_rotations) attempts)
    as (label & -> & Hmax).
  { intros E. rewrite E in Hlen. cbn in Hlen. lia. }
  { exact Hnot. }
  exists label. eexists. split; [reflexivity |].
  pose proof (np_max_spec _ _ Hmax) as [Hin Hle].
  split; [exact Hin |]. split; [exact Hle |].
  split; [intros ->; contradiction |].
  intros first Hfirst Hbound.
  apply (np_max_unique _ _ _ Hmax); [| exact Hbound].
  destruct (map fst attempts) as [| o t]; [discriminate |].
  cbn in Hfirst. inversion Hfirst. left. reflexivity.
Qed.

Lemma no_success_gives_identity_grasp_witness :
  exists (label : Z) (s' : unit),
    evaluate_grasp_point 2 never_succeeds origin up_normal 12 tt
    = Some ((mkGrasp (mkTransform (mkRotation (mkQuat 0 0 0 1)) origin) 0,
             label), s') /\
    In label (sweep_outcomes never_succeeds origin up_normal 12 tt).
Proof.
  destruct (no_success_gives_identity_grasp 2 never_succeeds origin up_normal
              12 tt ltac:(lia) (proj2 (proj2 (proj2 twelve_outcomes))))
    as (label & s' & Heval & Hin & _).
  exists label, s'. split; [exact Heval | exact Hin].
Defined.

(** C4 as stated fails when the sweep meets two failure modes: with
    failures coded 0 and 1 and success coded 2, the default sweep of twelve
    yaws on a horizontal surface records outcome 0 at the first yaw and
    outcome 1 at the last, none succeeds, and the label returned is 1, not
    the outcome of the first yaw. *)
Lemma no_success_label_is_not_first_outcome :
  let outcomes := sweep_outcomes never_succeeds origin up_normal 12 tt in
  ~ In 2%Z outcomes /\
  hd_error outcomes = Some 0%Z /\
  evaluate_grasp_point 2 never_succeeds origin up_normal 12 tt
  = Some ((mkGrasp (mkTransform rot_identity origin) 0, 1%Z), tt) /\
  Some 1%Z <> hd_error outcomes.
Proof.
  cbv zeta. destruct twelve_outcomes as (Hfirst & Hone & Hle & Hnot).
  split; [exact Hnot |]. split; [exact Hfirst |]. split.
  - rewrite evaluate_unfold.
    destruct (select_grasp_failure 2 (grasp_frame up_normal) origin
                (linspace 0 PI 12)
                (sweep_attempts never_succeeds origin up_normal 12 tt))
      as (label & -> & Hmax).
    + intros E.
      pose proof (length_sweep_attempts never_succeeds origin up_normal 12 tt)
        as Hlen.
      rewrite E in Hlen. discriminate.
    + exact Hnot.
    + rewrite (np_max_unique _ _ _ Hmax Hone Hle).
      destruct (snd (sweep never_succeeds (grasp_frame up_normal) origin
                       (linspace 0 PI 12) tt)).
      reflexivity.
  - rewrite Hfirst. discriminate.
Qed.

(** C2. When the candidate loop hands the pool over, the pool holds exactly
    [num_grasps_per_scene] grasps and as many labels, of which at most
    [num_grasps_per_scene // 2] are negative and the others successes: a
    success is always appended, any other candidate only while the count of
    negatives is below [num_grasps_per_scene // 2].  With a simulation in
    which every grasp holds the loop does hand the pool over, after that
    many draws. *)
Theorem candidate_pool_meets_quota :
  forall (SUCCESS : Z) (sim : Simulation) (rng : RandomSource)
         (cloud : PointCloud) (finger_depth : R)
         (num_grasps_per_scene : nat),
    (forall (fuel : nat) (w w' : World sim rng) (pool : Pool),
        collect SUCCESS sim rng fuel cloud finger_depth num_grasps_per_scene
          empty_pool w = Returned (pool, w') ->
        length (grasps pool) = num_grasps_per_scene /\
        length (labels pool) = num_grasps_per_scene /\
        (count_negatives SUCCESS (labels pool)
         <= num_grasps_per_scene / 2)%nat /\
        (num_grasps_per_scene - num_grasps_per_scene / 2
         <= length (filter (is_positive SUCCESS) (labels pool)))%nat) /\
    (forall (pool : Pool) (grasp : Grasp),
        offer SUCCESS num_grasps_per_scene pool grasp SUCCESS
        = mkPool (grasps pool ++ [grasp]) (labels pool ++ [SUCCESS])
            (num_negatives pool + 0)) /\
    (forall (pool : Pool) (grasp : Grasp) (label : Z),
        label <> SUCCESS ->
        offer SUCCESS num_grasps_per_scene pool grasp label
        = if (num_negatives pool <? num_grasps_per_scene / 2)%nat
          then mkPool (grasps pool ++ [grasp]) (labels pool ++ [label])
                 (num_negatives pool + 1)
          else pool) /\
    (draws_in_range rng ->
     (forall T s, fst (fst (test_grasp sim T s)) = SUCCESS) ->
     points cloud <> [] ->
     length (normals cloud) = length (points cloud) ->
     0 <= finger_depth ->
     forall w : World sim rng,
     exists pool w',
       collect SUCCESS sim rng num_grasps_per_scene cloud finger_depth
         num_grasps_per_scene empty_pool w = Returned (pool, w')).
Proof.
  intros SUCCESS sim rng cloud fd n.
  split; [| split; [apply offer_success |
                    split; [apply offer_failure |]]].
  - intros fuel w w' pool Hrun.
    destruct (collect_inv SUCCESS sim rng n cloud fd fuel empty_pool w pool w'
                (empty_pool_inv SUCCESS n) Hrun)
      as [(Hlen & Hneg & _ & Hb) Hq].
    pose proof (count_positives SUCCESS (labels pool)) as Hpos.
    rewrite <- Hneg in *.
    split; [exact Hq |]. split; [lia |]. split; [exact Hb | lia].
  - intros Hrng Halways Hne Hlen Hfd w.
    apply (collect_returns SUCCESS sim rng n Hrng Halways cloud fd Hne Hlen
             Hfd).
    cbn. lia.
Qed.

Lemma candidate_pool_meets_quota_witness :
  exists (pool : Pool) (w' : World always_succeeds lowest_draws),
    collect 1 always_succeeds lowest_draws 4 one_point_cloud (5 / 100) 4
      empty_pool (tt, tt) = Returned (pool, w') /\
    length (grasps pool) = 4%nat /\
    (count_negatives 1 (labels pool) <= 4 / 2)%nat.
Proof.
  destruct (candidate_pool_meets_quota 1 always_succeeds lowest_draws
              one_point_cloud (5 / 100) 4)
    as (Hsafe & _ & _ & Hlive).
  destruct (Hlive lowest_draws_in_range) with (w := (tt, tt))
    as (pool & w' & Hrun).
  - intros T s. reflexivity.
  - discriminate.
  - reflexivity.
  - lra.
  - exists pool, w'. split; [exact Hrun |].
    destruct (Hsafe 4%nat (tt, tt) w' pool Hrun) as (Hq & _ & Hneg & _).
    split; [exact Hq | exact Hneg].
Defined.

End Claims.

(** * Further properties of the pipeline *)

(** ** [store_sample], voxel by voxel *)

Module VoxelFacts.

Import Geometry Grasping GeometryFacts StoreFacts.
Local Open Scope R_scope.

Section Voxels.

Variable SUCCESS : Z.
Variable tsdf : TSDFVolume.

Lemma writes_at_true (i : Index) (g : Grasp) (l : Z) :
  writes_at tsdf i (g, l) = true
  <-> out_of_range tsdf (voxel_index tsdf g) = false /\ voxel_index tsdf g = i.
Proof.
  unfold writes_at. cbn [fst].
  rewrite andb_true_iff, negb_true_iff, index_eqb_eq. reflexivity.
Qed.

(** A pair that does not write at [i] leaves the voxel as it was. *)
Lemma store_one_passes (vols : Volumes) (g : Grasp) (l : Z) (i : Index) :
  writes_at tsdf i (g, l) = false ->
  let v := store_one SUCCESS tsdf vols (g, l) in
  qual_vol v i = qual_vol vols i /\ rot_vol0 v i = rot_vol0 vols i /\
  rot_vol1 v i = rot_vol1 vols i /\ width_vol v i = width_vol vols i /\
  mask v i = mask vols i.
Proof.
  intros H. cbv zeta. unfold writes_at in H. cbn [fst] in H.
  destruct (out_of_range tsdf (voxel_index tsdf g)) eqn:Eo.
  - rewrite store_one_skips by exact Eo. repeat split.
  - cbn [negb andb] in H. apply store_one_elsewhere.
    intros E. rewrite E, index_eqb_refl in H. discriminate.
Qed.

(** A pair that writes at [i] sets the five values there. *)
Lemma store_one_writes (vols : Volumes) (g : Grasp) (l : Z) (i : Index) :
  writes_at tsdf i (g, l) = true ->
  holds SUCCESS (store_one SUCCESS tsdf vols (g, l)) i g l.
Proof.
  intros H. apply writes_at_true in H. destruct H as [Ho <-].
  rewrite store_one_unfold, Ho. unfold holds.
  cbn [qual_vol rot_vol0 rot_vol1 width_vol mask].
  rewrite !assign_same. repeat split.
Qed.

(** The loop of lines 157-169 read at one voxel: the last pair of the pool
    written there decides, and with none the voxel is as before. *)
Lemma fold_store_at (i : Index) :
  forall (pool : list (Grasp * Z)) (vols : Volumes),
    let v := fold_left (store_one SUCCESS tsdf) pool vols in
    (written_at tsdf i pool = [] /\
     qual_vol v i = qual_vol vols i /\ rot_vol0 v i = rot_vol0 vols i /\
     rot_vol1 v i = rot_vol1 vols i /\ width_vol v i = width_vol vols i /\
     mask v i = mask vols i)
    \/
    (exists pre g l post,
        pool = pre ++ (g, l) :: post /\
        writes_at tsdf i (g, l) = true /\
        written_at tsdf i post = [] /\
        holds SUCCESS v i g l).
Proof.
  induction pool as [| [g l] pool IH] using rev_ind; intros vols; cbv zeta.
  - left. repeat split.
  - rewrite fold_left_app. cbn [fold_left].
    unfold written_at. rewrite filter_app. cbn [filter].
    destruct (writes_at tsdf i (g, l)) eqn:Ew.
    + right. exists pool, g, l, []. split; [reflexivity |].
      split; [exact Ew |]. split; [reflexivity |].
      apply store_one_writes, Ew.
    + destruct (store_one_passes (fold_left (store_one SUCCESS tsdf) pool vols)
                  g l i Ew) as (Q & R0 & R1 & W & M).
      cbv zeta in *.
      destruct (IH vols) as [(Hnone & Q' & R0' & R1' & W' & M')
                            | (pre & g' & l' & post & -> & Hw & Hpost & Hh)];
        cbv zeta in *.
      * left. unfold written_at in Hnone. rewrite Hnone.
        split; [reflexivity |]. rewrite Q, R0, R1, W, M.
        repeat split; assumption.
      * right. exists pre, g', l', (post ++ [(g, l)]).
        split; [rewrite <- app_assoc; reflexivity |].
        split; [exact Hw |].
        split.
        { unfold written_at in *. rewrite filter_app, Hpost. cbn [filter].
          rewrite Ew. reflexivity. }
        unfold holds in *. rewrite Q, R0, R1, W, M. exact Hh.
Qed.

Lemma written_at_nil (i : Index) (pool : list (Grasp * Z)) :
  written_at tsdf i pool = [] <->
  (forall g l, In (g, l) pool ->
               out_of_range tsdf (voxel_index tsdf g) = false ->
               voxel_index tsdf g <> i).
Proof.
  unfold written_at. split.
  - intros H g l Hin Ho E.
    assert (Hf : In (g, l) (filter (writes_at tsdf i) pool)).
    { apply filter_In. split; [exact Hin |]. apply writes_at_true. auto. }
    rewrite H in Hf. exact Hf.
  - intros H. destruct (filter (writes_at tsdf i) pool) as [| [g l] t] eqn:E;
      [reflexivity |].
    assert (Hf : In (g, l) (filter (writes_at tsdf i) pool))
      by (rewrite E; left; reflexivity).
    apply filter_In in Hf. destruct Hf as [Hin Hw].
    apply writes_at_true in Hw. destruct Hw as [Ho Ei].
    exfalso. exact (H g l Hin Ho Ei).
Qed.

(** [store_sample] at one voxel. *)
Lemma store_sample_voxel (grasps : list Grasp) (labels : list Z) (i : Index) :
  let v := store_sample SUCCESS tsdf grasps labels in
  (written_at tsdf i (combine grasps labels) = [] /\ untouched v i)
  \/
  (exists pre g l post,
      combine grasps labels = pre ++ (g, l) :: post /\
      writes_at tsdf i (g, l) = true /\
      written_at tsdf i post = [] /\
      holds SUCCESS v i g l).
Proof.
  cbv zeta. unfold store_sample.
  destruct (fold_store_at i (combine grasps labels) zeros)
    as [(Hnone & Q & R0 & R1 & W & M) | H]; cbv zeta in *.
  - left. split; [exact Hnone |]. unfold untouched.
    rewrite Q, R0, R1, W, M. cbn. repeat split.
  - right. exact H.
Qed.

End Voxels.

End VoxelFacts.

(** ** Orientations of the sweep *)

Module YawFacts.

Import Geometry Grasping GeometryFacts FrameFacts.
Local Open Scope R_scope.

Lemma from_euler_z_PI : as_quat (from_euler_z PI) = mkQuat 0 0 1 0.
Proof.
  unfold from_euler_z. cbn [as_quat]. rewrite sin_PI2, cos_PI2. reflexivity.
Qed.

Lemma from_euler_z_0 : as_quat (from_euler_z 0) = mkQuat 0 0 0 1.
Proof.
  unfold from_euler_z. cbn [as_quat].
  replace (0 / 2) with 0 by field. rewrite sin_0, cos_0. reflexivity.
Qed.

(** [Rotation.__mul__] reads its operands through their quaternions. *)
Lemma rot_mul_quat (p q q' : Rotation) :
  as_quat q = as_quat q' -> rot_mul p q = rot_mul p q'.
Proof. intros H. unfold rot_mul. rewrite H. reflexivity. Qed.

(** A turn about the gripper's own z axis keeps the approach axis. *)
Lemma yaw_keeps_approach_axis (p : Rotation) (yaw : R) :
  unit_rotation p ->
  unit_rotation (rot_mul p (from_euler_z yaw)) /\
  approach_axis (rot_mul p (from_euler_z yaw)) = approach_axis p.
Proof.
  intros Hp.
  destruct (rot_mul_unit p (from_euler_z yaw) Hp (from_euler_z_unit yaw))
    as [E Hu].
  split; [exact Hu |].
  unfold approach_axis, as_dcm. rewrite E.
  destruct p as [[x y z w]]. unfold from_euler_z, compose_quat.
  cbn [as_quat qx qy qz qw m02 m12 m22].
  pose proof (sin2_cos2 (yaw / 2)) as H. unfold Rsqr in H.
  set (s := sin (yaw / 2)) in *. set (c := cos (yaw / 2)) in *.
  apply vec3_eq; cbn [vx vy vz].
  - replace (2 * (x * z + y * w))
      with ((s * s + c * c) * (2 * (x * z + y * w))) by (rewrite H; ring).
    ring.
  - replace (2 * (y * z - x * w))
      with ((s * s + c * c) * (2 * (y * z - x * w))) by (rewrite H; ring).
    ring.
  - replace (- (x * x) - y * y + z * z + w * w)
      with ((s * s + c * c) * (- (x * x) - y * y + z * z + w * w))
      by (rewrite H; ring).
    ring.
Qed.

(** The half turn of line 155 is the yaw of pi. *)
Lemma half_turn_is_yaw_PI (p : Rotation) :
  rot_mul p R_z180 = rot_mul p (from_euler_z PI).
Proof.
  apply rot_mul_quat. unfold R_z180.
  rewrite half_turn_about_z, from_euler_z_PI. reflexivity.
Qed.

(** Two yaws in a row add up. *)
Lemma yaw_then_yaw (p : Rotation) (a b : R) :
  unit_rotation p ->
  as_quat (rot_mul (rot_mul p (from_euler_z a)) (from_euler_z b))
  = as_quat (rot_mul p (from_euler_z (a + b))).
Proof.
  intros Hp.
  destruct (rot_mul_unit p (from_euler_z a) Hp (from_euler_z_unit a))
    as [Ea Hua].
  destruct (rot_mul_unit _ (from_euler_z b) Hua (from_euler_z_unit b))
    as [Eb _].
  destruct (rot_mul_unit p (from_euler_z (a + b)) Hp
              (from_euler_z_unit (a + b))) as [Eab _].
  rewrite Eb, Ea, Eab.
  destruct p as [[x y z w]]. unfold from_euler_z, compose_quat.
  cbn [as_quat qx qy qz qw].
  replace ((a + b) / 2) with (a / 2 + b / 2) by field.
  rewrite sin_plus, cos_plus.
  apply quat_eq; cbn [qx qy qz qw]; ring.
Qed.

(** The first yaw of the sweep leaves the frame as it is. *)
Lemma yaw_0 (p : Rotation) :
  unit_rotation p -> as_quat (rot_mul p (from_euler_z 0)) = as_quat p.
Proof.
  intros Hp.
  destruct (rot_mul_unit p (from_euler_z 0) Hp (from_euler_z_unit 0))
    as [E _].
  rewrite E, from_euler_z_0. destruct p as [[x y z w]].
  apply quat_eq; cbn; ring.
Qed.

(** The yaw angles of [np.linspace(0, pi, n)]. *)
Lemma nth_linspace (start stop : R) (n k : nat) :
  (2 <= n)%nat -> (k < n)%nat ->
  nth_error (linspace start stop n) k
  = Some (start + INR k * ((stop - start) / INR (n - 1))).
Proof.
  intros Hn Hk. unfold linspace.
  destruct n as [| [| n]]; [lia | lia |].
  rewrite nth_error_map, nth_error_nth' with (d := 0%nat)
    by (rewrite length_seq; exact Hk).
  rewrite seq_nth by exact Hk. reflexivity.
Qed.

End YawFacts.

(** ** One scene: the candidate loop and the stored sample *)

Module SceneFacts.

Import Geometry Grasping EvaluateFacts FrameFacts LoopFacts StoreFacts
  VoxelFacts.
Local Open Scope nat_scope.

Section Scene.

Variable SUCCESS : Z.
Variable sim : Simulation.
Variable rng : RandomSource.
Variable n : nat.
Variable cloud : PointCloud.
Variable finger_depth : R.

Hypothesis rng_ok : draws_in_range rng.
Hypothesis cloud_filled : points cloud <> [].
Hypothesis cloud_normals : length (normals cloud) = length (points cloud).
Hypothesis depth_ok : (0 <= finger_depth)%R.

(** One turn of the loop body: a candidate is drawn and evaluated, and the
    label is the greatest outcome of its twelve attempts. *)
Lemma candidate_step (w : World sim rng) :
  exists point normal g grasp label s,
    sample_grasp_point rng cloud finger_depth (fst w)
    = Some ((point, normal), g) /\
    evaluate_grasp_point SUCCESS sim point normal 12 (snd w)
    = Some ((grasp, label), s) /\
    In label (sweep_outcomes sim point normal 12 (snd w)).
Proof.
  destruct (sample_grasp_point_spec rng rng_ok cloud finger_depth (fst w)
              cloud_filled cloud_normals depth_ok)
    as (point & normal & _ & _ & _ & Hs).
  cbv zeta in Hs.
  match type of Hs with
  | _ = Some ((?p, _), ?g) =>
      destruct (evaluate_returns SUCCESS sim p normal 12 (snd w) ltac:(lia))
        as (grasp & label & s' & He & Hmax);
      exists p, normal, g, grasp, label, s'
  end.
  split; [exact Hs |]. split; [exact He |].
  apply np_max_spec in Hmax. exact (proj1 Hmax).
Qed.

(** The loop raises nothing. *)
Lemma collect_never_raises :
  forall (fuel : nat) (pool : Pool) (w : World sim rng),
    collect SUCCESS sim rng fuel cloud finger_depth n pool w <> Raised.
Proof.
  induction fuel as [| fuel IH]; intros pool w; cbn [collect];
    destruct (length (grasps pool) <? n); try discriminate.
  destruct (candidate_step w)
    as (point & normal & g & grasp & label & s & -> & -> & _).
  apply IH.
Qed.

Lemma sweep_no_success (R0 : Rotation) (pos : Vec3) :
  (forall T s, fst (fst (test_grasp sim T s)) <> SUCCESS) ->
  forall (yaws : list R) (s : SimState sim) (o : Z),
    In o (map fst (fst (sweep sim R0 pos yaws s))) -> o <> SUCCESS.
Proof.
  intros never.
  induction yaws as [| yaw yaws IH]; intros s o Hin; [contradiction |].
  cbn [sweep] in Hin.
  pose proof (never (mkTransform (rot_mul R0 (from_euler_z yaw)) pos)
                (restore_state sim s)) as Ha.
  destruct (test_grasp sim _ (restore_state sim s)) as [attempt s1].
  specialize (IH s1 o). destruct (sweep sim R0 pos yaws s1) as [attempts s2].
  cbn [fst map] in *. destruct Hin as [<- | Hin]; [exact Ha | apply IH, Hin].
Qed.

(** Without a single success the pool stops growing at half the quota. *)
Lemma collect_starves :
  (forall T s, fst (fst (test_grasp sim T s)) <> SUCCESS) ->
  1 <= n ->
  forall (fuel : nat) (pool : Pool) (w : World sim rng),
    length (grasps pool) = num_negatives pool ->
    num_negatives pool <= n / 2 ->
    collect SUCCESS sim rng fuel cloud finger_depth n pool w = OutOfFuel.
Proof.
  intros never Hn.
  assert (Hhalf : n / 2 < n) by (apply Nat.div_lt; lia).
  induction fuel as [| fuel IH]; intros pool w Hlen Hneg; cbn [collect];
    destruct (Nat.ltb_spec (length (grasps pool)) n) as [Hlt | Hge];
    try lia; [reflexivity |].
  destruct (candidate_step w)
    as (point & normal & g & grasp & label & s & -> & -> & Hin).
  apply sweep_no_success in Hin; [| exact never].
  apply IH; rewrite offer_failure by exact Hin;
    destruct (Nat.ltb_spec (num_negatives pool) (n / 2)) as [Hlow | Hfull];
    cbn [grasps num_negatives]; rewrite ?length_app; cbn [length]; lia.
Qed.

End Scene.

Section Counting.

Variable SUCCESS : Z.
Variable tsdf : TSDFVolume.

Lemma negatives_of_combine :
  forall (gs : list Grasp) (ls : list Z),
    length (filter (fun e : Grasp * Z => negb (is_positive SUCCESS (snd e)))
              (combine gs ls))
    <= count_negatives SUCCESS ls.
Proof.
  unfold count_negatives.
  induction gs as [| g gs IH]; intros [| l ls]; cbn [combine filter length];
    try lia.
  cbn [snd]. specialize (IH ls).
  destruct (negb (is_positive SUCCESS l)); cbn [length]; lia.
Qed.

(** A marked voxel is the voxel of a pair of the pool. *)
Lemma marked_voxel_has_writer (gs : list Grasp) (ls : list Z) (i : Index) :
  mask (store_sample SUCCESS tsdf gs ls) i = 1%R ->
  exists g l,
    In (g, l) (combine gs ls) /\ writes_at tsdf i (g, l) = true /\
    holds SUCCESS (store_sample SUCCESS tsdf gs ls) i g l.
Proof.
  intros Hm.
  destruct (store_sample_voxel SUCCESS tsdf gs ls i)
    as [(_ & Hz & _) | (pre & g & l & post & Hpool & Hw & _ & Hh)];
    cbv zeta in *.
  - rewrite Hz in Hm. exfalso. apply R1_neq_R0. symmetry. exact Hm.
  - exists g, l. split; [| split; assumption].
    rewrite Hpool. apply in_or_app. right. left. reflexivity.
Qed.

(** Distinct marked voxels take distinct pairs of the pool. *)
Lemma marked_voxels_bounded (gs : list Grasp) (ls : list Z)
    (voxels : list Index) :
  NoDup voxels ->
  (forall i, In i voxels -> mask (store_sample SUCCESS tsdf gs ls) i = 1%R) ->
  length voxels <= length (combine gs ls).
Proof.
  intros Hnd Hm.
  rewrite <- (length_map (fun e : Grasp * Z => voxel_index tsdf (fst e))).
  apply NoDup_incl_length; [exact Hnd |].
  intros i Hi. destruct (marked_voxel_has_writer gs ls i (Hm i Hi))
    as (g & l & Hin & Hw & _).
  apply writes_at_true in Hw. destruct Hw as [_ <-].
  apply (in_map (fun e : Grasp * Z => voxel_index tsdf (fst e)) _ _ Hin).
Qed.

Lemma label2quality_zero (l : Z) :
  label2quality SUCCESS l = 0%R -> is_positive SUCCESS l = false.
Proof.
  unfold label2quality, is_positive. destruct (l =? SUCCESS)%Z; [| reflexivity].
  intros H. exfalso. exact (R1_neq_R0 H).
Qed.

Lemma negative_voxels_bounded (gs : list Grasp) (ls : list Z)
    (voxels : list Index) :
  NoDup voxels ->
  (forall i, In i voxels ->
             mask (store_sample SUCCESS tsdf gs ls) i = 1%R /\
             qual_vol (store_sample SUCCESS tsdf gs ls) i = 0%R) ->
  length voxels <= count_negatives SUCCESS ls.
Proof.
  intros Hnd Hm.
  eapply Nat.le_trans; [| apply (negatives_of_combine gs ls)].
  rewrite <- (length_map (fun e : Grasp * Z => voxel_index tsdf (fst e))).
  apply NoDup_incl_length; [exact Hnd |].
  intros i Hi. destruct (Hm i Hi) as [H1 H0].
  destruct (marked_voxel_has_writer gs ls i H1)
    as (g & l & Hin & Hw & (_ & Hq & _)).
  apply writes_at_true in Hw. destruct Hw as [_ <-].
  apply (in_map (fun e : Grasp * Z => voxel_index tsdf (fst e)) _ (g, l)).
  apply filter_In. split; [exact Hin |]. cbn [snd].
  rewrite label2quality_zero; [reflexivity |]. rewrite <- Hq. exact H0.
Qed.

End Counting.

End SceneFacts.

(** ** Rounding to a voxel, and the length of the frame's axes *)

Module RasterFacts.

Import Geometry Grasping GeometryFacts FrameFacts.
Local Open Scope R_scope.

(** [np.round] moves its argument by at most one half. *)
Lemma np_round_near (x : R) :
  IZR (np_round x) - 1 / 2 <= x <= IZR (np_round x) + 1 / 2.
Proof.
  unfold np_round. destruct (archimed x) as [Hup Hlow].
  set (f := (up x - 1)%Z).
  assert (Hf : IZR f = IZR (up x) - 1) by (unfold f; rewrite minus_IZR; ring).
  destruct (Rlt_dec (x - IZR f) (1 / 2)) as [Hlt | Hge].
  - lra.
  - destruct (Rlt_dec (1 / 2) (x - IZR f)) as [Hgt | Hle].
    + rewrite plus_IZR. lra.
    + destruct (Z.even f); [lra | rewrite plus_IZR; lra].
Qed.

(** The indices accepted by the guard of line 161, as an interval. *)
Lemma in_range_iff (tsdf : TSDFVolume) (i j k : Z) :
  out_of_range tsdf (i, j, k) = false <->
  (0 <= i <= resolution tsdf - 1 /\ 0 <= j <= resolution tsdf - 1 /\
   0 <= k <= resolution tsdf - 1)%Z.
Proof.
  unfold out_of_range. rewrite !orb_false_iff, !Z.ltb_ge. lia.
Qed.

Lemma round_in_interval (x : R) (res : Z) :
  (0 <= np_round x <= res - 1)%Z -> - (1 / 2) <= x <= IZR res - 1 / 2.
Proof.
  intros [H0 H1]. pose proof (np_round_near x) as [Hl Hu].
  apply IZR_le in H0, H1. rewrite minus_IZR in H1. lra.
Qed.

Lemma interval_in_round (x : R) (res : Z) :
  - (1 / 2) < x < IZR res - 1 / 2 -> (0 <= np_round x <= res - 1)%Z.
Proof.
  intros [H0 H1]. pose proof (np_round_near x) as [Hl Hu]. split.
  - assert (H : (-1 < np_round x)%Z) by (apply lt_IZR; lra). lia.
  - assert (H : (np_round x < res)%Z) by (apply lt_IZR; lra). lia.
Qed.

Lemma Rabs_square (x : R) : Rabs x * Rabs x = x * x.
Proof. unfold Rabs. destruct (Rcase_abs x); ring. Qed.

(** For a unit normal the reference axis chosen by lines 103-105 is never
    close to the normal: the second axis keeps a squared length above
    2e-4. *)
Lemma grasp_frame_axes_nonzero (normal : Vec3) :
  dot normal normal = 1 ->
  let '(x_axis, y_axis, _) := grasp_frame_axes normal in
  2 / 10000 < dot y_axis y_axis <= 1 /\
  dot x_axis x_axis = dot y_axis y_axis.
Proof.
  intros Hn. pose proof (grasp_frame_axes_length normal Hn) as Hlen.
  unfold grasp_frame_axes in *. cbv zeta in *.
  destruct normal as [a b c]. unfold dot in Hn. cbn [vx vy vz] in Hn.
  unfold isclose in *.
  assert (Hd : dot (mkVec3 1 0 0) (vneg (mkVec3 a b c)) = - a)
    by (unfold dot, vneg; cbn [vx vy vz]; ring).
  rewrite Hd in *. rewrite Rabs_Ropp, Rabs_R1 in *.
  pose proof (Rabs_pos a) as Ha0. pose proof (Rabs_square a) as Ha2.
  assert (Ha1 : Rabs a <= 1).
  { destruct (Rle_dec (Rabs a) 1) as [H | H]; [exact H |].
    exfalso. assert (1 < Rabs a * Rabs a) by nra. nra. }
  destruct (Rle_dec (Rabs (Rabs a - 1)) (1 / 100000000 + 1 / 10000 * 1))
    as [Hclose | Hfar];
    destruct Hlen as [Hy Hx]; rewrite Hy, Hx;
    (split; [| reflexivity]);
    unfold dot; cbn [vx vy vz].
  - rewrite Rabs_left1 in Hclose by lra.
    assert (Hlow : (1 - 10001 / 100000000) * (1 - 10001 / 100000000)
                   <= Rabs a * Rabs a) by nra.
    split; nra.
  - apply Rnot_le_lt in Hfar. rewrite Rabs_left1 in Hfar by lra.
    assert (Hup : Rabs a * Rabs a
                  < (1 - 10001 / 100000000) * (1 - 10001 / 100000000)) by nra.
    split; nra.
Qed.

End RasterFacts.

(** ** Where the pairs of the pool come from *)

Module ProvenanceFacts.

Import Geometry Grasping EvaluateFacts FrameFacts LoopFacts SceneFacts.
Local Open Scope R_scope.

Section Provenance.

Variable SUCCESS : Z.
Variable sim : Simulation.

(** With a simulation whose [restore_state] brings back one saved state, the
    attempts of a sweep are independent trials from that state. *)
Lemma sweep_from_baseline (baseline : SimState sim) (R0 : Rotation)
    (pos : Vec3) :
  (forall s, restore_state sim s = baseline) ->
  forall (yaws : list R) (s : SimState sim),
    fst (sweep sim R0 pos yaws s)
    = map (fun yaw =>
             fst (test_grasp sim
                    (mkTransform (rot_mul R0 (from_euler_z yaw)) pos)
                    baseline))
        yaws.
Proof.
  intros Hrestore.
  induction yaws as [| yaw yaws IH]; intros s; [reflexivity |].
  cbn [sweep map]. rewrite Hrestore.
  destruct (test_grasp sim _ baseline) as [attempt s1].
  specialize (IH s1). destruct (sweep sim R0 pos yaws s1) as [attempts s2].
  cbn [fst] in *. rewrite IH. reflexivity.
Qed.

(** What holds of every attempt made at [pos] holds of every attempt of the
    sweep. *)
Lemma sweep_every (Q : Z * R -> Prop) (R0 : Rotation) (pos : Vec3) :
  (forall ori s, Q (fst (test_grasp sim (mkTransform ori pos) s))) ->
  forall (yaws : list R) (s : SimState sim) (a : Z * R),
    In a (fst (sweep sim R0 pos yaws s)) -> Q a.
Proof.
  intros HQ.
  induction yaws as [| yaw yaws IH]; intros s a Hin; [contradiction |].
  cbn [sweep] in Hin.
  pose proof (HQ (rot_mul R0 (from_euler_z yaw)) (restore_state sim s)) as Ha.
  destruct (test_grasp sim _ (restore_state sim s)) as [attempt s1].
  specialize (IH s1 a). destruct (sweep sim R0 pos yaws s1) as [attempts s2].
  cbn [fst] in *. destruct Hin as [<- | Hin]; [exact Ha | apply IH, Hin].
Qed.

(** Without a yaw angle [np.max] raises. *)
Lemma evaluate_no_yaws (pos normal : Vec3) (s : SimState sim) :
  evaluate_grasp_point SUCCESS sim pos normal 0 s = None.
Proof. reflexivity. Qed.

(** The grasp returned by an evaluation sits at the position evaluated, and
    its orientation is the identity or one of the sweep, the latter whenever
    the label is the success code. *)
Lemma evaluate_provenance (pos normal : Vec3) (num_rotations : nat)
    (s s' : SimState sim) (grasp : Grasp) (label : Z) :
  evaluate_grasp_point SUCCESS sim pos normal num_rotations s
  = Some ((grasp, label), s') ->
  translation (pose grasp) = pos /\
  np_max (sweep_outcomes sim pos normal num_rotations s) = Some label /\
  (rotation (pose grasp) = rot_identity /\ width grasp = 0 \/
   exists (m : nat) (yaw : R),
     nth_error (linspace 0 PI num_rotations) m = Some yaw /\
     nth_error (sweep_attempts sim pos normal num_rotations s) m
     = Some (SUCCESS, width grasp) /\
     rotation (pose grasp)
     = rot_mul (grasp_frame normal) (from_euler_z yaw)) /\
  (label = SUCCESS ->
   exists (m : nat) (yaw : R),
     nth_error (linspace 0 PI num_rotations) m = Some yaw /\
     nth_error (sweep_attempts sim pos normal num_rotations s) m
     = Some (SUCCESS, width grasp) /\
     rotation (pose grasp)
     = rot_mul (grasp_frame normal) (from_euler_z yaw)).
Proof.
  intros He.
  destruct num_rotations as [| k]; [rewrite evaluate_no_yaws in He; discriminate |].
  rewrite evaluate_unfold in He. unfold sweep_outcomes.
  pose proof (length_sweep_attempts sim pos normal (S k) s) as Hlen.
  set (attempts := sweep_attempts sim pos normal (S k) s) in *.
  destruct (in_dec Z.eq_dec SUCCESS (map fst attempts)) as [Hin | Hnot].
  - destruct (select_grasp_success SUCCESS (grasp_frame normal) pos
                (linspace 0 PI (S k)) attempts)
      as (m & st & n & yaw & w & lab & Hsel & _ & _ & _ & Hy & Ha & Hmax).
    { rewrite length_linspace. symmetry. exact Hlen. }
    { exact Hin. }
    rewrite Hsel in He. inversion He; subst. cbn [pose translation rotation width].
    split; [reflexivity |]. split; [exact Hmax |].
    split; [right |]; [| intros _]; exists m, yaw; auto.
  - destruct (select_grasp_failure SUCCESS (grasp_frame normal) pos
                (linspace 0 PI (S k)) attempts)
      as (lab & Hsel & Hmax).
    { intros E. rewrite E in Hlen. cbn in Hlen. lia. }
    { exact Hnot. }
    rewrite Hsel in He. inversion He; subst. cbn [pose translation rotation width].
    split; [reflexivity |]. split; [exact Hmax |].
    split; [left; split; reflexivity |].
    intros ->. exfalso. apply np_max_spec in Hmax. exact (Hnot (proj1 Hmax)).
Qed.

End Provenance.

Lemma nth_error_combine_in {A B : Type} :
  forall (l1 : list A) (l2 : list B) (k : nat) (a : A) (b : B),
    nth_error l1 k = Some a -> nth_error l2 k = Some b ->
    In (a, b) (combine l1 l2).
Proof.
  induction l1 as [| x l1 IH]; intros [| y l2] [| k] a b H1 H2;
    cbn in *; try discriminate.
  - inversion H1; inversion H2; subst. left. reflexivity.
  - right. apply (IH l2 k); assumption.
Qed.

Lemma combine_snoc {A B : Type} :
  forall (l1 : list A) (l2 : list B) (a : A) (b : B),
    length l1 = length l2 ->
    combine (l1 ++ [a]) (l2 ++ [b]) = combine l1 l2 ++ [(a, b)].
Proof.
  induction l1 as [| x l1 IH]; intros [| y l2] a b H; cbn in *;
    try discriminate; [reflexivity |].
  f_equal. apply IH. lia.
Qed.

Section Pool.

Variable SUCCESS : Z.
Variable sim : Simulation.
Variable rng : RandomSource.
Variable n : nat.
Variable cloud : PointCloud.
Variable finger_depth : R.
Variable P : Grasp * Z -> Prop.

Hypothesis candidates :
  forall (w : World sim rng) point normal g grasp label s,
    sample_grasp_point rng cloud finger_depth (fst w)
    = Some ((point, normal), g) ->
    evaluate_grasp_point SUCCESS sim point normal 12 (snd w)
    = Some ((grasp, label), s) ->
    P (grasp, label).

(** What holds of every evaluated candidate holds of every pair of the pool
    handed over: the loop appends evaluated candidates and nothing else. *)
Lemma collect_all :
  forall (fuel : nat) (pool : Pool) (w : World sim rng)
         (pool' : Pool) (w' : World sim rng),
    length (grasps pool) = length (labels pool) ->
    Forall P (combine (grasps pool) (labels pool)) ->
    collect SUCCESS sim rng fuel cloud finger_depth n pool w
    = Returned (pool', w') ->
    Forall P (combine (grasps pool') (labels pool')).
Proof.
  induction fuel as [| fuel IH]; intros pool w pool' w' Hlen Hall Hrun;
    cbn [collect] in Hrun;
    destruct (length (grasps pool) <? n)%nat;
    try discriminate; try (inversion Hrun; subst; exact Hall).
  destruct (sample_grasp_point rng cloud finger_depth (fst w))
    as [[[point normal] g] |] eqn:Es; [| discriminate].
  destruct (evaluate_grasp_point SUCCESS sim point normal 12 (snd w))
    as [[[grasp label] s] |] eqn:Ee; [| discriminate].
  apply (IH _ _ _ _) in Hrun; [exact Hrun | |];
    unfold offer; destruct (accepts SUCCESS n (num_negatives pool) label);
    cbn [grasps labels]; try assumption.
  - rewrite !length_app. cbn [length]. lia.
  - rewrite combine_snoc by exact Hlen. apply Forall_app. split; [exact Hall |].
    constructor; [| constructor]. exact (candidates w _ _ _ _ _ _ Es Ee).
Qed.

End Pool.

Section Origin.

Variable SUCCESS : Z.
Variable sim : Simulation.
Variable rng : RandomSource.
Variable cloud : PointCloud.
Variable finger_depth : R.

Hypothesis rng_ok : draws_in_range rng.
Hypothesis cloud_normals : length (normals cloud) = length (points cloud).
Hypothesis depth_ok : 0 <= finger_depth.

Lemma candidate_from_cloud :
  forall (w : World sim rng) point normal g grasp label s,
    sample_grasp_point rng cloud finger_depth (fst w)
    = Some ((point, normal), g) ->
    evaluate_grasp_point SUCCESS sim point normal 12 (snd w)
    = Some ((grasp, label), s) ->
    from_cloud SUCCESS cloud finger_depth (grasp, label).
Proof.
  intros w point normal g grasp label s Hs He.
  assert (Hne : points cloud <> []).
  { intros E. unfold sample_grasp_point in Hs. rewrite E in Hs. discriminate. }
  destruct (sample_grasp_point_spec rng rng_ok cloud finger_depth (fst w)
              Hne cloud_normals depth_ok)
    as (p0 & n0 & Hp & Hn & Hd & Hs').
  cbv zeta in *. rewrite Hs' in Hs. inversion Hs; subst point normal g.
  clear Hs Hs'.
  destruct (evaluate_provenance SUCCESS sim _ _ _ _ _ _ _ He)
    as (Ht & _ & Hrot & Hpos).
  unfold from_cloud, swept. cbn [fst snd].
  eexists p0, n0, _. split; [exact (nth_error_combine_in _ _ _ _ _ Hp Hn) |].
  split; [| split; [exact Ht |]].
  - lra.
  - split.
    + destruct Hrot as [[Hid _] | (m & yaw & Hy & _ & Hr)]; [left; exact Hid |].
      right. exists yaw. split; [exact (nth_error_In _ _ Hy) | exact Hr].
    + intros Hl. destruct (Hpos Hl) as (m & yaw & Hy & _ & Hr).
      exists yaw. split; [exact (nth_error_In _ _ Hy) | exact Hr].
Qed.

End Origin.

Section Coding.

Variable SUCCESS : Z.
Variable sim : Simulation.
Variable rng : RandomSource.
Variable cloud : PointCloud.
Variable finger_depth : R.

Hypothesis coding : forall T s, (fst (fst (test_grasp sim T s)) <= SUCCESS)%Z.

(** When no outcome is coded above success, a candidate labelled otherwise
    met no success: it is the grasp of lines 131-132. *)
Lemma candidate_negative_is_identity :
  forall (w : World sim rng) point normal g grasp label s,
    sample_grasp_point rng cloud finger_depth (fst w)
    = Some ((point, normal), g) ->
    evaluate_grasp_point SUCCESS sim point normal 12 (snd w)
    = Some ((grasp, label), s) ->
    snd (grasp, label) <> SUCCESS ->
    rotation (pose (fst (grasp, label))) = rot_identity /\
    width (fst (grasp, label)) = 0.
Proof.
  intros w point normal g grasp label s _ He Hneg. cbn [fst snd] in *.
  destruct (evaluate_provenance SUCCESS sim _ _ _ _ _ _ _ He)
    as (_ & Hmax & [Hid | (m & yaw & _ & Ha & _)] & _); [exact Hid |].
  exfalso. apply Hneg. apply np_max_spec in Hmax. destruct Hmax as [Hin Hge].
  apply Z.le_antisymm.
  - unfold sweep_outcomes, sweep_attempts in Hin.
    apply in_map_iff in Hin. destruct Hin as (a & <- & Hin).
    apply (sweep_every sim (fun a => (fst a <= SUCCESS)%Z)) in Hin;
      [exact Hin |].
    intros ori s0. apply coding.
  - apply Hge. unfold sweep_outcomes.
    apply (in_map fst _ _ (nth_error_In _ _ Ha)).
Qed.

End Coding.

(** A scene that stores a sample stores the pool the loop handed over. *)
Lemma label_scene_returned (SUCCESS : Z) (sim : Simulation)
    (rng : RandomSource) (fuel : nat) (tsdf : TSDFVolume) (cloud : PointCloud)
    (finger_depth : R) (n : nat) (w w' : World sim rng) (v : Volumes) :
  label_scene SUCCESS sim rng fuel tsdf cloud finger_depth n w
  = Returned (Some v, w') ->
  exists pool : Pool,
    collect SUCCESS sim rng fuel cloud finger_depth n empty_pool w
    = Returned (pool, w') /\
    v = store_sample SUCCESS tsdf (grasps pool) (labels pool).
Proof.
  unfold label_scene. destruct (points cloud); [discriminate |].
  destruct (collect SUCCESS sim rng fuel cloud finger_depth n empty_pool w)
    as [[pool w0] | |]; try discriminate.
  intros H. inversion H; subst. exists pool. split; reflexivity.
Qed.

End ProvenanceFacts.

(** ** A sweep whose successes form one block *)

Module BlockFacts.

Import Grasping Peaks PeakSpec PeaksFacts RunsFacts.
Local Open Scope nat_scope.

Lemma nth_block (a k b j : nat) :
  nth j (repeat false a ++ repeat true k ++ repeat false b) false
  = (a <=? j) && (j <? a + k).
Proof.
  destruct (Nat.leb_spec a j) as [Ha | Ha]; cbn [andb].
  - rewrite app_nth2 by (rewrite repeat_length; exact Ha).
    rewrite repeat_length.
    destruct (Nat.ltb_spec j (a + k)) as [Hk | Hk].
    + apply nth_repeat_app_lt. lia.
    + rewrite app_nth2 by (rewrite repeat_length; lia).
      apply nth_repeat.
  - rewrite app_nth1 by (rewrite repeat_length; exact Ha).
    apply nth_repeat.
Qed.

(** The block is the only maximal run. *)
Lemma block_maximal_run (a k b st n : nat) :
  maximal_run (repeat false a ++ repeat true k ++ repeat false b) st n ->
  st = a /\ n = k.
Proof.
  intros (Hn & Hall & Hleft & Hright).
  assert (Hin : forall j, st <= j < st + n -> a <= j < a + k).
  { intros j Hj. specialize (Hall j Hj). rewrite nth_block in Hall.
    apply andb_true_iff in Hall. destruct Hall as [H1 H2].
    apply Nat.leb_le in H1. apply Nat.ltb_lt in H2. lia. }
  pose proof (Hin st ltac:(lia)) as Hst.
  pose proof (Hin (st + n - 1) ltac:(lia)) as Hend.
  rewrite nth_block in Hright.
  assert (Hn' : st + n = a + k).
  { destruct (Nat.leb_spec a (st + n)) as [_ | H]; [| lia].
    destruct (Nat.ltb_spec (st + n) (a + k)) as [H | H];
      [discriminate | lia]. }
  assert (Hst' : st = a).
  { destruct Hleft as [-> | Hleft]; [lia |].
    rewrite nth_block in Hleft.
    destruct (Nat.leb_spec a (st - 1)) as [H | H]; [| lia].
    destruct (Nat.ltb_spec (st - 1) (a + k)) as [H' | H'];
      [discriminate | lia]. }
  lia.
Qed.

(** The indicator of a sweep in which every attempt holds. *)
Lemma all_success_indicator (SUCCESS : Z) (outcomes : list Z) :
  (forall o, In o outcomes -> o = SUCCESS) ->
  map (is_positive SUCCESS) outcomes = repeat true (length outcomes).
Proof.
  induction outcomes as [| o t IH]; intros H; [reflexivity |].
  cbn [map length repeat]. rewrite IH by (intros x Hx; apply H; right; exact Hx).
  unfold is_positive at 1. rewrite (H o (or_introl eq_refl)), Z.eqb_refl.
  reflexivity.
Qed.

End BlockFacts.

(** ** A scene with one failure and one success *)

Module MixedScene.

Import Geometry Grasping Examples.
Import EvaluateFacts GeometryFacts StoreFacts FrameFacts LoopFacts.
Import ProvenanceFacts RasterFacts.
Local Open Scope R_scope.

Lemma round_robin_in_range : draws_in_range round_robin.
Proof.
  split.
  - intros n g Hn. cbn. apply Nat.mod_upper_bound. lia.
  - intros low high g H. cbn. lra.
Qed.

Lemma holds_above_codes (T : Transform) (s : unit) :
  (fst (fst (test_grasp holds_above T s)) <= 1)%Z.
Proof. cbn. destruct (Rle_dec 1 (vz (translation T))); lia. Qed.

(** Below height 1 every attempt fails. *)
Lemma evaluate_below (pos normal : Vec3) :
  vz pos < 1 ->
  evaluate_grasp_point 1 holds_above pos normal 12 tt
  = Some ((mkGrasp (mkTransform rot_identity pos) 0, 0%Z), tt).
Proof.
  intros H.
  assert (Hall : forall a,
             In a (sweep_attempts holds_above pos normal 12 tt) ->
             fst a = 0%Z).
  { unfold sweep_attempts.
    apply (sweep_every holds_above (fun a => fst a = 0%Z)).
    intros ori s. cbn. destruct (Rle_dec 1 (vz pos)); [lra | reflexivity]. }
  assert (Hout : forall o,
             In o (map fst (sweep_attempts holds_above pos normal 12 tt)) ->
             o = 0%Z).
  { intros o Hin. apply in_map_iff in Hin. destruct Hin as (a & <- & Hin).
    apply Hall, Hin. }
  rewrite evaluate_unfold.
  destruct (select_grasp_failure 1 (grasp_frame normal) pos (linspace 0 PI 12)
              (sweep_attempts holds_above pos normal 12 tt))
    as (label & -> & Hmax).
  - intros E.
    pose proof (length_sweep_attempts holds_above pos normal 12 tt) as Hlen.
    rewrite E in Hlen. discriminate.
  - intros Hin. apply Hout in Hin. discriminate.
  - apply np_max_spec in Hmax. rewrite (Hout label (proj1 Hmax)).
    destruct (snd (sweep holds_above (grasp_frame normal) pos
                     (linspace 0 PI 12) tt)).
    reflexivity.
Qed.

(** From height 1 on every attempt holds. *)
Lemma evaluate_above (pos normal : Vec3) :
  1 <= vz pos ->
  exists grasp : Grasp,
    evaluate_grasp_point 1 holds_above pos normal 12 tt
    = Some ((grasp, 1%Z), tt) /\
    translation (pose grasp) = pos.
Proof.
  intros H.
  destruct (evaluate_returns 1 holds_above pos normal 12 tt ltac:(lia))
    as (grasp & label & s' & He & Hmax).
  destruct (evaluate_provenance 1 holds_above _ _ _ _ _ _ _ He) as (Ht & _).
  apply np_max_spec in Hmax. destruct Hmax as [Hin _].
  unfold sweep_outcomes, sweep_attempts in Hin.
  apply in_map_iff in Hin. destruct Hin as (a & <- & Hin).
  apply (sweep_every holds_above (fun a => fst a = 1%Z)) in Hin.
  - exists grasp. destruct s'. rewrite Hin in He. split; [exact He | exact Ht].
  - intros ori s. cbn. destruct (Rle_dec 1 (vz pos)); [reflexivity | lra].
Qed.

(** The scene of the two-point cloud with a quota of two: the candidate at
    the origin fails and is stored as a negative, the one above holds. *)
Lemma mixed_scene :
  exists (v : Volumes) (w' : World holds_above round_robin),
    label_scene 1 holds_above round_robin 2 unit_grid two_point_cloud
      (5 / 100) 2 (0%nat, tt)
    = Returned (Some v, w') /\
    mask v (0, 0, 0)%Z = 1 /\ qual_vol v (0, 0, 0)%Z = 0 /\
    mask v (0, 0, 3)%Z = 1 /\ qual_vol v (0, 0, 3)%Z = 1.
Proof.
  set (d := 5 / 100 - - (2 / 10) * (5 / 100)).
  assert (Hd : d = 6 / 100) by (unfold d; lra).
  set (p1 := vadd origin (vscale up_normal d)).
  set (p2 := vadd (mkVec3 0 0 3) (vscale up_normal d)).
  assert (Hp1 : p1 = mkVec3 0 0 (6 / 100)).
  { unfold p1, origin, up_normal, vadd, vscale. cbn [vx vy vz].
    apply vec3_eq; cbn [vx vy vz]; lra. }
  assert (Hp2 : p2 = mkVec3 0 0 (3 + 6 / 100)).
  { unfold p2, up_normal, vadd, vscale. cbn [vx vy vz].
    apply vec3_eq; cbn [vx vy vz]; lra. }
  assert (Hs1 : sample_grasp_point round_robin two_point_cloud (5 / 100) 0%nat
                = Some ((p1, up_normal), 1%nat)) by reflexivity.
  assert (Hs2 : sample_grasp_point round_robin two_point_cloud (5 / 100) 1%nat
                = Some ((p2, up_normal), 2%nat)) by reflexivity.
  assert (He1 : evaluate_grasp_point 1 holds_above p1 up_normal 12 tt
                = Some ((mkGrasp (mkTransform rot_identity p1) 0, 0%Z), tt)).
  { apply evaluate_below. rewrite Hp1. cbn [vz]. lra. }
  destruct (evaluate_above p2 up_normal) as (g2 & He2 & Ht2).
  { rewrite Hp2. cbn [vz]. lra. }
  set (g1 := mkGrasp (mkTransform rot_identity p1) 0) in *.
  assert (Hrun : collect 1 holds_above round_robin 2 two_point_cloud (5 / 100)
                   2 empty_pool (0%nat, tt)
                 = Returned (mkPool [g1; g2] [0%Z; 1%Z] 1, (2%nat, tt))).
  { cbn [collect empty_pool grasps length Nat.ltb Nat.leb fst snd].
    rewrite Hs1, He1.
    cbn [collect offer accepts is_positive Z.eqb orb Nat.ltb Nat.leb Nat.div
         Nat.divmod fst snd num_negatives grasps labels empty_pool app length
         Nat.add].
    rewrite Hs2, He2. reflexivity. }
  assert (Hv1 : voxel_index unit_grid g1 = (0, 0, 0)%Z).
  { unfold voxel_index, to_voxel_coordinates, unit_grid, vdiv, g1.
    cbn [voxel_size pose translation vx vy vz]. rewrite Hp1. cbn [vx vy vz].
    rewrite (np_round_below_half 0 (0 / 1)) by lra.
    rewrite (np_round_below_half 0 (6 / 100 / 1)) by lra. reflexivity. }
  assert (Hv2 : voxel_index unit_grid g2 = (0, 0, 3)%Z).
  { unfold voxel_index, to_voxel_coordinates, unit_grid, vdiv.
    cbn [voxel_size pose translation vx vy vz]. rewrite Ht2, Hp2.
    cbn [vx vy vz].
    rewrite (np_round_below_half 0 (0 / 1)) by lra.
    rewrite (np_round_below_half 3 ((3 + 6 / 100) / 1)) by lra. reflexivity. }
  exists (store_sample 1 unit_grid [g1; g2] [0%Z; 1%Z]), (2%nat, tt).
  split.
  { unfold label_scene. cbn [two_point_cloud points]. rewrite Hrun.
    reflexivity. }
  destruct (store_sample_at 1 unit_grid [g1; g2] [0%Z; 1%Z] []
              [(g2, 1%Z)] g1 0%Z eq_refl) as [M1 Q1].
  { rewrite Hv1. reflexivity. }
  destruct (store_sample_at 1 unit_grid [g1; g2] [0%Z; 1%Z] [(g1, 0%Z)]
              [] g2 1%Z eq_refl) as [M2 Q2].
  { rewrite Hv2. reflexivity. }
  cbv zeta in *. rewrite Hv1 in *. rewrite Hv2 in *.
  split; [exact M1 |]. split; [| split; [exact M2 |]].
  - destruct Q1 as (Q & _).
    + intros g l [E | []]. inversion E; subst. rewrite Hv2. discriminate.
    + rewrite Q. reflexivity.
  - destruct Q2 as (Q & _).
    + intros g l [].
    + rewrite Q. reflexivity.
Qed.

End MixedScene.

(** * Further properties, one theorem each *)

Module Properties.

Import Geometry Grasping Examples.
Import EvaluateFacts GeometryFacts StoreFacts FrameFacts LoopFacts.
Import VoxelFacts YawFacts SceneFacts RasterFacts ProvenanceFacts.
Local Open Scope R_scope.

(** X1. [evaluate_grasp_point] raises in one case only: called with
    [num_rotations = 0] there is no outcome for [np.max] to read.  With one
    yaw angle or more it returns, whatever the simulation reports. *)
Theorem evaluation_raises_only_without_yaws :
  forall (SUCCESS : Z) (sim : Simulation) (pos normal : Vec3)
         (num_rotations : nat) (s : SimState sim),
    evaluate_grasp_point SUCCESS sim pos normal num_rotations s = None
    <-> num_rotations = 0%nat.
Proof.
  intros SUCCESS sim pos normal num_rotations s. split.
  - intros H. destruct num_rotations as [| k]; [reflexivity |].
    destruct (evaluate_returns SUCCESS sim pos normal (S k) s ltac:(lia))
      as (grasp & label & s' & He & _).
    rewrite He in H. discriminate.
  - intros ->. reflexivity.
Qed.

(** X2. For a unit normal, every orientation tried in the sweep is a unit
    quaternion whose approach axis (the third column of its matrix) is the
    negated normal, whatever the yaw; and when some yaw succeeded, the grasp
    returned sits at the position evaluated and approaches against the
    normal. *)
Theorem successful_grasp_approaches_against_normal :
  forall (SUCCESS : Z) (sim : Simulation) (pos normal : Vec3)
         (num_rotations : nat) (s : SimState sim),
    dot normal normal = 1 ->
    (forall yaw : R,
        unit_rotation (rot_mul (grasp_frame normal) (from_euler_z yaw)) /\
        approach_axis (rot_mul (grasp_frame normal) (from_euler_z yaw))
        = vneg normal) /\
    (In SUCCESS (sweep_outcomes sim pos normal num_rotations s) ->
     exists (grasp : Grasp) (label : Z) (s' : SimState sim),
       evaluate_grasp_point SUCCESS sim pos normal num_rotations s
       = Some ((grasp, label), s') /\
       translation (pose grasp) = pos /\
       unit_rotation (rotation (pose grasp)) /\
       approach_axis (rotation (pose grasp)) = vneg normal).
Proof.
  intros SUCCESS sim pos normal num_rotations s Hn.
  destruct (grasp_frame_approach_axis normal Hn) as [Hu Hax].
  assert (Hyaw : forall yaw : R,
             unit_rotation (rot_mul (grasp_frame normal) (from_euler_z yaw)) /\
             approach_axis (rot_mul (grasp_frame normal) (from_euler_z yaw))
             = vneg normal).
  { intros yaw.
    destruct (yaw_keeps_approach_axis (grasp_frame normal) yaw Hu) as [H1 H2].
    split; [exact H1 |]. rewrite H2. exact Hax. }
  split; [exact Hyaw |].
  intros Hin. unfold sweep_outcomes in Hin. rewrite evaluate_unfold.
  pose proof (length_sweep_attempts sim pos normal num_rotations s) as Hlen.
  destruct (select_grasp_success SUCCESS (grasp_frame normal) pos
              (linspace 0 PI num_rotations)
              (sweep_attempts sim pos normal num_rotations s))
    as (m & st & n & yaw & w & label & -> & _).
  { rewrite length_linspace. symmetry. exact Hlen. }
  { exact Hin. }
  eexists _, label, _. split; [reflexivity |].
  cbn [pose translation rotation]. split; [reflexivity |]. apply Hyaw.
Qed.

Lemma successful_grasp_approaches_against_normal_witness :
  exists (grasp : Grasp) (label : Z) (s' : unit),
    evaluate_grasp_point 1 always_succeeds origin up_normal 12 tt
    = Some ((grasp, label), s') /\
    approach_axis (rotation (pose grasp)) = mkVec3 (- 0) (- 0) (- 1).
Proof.
  destruct (successful_grasp_approaches_against_normal 1 always_succeeds
              origin up_normal 12 tt) as [_ H].
  - unfold dot, up_normal. cbn [vx vy vz]. ring.
  - destruct H as (grasp & label & s' & He & _ & _ & Hax).
    + left. reflexivity.
    + exists grasp, label, s'. split; [exact He | exact Hax].
Defined.

(** X3. The yaw angles are evenly spaced from 0 to pi, both ends included.
    For a unit normal, the orientation [store_sample] writes to the second
    rotation channel of a grasp found at some yaw is the orientation of the
    sweep at that yaw plus pi; so the last attempt of a sweep is made with
    the orientation stored as the twin of the first. *)
Theorem second_channel_is_yaw_plus_pi :
  forall (normal : Vec3) (yaw : R) (num_rotations : nat),
    dot normal normal = 1 ->
    (2 <= num_rotations)%nat ->
    (forall k : nat,
        (k < num_rotations)%nat ->
        nth_error (linspace 0 PI num_rotations) k
        = Some (INR k * PI / INR (num_rotations - 1))) /\
    nth_error (linspace 0 PI num_rotations) 0 = Some 0 /\
    nth_error (linspace 0 PI num_rotations) (num_rotations - 1) = Some PI /\
    as_quat (rot_mul (rot_mul (grasp_frame normal) (from_euler_z yaw)) R_z180)
    = as_quat (rot_mul (grasp_frame normal) (from_euler_z (yaw + PI))) /\
    as_quat (rot_mul (rot_mul (grasp_frame normal) (from_euler_z 0)) R_z180)
    = as_quat (rot_mul (grasp_frame normal) (from_euler_z PI)).
Proof.
  intros normal yaw n Hn Hnum.
  destruct (grasp_frame_approach_axis normal Hn) as [Hu _].
  assert (Hden : INR (n - 1) <> 0).
  { apply not_0_INR. lia. }
  assert (Hk : forall k : nat,
             (k < n)%nat ->
             nth_error (linspace 0 PI n) k = Some (INR k * PI / INR (n - 1))).
  { intros k Hlt. rewrite nth_linspace by lia. f_equal. field. exact Hden. }
  assert (Htwin : forall a : R,
             as_quat (rot_mul (rot_mul (grasp_frame normal) (from_euler_z a))
                        R_z180)
             = as_quat (rot_mul (grasp_frame normal) (from_euler_z (a + PI)))).
  { intros a. rewrite half_turn_is_yaw_PI. apply yaw_then_yaw. exact Hu. }
  split; [exact Hk |]. split; [| split; [| split]].
  - rewrite Hk by lia. f_equal. cbn [INR]. field. exact Hden.
  - rewrite Hk by lia. f_equal. field. exact Hden.
  - apply Htwin.
  - rewrite Htwin. replace (0 + PI) with PI by ring. reflexivity.
Qed.

Lemma second_channel_is_yaw_plus_pi_witness :
  nth_error (linspace 0 PI 12) 11 = Some PI /\
  as_quat (rot_mul (rot_mul (grasp_frame up_normal) (from_euler_z 0)) R_z180)
  = as_quat (rot_mul (grasp_frame up_normal) (from_euler_z PI)).
Proof.
  destruct (second_channel_is_yaw_plus_pi up_normal 0 12)
    as (_ & _ & Hlast & _ & Htwin).
  - unfold dot, up_normal. cbn [vx vy vz]. ring.
  - lia.
  - split; [exact Hlast | exact Htwin].
Defined.

(** X4. For a unit normal the frame handed to [Rotation.from_dcm] never
    collapses: the reference axis is swapped for Y whenever the approach
    axis is within the tolerance of X, so the second axis, a cross product,
    keeps a squared length above 2e-4 and at most 1, and the first axis is
    exactly as long. *)
Theorem grasp_frame_axes_never_vanish :
  forall normal : Vec3,
    dot normal normal = 1 ->
    let '(x_axis, y_axis, z_axis) := grasp_frame_axes normal in
    2 / 10000 < dot y_axis y_axis <= 1 /\
    dot x_axis x_axis = dot y_axis y_axis /\
    z_axis = vneg normal /\
    dot x_axis y_axis = 0 /\ dot y_axis z_axis = 0 /\ dot x_axis z_axis = 0.
Proof.
  intros normal Hn.
  pose proof (grasp_frame_axes_nonzero normal Hn) as Hlen.
  pose proof (grasp_frame_axes_orthogonal normal) as Hort.
  destruct (grasp_frame_axes normal) as [[x_axis y_axis] z_axis].
  destruct Hlen as [Hy Hx]. destruct Hort as (Hz & Hxy & Hyz & Hxz & _).
  repeat split; try assumption; apply Hy.
Qed.

Lemma grasp_frame_axes_never_vanish_witness :
  let '(x_axis, y_axis, _) := grasp_frame_axes up_normal in
  2 / 10000 < dot y_axis y_axis <= 1 /\ dot x_axis x_axis = dot y_axis y_axis.
Proof.
  pose proof (grasp_frame_axes_never_vanish up_normal) as H.
  destruct (grasp_frame_axes up_normal) as [[x_axis y_axis] z_axis].
  destruct H as (Hy & Hx & _).
  - unfold dot, up_normal. cbn [vx vy vz]. ring.
  - split; [exact Hy | exact Hx].
Defined.

(** X5. With a simulation whose [restore_state] brings back the saved
    state, the attempts of a sweep are independent trials from that state,
    one per yaw angle; the grasp and the label returned do not depend on
    what the simulation went through before the call. *)
Theorem attempts_start_from_saved_state :
  forall (SUCCESS : Z) (sim : Simulation) (baseline : SimState sim)
         (pos normal : Vec3) (num_rotations : nat) (s1 s2 : SimState sim),
    (forall s, restore_state sim s = baseline) ->
    sweep_attempts sim pos normal num_rotations s1
    = map (fun yaw =>
             fst (test_grasp sim
                    (mkTransform
                       (rot_mul (grasp_frame normal) (from_euler_z yaw)) pos)
                    baseline))
        (linspace 0 PI num_rotations) /\
    option_map fst
      (evaluate_grasp_point SUCCESS sim pos normal num_rotations s1)
    = option_map fst
        (evaluate_grasp_point SUCCESS sim pos normal num_rotations s2).
Proof.
  intros SUCCESS sim baseline pos normal n s1 s2 Hrestore.
  assert (Hs : forall s,
             sweep_attempts sim pos normal n s
             = map (fun yaw =>
                      fst (test_grasp sim
                             (mkTransform
                                (rot_mul (grasp_frame normal)
                                   (from_euler_z yaw)) pos)
                             baseline))
                 (linspace 0 PI n)).
  { intros s. unfold sweep_attempts.
    apply sweep_from_baseline. exact Hrestore. }
  split; [apply Hs |].
  rewrite !evaluate_unfold, (Hs s1), (Hs s2).
  destruct (select_grasp SUCCESS (grasp_frame normal) pos (linspace 0 PI n) _);
    reflexivity.
Qed.

Lemma attempts_start_from_saved_state_witness :
  option_map fst
    (evaluate_grasp_point 1 first_attempt_holds origin up_normal 12 0%nat)
  = option_map fst
      (evaluate_grasp_point 1 first_attempt_holds origin up_normal 12 7%nat).
Proof.
  refine (proj2 (attempts_start_from_saved_state 1 first_attempt_holds 0%nat
                   origin up_normal 12 0%nat 7%nat _)).
  intros s. reflexivity.
Defined.

(** X6. [store_sample] read voxel by voxel, for any pool: either no pair of
    the pool in range rounds to the voxel, and the mask, the quality, the
    width and both rotation channels are zero there; or the voxel lies in
    the grid and all five values are those of one and the same pair, the
    last of the pool to round there.  So the mask only takes the values 0
    and 1, the quality too, and nothing is stored where the mask is 0. *)
Theorem stored_voxel_is_zero_or_last_writer :
  forall (SUCCESS : Z) (tsdf : TSDFVolume) (grasps : list Grasp)
         (labels : list Z) (i : Index),
    let v := store_sample SUCCESS tsdf grasps labels in
    let pool := combine grasps labels in
    ((untouched v i /\
      forall g l, In (g, l) pool ->
                  out_of_range tsdf (voxel_index tsdf g) = false ->
                  voxel_index tsdf g <> i)
     \/
     (exists pre g l post,
         pool = pre ++ (g, l) :: post /\
         voxel_index tsdf g = i /\
         out_of_range tsdf i = false /\
         (forall g' l', In (g', l') post -> voxel_index tsdf g' <> i) /\
         holds SUCCESS v i g l)) /\
    (mask v i = 0 \/ mask v i = 1) /\
    (qual_vol v i = 0 \/ qual_vol v i = 1) /\
    (mask v i = 0 -> untouched v i) /\
    (mask v i = 1 -> out_of_range tsdf i = false).
Proof.
  intros SUCCESS tsdf gs ls i. cbv zeta.
  destruct (store_sample_voxel SUCCESS tsdf gs ls i)
    as [(Hnone & Hz) | (pre & g & l & post & Hpool & Hw & Hpost & Hh)];
    cbv zeta in *.
  - pose proof Hz as (M & Q & _).
    split; [left; split; [exact Hz | apply written_at_nil; exact Hnone] |].
    split; [left; exact M |]. split; [left; exact Q |].
    split; [intros _; exact Hz |].
    intros H1. rewrite M in H1. exfalso. exact (R1_neq_R0 (eq_sym H1)).
  - apply writes_at_true in Hw. destruct Hw as [Ho Ei].
    pose proof Hh as (M & Q & _).
    assert (Hin : out_of_range tsdf i = false) by (rewrite <- Ei; exact Ho).
    split.
    { right. exists pre, g, l, post. split; [exact Hpool |].
      split; [exact Ei |]. split; [exact Hin |]. split; [| exact Hh].
      intros g' l' Hin' E.
      apply (proj1 (written_at_nil tsdf i post) Hpost g' l' Hin');
        [rewrite E; exact Hin | exact E]. }
    split; [right; exact M |].
    split.
    { rewrite Q. unfold label2quality.
      destruct (l =? SUCCESS)%Z; [right | left]; reflexivity. }
    split; [| intros _; exact Hin].
    intros H0. rewrite M in H0. exfalso. exact (R1_neq_R0 H0).
Qed.

(** X7. When the grasps of the pool have unit quaternions, the two rotation
    channels belong together at every voxel of the sample, overwritten or
    not: the second holds the first composed with the half turn about z, the
    quaternion (0, 0, 1, 0), and the first is recovered from the second by
    composing once more and flipping the sign. *)
Theorem rotation_channels_belong_together :
  forall (SUCCESS : Z) (tsdf : TSDFVolume) (grasps : list Grasp)
         (labels : list Z) (i : Index),
    (forall g, In g grasps -> unit_rotation (rotation (pose g))) ->
    let v := store_sample SUCCESS tsdf grasps labels in
    rot_vol1 v i = compose_quat (rot_vol0 v i) (mkQuat 0 0 1 0) /\
    rot_vol0 v i = quat_neg (compose_quat (rot_vol1 v i) (mkQuat 0 0 1 0)) /\
    (mask v i = 1 ->
     unit_rotation (mkRotation (rot_vol0 v i)) /\
     unit_rotation (mkRotation (rot_vol1 v i)) /\
     approach_axis (mkRotation (rot_vol1 v i))
     = approach_axis (mkRotation (rot_vol0 v i))).
Proof.
  intros SUCCESS tsdf gs ls i Hunit. cbv zeta.
  destruct (store_sample_voxel SUCCESS tsdf gs ls i)
    as [(_ & M & _ & R0 & R1 & _)
       | (pre & g & l & post & Hpool & _ & _ & (M & _ & R0 & R1 & _))];
    cbv zeta in *.
  - rewrite R0, R1. split; [apply quat_eq; cbn; ring |].
    split; [apply quat_eq; cbn; ring |].
    intros H1. rewrite M in H1. exfalso. exact (R1_neq_R0 (eq_sym H1)).
  - assert (Hg : unit_rotation (rotation (pose g))).
    { apply Hunit. apply (in_combine_l gs ls g l). rewrite Hpool.
      apply in_or_app. right. left. reflexivity. }
    destruct (rot_mul_unit (rotation (pose g)) R_z180 Hg half_turn_unit)
      as [E Hu].
    unfold R_z180 in E at 2. rewrite half_turn_about_z in E.
    rewrite R0, R1, E.
    split; [reflexivity |].
    split.
    { destruct (as_quat (rotation (pose g))) as [x y z w].
      apply quat_eq; cbn; ring. }
    intros _. split; [exact Hg |].
    split; [unfold unit_rotation; cbn [as_quat]; rewrite <- E; exact Hu |].
    rewrite <- E.
    replace (mkRotation (as_quat (rot_mul (rotation (pose g)) R_z180)))
      with (rot_mul (rotation (pose g)) R_z180) by reflexivity.
    rewrite half_turn_is_yaw_PI.
    destruct (yaw_keeps_approach_axis (rotation (pose g)) PI Hg) as [_ Hax].
    rewrite Hax. unfold approach_axis, as_dcm. reflexivity.
Qed.

Lemma rotation_channels_belong_together_witness :
  rot_vol1 (store_sample 1 unit_grid [grasp_at origin (5 / 100)] [1%Z])
    (0, 0, 0)%Z
  = compose_quat
      (rot_vol0 (store_sample 1 unit_grid [grasp_at origin (5 / 100)] [1%Z])
         (0, 0, 0)%Z)
      (mkQuat 0 0 1 0).
Proof.
  refine (proj1 (rotation_channels_belong_together 1 unit_grid
                   [grasp_at origin (5 / 100)] [1%Z] (0, 0, 0)%Z _)).
  intros g [<- | []]. exact rot_identity_unit.
Defined.

(** X8. The order of the pool matters only through collisions: when the
    pairs of the pool that are in range round to voxels of their own, any
    pool with the same pairs, in whatever order, gives the same five
    volumes. *)
Theorem separate_grasps_store_in_any_order :
  forall (SUCCESS : Z) (tsdf : TSDFVolume) (grasps1 grasps2 : list Grasp)
         (labels1 labels2 : list Z) (i : Index),
    (forall e, In e (combine grasps1 labels1)
               <-> In e (combine grasps2 labels2)) ->
    (forall e1 e2,
        In e1 (combine grasps1 labels1) -> In e2 (combine grasps1 labels1) ->
        out_of_range tsdf (voxel_index tsdf (fst e1)) = false ->
        voxel_index tsdf (fst e1) = voxel_index tsdf (fst e2) ->
        e1 = e2) ->
    let v1 := store_sample SUCCESS tsdf grasps1 labels1 in
    let v2 := store_sample SUCCESS tsdf grasps2 labels2 in
    mask v1 i = mask v2 i /\ qual_vol v1 i = qual_vol v2 i /\
    rot_vol0 v1 i = rot_vol0 v2 i /\ rot_vol1 v1 i = rot_vol1 v2 i /\
    width_vol v1 i = width_vol v2 i.
Proof.
  intros SUCCESS tsdf gs1 gs2 ls1 ls2 i Hsame Hsep. cbv zeta.
  destruct (store_sample_voxel SUCCESS tsdf gs1 ls1 i)
    as [(Hnone1 & M1 & Q1 & A1 & B1 & W1)
       | (pre1 & g1 & l1 & post1 & Hpool1 & Hw1 & _ & (M1 & Q1 & A1 & B1 & W1))];
    destruct (store_sample_voxel SUCCESS tsdf gs2 ls2 i)
      as [(Hnone2 & M2 & Q2 & A2 & B2 & W2)
         | (pre2 & g2 & l2 & post2 & Hpool2 & Hw2 & _ & (M2 & Q2 & A2 & B2 & W2))];
    cbv zeta in *.
  - rewrite M1, M2, Q1, Q2, A1, A2, B1, B2, W1, W2. repeat split.
  - exfalso. apply writes_at_true in Hw2. destruct Hw2 as [Ho Ei].
    apply (proj1 (written_at_nil tsdf i _) Hnone1 g2 l2); [| exact Ho | exact Ei].
    apply Hsame. rewrite Hpool2. apply in_or_app. right. left. reflexivity.
  - exfalso. apply writes_at_true in Hw1. destruct Hw1 as [Ho Ei].
    apply (proj1 (written_at_nil tsdf i _) Hnone2 g1 l1); [| exact Ho | exact Ei].
    apply Hsame. rewrite Hpool1. apply in_or_app. right. left. reflexivity.
  - apply writes_at_true in Hw1, Hw2.
    destruct Hw1 as [Ho1 Ei1]. destruct Hw2 as [Ho2 Ei2].
    assert (E : (g1, l1) = (g2, l2)).
    { apply Hsep; cbn [fst].
      - rewrite Hpool1. apply in_or_app. right. left. reflexivity.
      - apply Hsame. rewrite Hpool2. apply in_or_app. right. left. reflexivity.
      - exact Ho1.
      - rewrite Ei1, Ei2. reflexivity. }
    inversion E; subst g2 l2.
    rewrite M1, M2, Q1, Q2, A1, A2, B1, B2, W1, W2. repeat split.
Qed.

Lemma separate_grasps_store_in_any_order_witness :
  let a := grasp_at (mkVec3 (IZR 0) (IZR 0) (IZR 0)) (5 / 100) in
  let b := grasp_at (mkVec3 (IZR 1) (IZR 0) (IZR 0)) (4 / 100) in
  qual_vol (store_sample 1 unit_grid [a; b] [1%Z; 0%Z]) (1, 0, 0)%Z
  = qual_vol (store_sample 1 unit_grid [b; a] [0%Z; 1%Z]) (1, 0, 0)%Z.
Proof.
  intros a b.
  refine (proj1 (proj2 (separate_grasps_store_in_any_order 1 unit_grid
                          [a; b] [b; a] [1%Z; 0%Z] [0%Z; 1%Z] (1, 0, 0)%Z
                          _ _))).
  - intros e. cbn [combine In]. tauto.
  - assert (Ha : voxel_index unit_grid a = (0, 0, 0)%Z)
      by apply voxel_index_unit_grid.
    assert (Hb : voxel_index unit_grid b = (1, 0, 0)%Z)
      by apply voxel_index_unit_grid.
    intros e1 e2 H1 H2 _ E. cbn [combine In] in H1, H2.
    destruct H1 as [<- | [<- | []]]; destruct H2 as [<- | [<- | []]];
      cbn [fst] in E; try reflexivity;
      rewrite Ha, Hb in E; discriminate.
Defined.

(** X9. Which positions are stored: the voxel index of a grasp is within
    half a voxel of its position divided by the voxel size, on each axis; a
    pair that passes the guard of line 161 has that position between -1/2
    and [resolution - 1/2] on each axis, and every position strictly
    inside these bounds passes. *)
Theorem stored_positions_form_a_box :
  forall (tsdf : TSDFVolume) (grasp : Grasp),
    let t := vdiv (translation (pose grasp)) (voxel_size tsdf) in
    let top := IZR (resolution tsdf) - 1 / 2 in
    let '(i, j, k) := voxel_index tsdf grasp in
    (Rabs (vx t - IZR i) <= 1 / 2 /\ Rabs (vy t - IZR j) <= 1 / 2 /\
     Rabs (vz t - IZR k) <= 1 / 2) /\
    (out_of_range tsdf (i, j, k) = false ->
     - (1 / 2) <= vx t <= top /\ - (1 / 2) <= vy t <= top /\
     - (1 / 2) <= vz t <= top) /\
    (- (1 / 2) < vx t < top /\ - (1 / 2) < vy t < top /\
     - (1 / 2) < vz t < top ->
     out_of_range tsdf (i, j, k) = false).
Proof.
  intros tsdf grasp. cbv zeta.
  unfold voxel_index, to_voxel_coordinates. cbn [pose translation].
  set (t := vdiv (translation (pose grasp)) (voxel_size tsdf)).
  pose proof (np_round_near (vx t)) as Hx.
  pose proof (np_round_near (vy t)) as Hy.
  pose proof (np_round_near (vz t)) as Hz.
  split; [| split].
  - repeat split; apply Rabs_le; lra.
  - intros H. apply in_range_iff in H. destruct H as (Hi & Hj & Hk).
    repeat split;
      first [ apply (round_in_interval _ _ Hi)
            | apply (round_in_interval _ _ Hj)
            | apply (round_in_interval _ _ Hk) ].
  - intros (Hi & Hj & Hk). apply in_range_iff.
    split; [| split]; apply interval_in_round; assumption.
Qed.

(** X10. The candidate loop has no exit but a full pool: with a simulation
    that never reports the success code and a quota of at least one, the
    pool stops growing at half the quota and the loop is still running
    after any number of candidates; no sample is stored for the scene. *)
Theorem candidate_loop_starves_without_success :
  forall (SUCCESS : Z) (sim : Simulation) (rng : RandomSource)
         (tsdf : TSDFVolume) (cloud : PointCloud) (finger_depth : R)
         (num_grasps_per_scene fuel : nat) (w : World sim rng),
    draws_in_range rng ->
    points cloud <> [] ->
    length (normals cloud) = length (points cloud) ->
    0 <= finger_depth ->
    (forall T s, fst (fst (test_grasp sim T s)) <> SUCCESS) ->
    (1 <= num_grasps_per_scene)%nat ->
    collect SUCCESS sim rng fuel cloud finger_depth num_grasps_per_scene
      empty_pool w = OutOfFuel /\
    label_scene SUCCESS sim rng fuel tsdf cloud finger_depth
      num_grasps_per_scene w = OutOfFuel.
Proof.
  intros SUCCESS sim rng tsdf cloud fd n fuel w Hrng Hne Hlen Hfd Hnever Hn.
  assert (Hrun : collect SUCCESS sim rng fuel cloud fd n empty_pool w
                 = OutOfFuel).
  { apply collect_starves; try assumption; cbn; lia. }
  split; [exact Hrun |].
  unfold label_scene. rewrite Hrun.
  destruct (points cloud); [congruence | reflexivity].
Qed.

Lemma candidate_loop_starves_without_success_witness :
  collect 2 never_succeeds lowest_draws 1000 one_point_cloud (5 / 100) 4
    empty_pool (tt, tt) = OutOfFuel.
Proof.
  refine (proj1 (candidate_loop_starves_without_success 2 never_succeeds
                   lowest_draws unit_grid one_point_cloud (5 / 100) 4 1000
                   (tt, tt) lowest_draws_in_range _ _ _ _ _)).
  - discriminate.
  - reflexivity.
  - lra.
  - intros T s. cbn.
    destruct (Rlt_dec (qx (as_quat (rotation T))) (1 / 2)); discriminate.
  - lia.
Defined.

(** X11. The tail of a scene raises nothing, whatever the simulation
    reports: an empty cloud is skipped before any draw, leaving the
    generator and the simulation as they were (without the guard of line
    61 the first draw would raise), and with a cloud that has a normal for
    every point each candidate is drawn and evaluated. *)
Theorem scene_labelling_never_raises :
  forall (SUCCESS : Z) (sim : Simulation) (rng : RandomSource)
         (tsdf : TSDFVolume) (cloud : PointCloud) (finger_depth : R)
         (num_grasps_per_scene fuel : nat) (w : World sim rng),
    draws_in_range rng ->
    length (normals cloud) = length (points cloud) ->
    0 <= finger_depth ->
    label_scene SUCCESS sim rng fuel tsdf cloud finger_depth
      num_grasps_per_scene w <> Raised /\
    (points cloud = [] ->
     label_scene SUCCESS sim rng fuel tsdf cloud finger_depth
       num_grasps_per_scene w = Returned (None, w) /\
     forall g, sample_grasp_point rng cloud finger_depth g = None).
Proof.
  intros SUCCESS sim rng tsdf cloud fd n fuel w Hrng Hlen Hfd.
  split.
  - destruct (points cloud) as [| p ps] eqn:Ep;
      [unfold label_scene; rewrite Ep; discriminate |].
    assert (Hne : points cloud <> []) by (rewrite Ep; discriminate).
    rewrite <- Ep in Hlen.
    pose proof (collect_never_raises SUCCESS sim rng n cloud fd Hrng Hne Hlen
                  Hfd fuel empty_pool w) as Hrun.
    unfold label_scene. rewrite Ep.
    destruct (collect SUCCESS sim rng fuel cloud fd n empty_pool w)
      as [[pool w'] | |]; [discriminate | contradiction | discriminate].
  - intros Ep. unfold label_scene, sample_grasp_point. rewrite Ep.
    split; reflexivity.
Qed.

Lemma scene_labelling_never_raises_witness :
  label_scene 1 holds_above round_robin 2 unit_grid two_point_cloud (5 / 100)
    2 (0%nat, tt) <> Raised.
Proof.
  refine (proj1 (scene_labelling_never_raises 1 holds_above round_robin
                   unit_grid two_point_cloud (5 / 100) 2 2 (0%nat, tt)
                   MixedScene.round_robin_in_range _ _)).
  - reflexivity.
  - lra.
Defined.

(** X12. A stored sample labels at most [num_grasps_per_scene] voxels, and
    at most [num_grasps_per_scene // 2] of them with quality 0: distinct
    marked voxels take their values from distinct pairs of the pool. *)
Theorem stored_sample_keeps_label_budget :
  forall (SUCCESS : Z) (sim : Simulation) (rng : RandomSource)
         (tsdf : TSDFVolume) (cloud : PointCloud) (finger_depth : R)
         (num_grasps_per_scene fuel : nat) (w w' : World sim rng)
         (v : Volumes) (voxels : list Index),
    label_scene SUCCESS sim rng fuel tsdf cloud finger_depth
      num_grasps_per_scene w = Returned (Some v, w') ->
    NoDup voxels ->
    (forall i, In i voxels -> mask v i = 1) ->
    (length voxels <= num_grasps_per_scene)%nat /\
    ((forall i, In i voxels -> qual_vol v i = 0) ->
     (length voxels <= num_grasps_per_scene / 2)%nat).
Proof.
  intros SUCCESS sim rng tsdf cloud fd n fuel w w' v voxels Hscene Hnd Hm.
  destruct (label_scene_returned _ _ _ _ _ _ _ _ _ _ _ Hscene)
    as (pool & Hrun & ->).
  destruct (collect_inv SUCCESS sim rng n cloud fd fuel empty_pool w pool w'
              (empty_pool_inv SUCCESS n) Hrun)
    as ((Hlen & Hneg & _ & Hb) & Hfull).
  split.
  - pose proof (marked_voxels_bounded SUCCESS tsdf _ _ voxels Hnd Hm) as H.
    rewrite length_combine in H. lia.
  - intros Hq.
    pose proof (negative_voxels_bounded SUCCESS tsdf (grasps pool)
                  (labels pool) voxels Hnd) as H.
    rewrite <- Hneg in H. eapply Nat.le_trans; [apply H | exact Hb].
    intros i Hi. split; [apply Hm, Hi | apply Hq, Hi].
Qed.

Lemma stored_sample_keeps_label_budget_witness :
  (length [(0, 0, 0)%Z; (0, 0, 3)%Z] <= 2)%nat /\
  exists (v : Volumes) (w' : World holds_above round_robin),
    label_scene 1 holds_above round_robin 2 unit_grid two_point_cloud
      (5 / 100) 2 (0%nat, tt) = Returned (Some v, w') /\
    mask v (0, 0, 0)%Z = 1 /\ mask v (0, 0, 3)%Z = 1.
Proof.
  destruct MixedScene.mixed_scene as (v & w' & Hscene & M1 & _ & M2 & _).
  split.
  - refine (proj1 (stored_sample_keeps_label_budget 1 holds_above round_robin
                     unit_grid two_point_cloud (5 / 100) 2 2 (0%nat, tt) w' v
                     [(0, 0, 0)%Z; (0, 0, 3)%Z] Hscene _ _)).
    + constructor; [intros [E | []]; discriminate |].
      constructor; [intros [] | constructor].
    + intros i [<- | [<- | []]]; assumption.
  - exists v, w'. split; [exact Hscene |]. split; assumption.
Defined.

(** X13. Where a stored positive comes from.  With unit normals in the
    cloud, a voxel of a stored sample with quality 1 is the voxel of a
    vertex of the cloud moved along its normal by a depth between
    [-0.2 * finger_depth] and [1.2 * finger_depth]; the first rotation
    channel holds one of the twelve orientations of the sweep about that
    normal, the second the orientation a half turn further, and both
    approach against the normal. *)
Theorem stored_positive_comes_from_the_cloud :
  forall (SUCCESS : Z) (sim : Simulation) (rng : RandomSource)
         (tsdf : TSDFVolume) (cloud : PointCloud) (finger_depth : R)
         (num_grasps_per_scene fuel : nat) (w w' : World sim rng)
         (v : Volumes) (i : Index),
    draws_in_range rng ->
    length (normals cloud) = length (points cloud) ->
    0 <= finger_depth ->
    (forall normal, In normal (normals cloud) -> dot normal normal = 1) ->
    label_scene SUCCESS sim rng fuel tsdf cloud finger_depth
      num_grasps_per_scene w = Returned (Some v, w') ->
    qual_vol v i = 1 ->
    exists (point normal : Vec3) (d yaw : R),
      In (point, normal) (combine (points cloud) (normals cloud)) /\
      - (2 / 10) * finger_depth <= d <= (12 / 10) * finger_depth /\
      (let t := vdiv (vadd point (vscale normal d)) (voxel_size tsdf) in
       i = (np_round (vx t), np_round (vy t), np_round (vz t))) /\
      out_of_range tsdf i = false /\
      In yaw (linspace 0 PI 12) /\
      rot_vol0 v i
      = as_quat (rot_mul (grasp_frame normal) (from_euler_z yaw)) /\
      rot_vol1 v i
      = as_quat (rot_mul (grasp_frame normal) (from_euler_z (yaw + PI))) /\
      approach_axis (mkRotation (rot_vol0 v i)) = vneg normal /\
      approach_axis (mkRotation (rot_vol1 v i)) = vneg normal.
Proof.
  intros SUCCESS sim rng tsdf cloud fd n fuel w w' v i Hrng Hlen Hfd Hunit
    Hscene Hq.
  destruct (label_scene_returned _ _ _ _ _ _ _ _ _ _ _ Hscene)
    as (pool & Hrun & ->).
  pose proof (collect_all SUCCESS sim rng n cloud fd
                (from_cloud SUCCESS cloud fd)
                (candidate_from_cloud SUCCESS sim rng cloud fd Hrng Hlen Hfd)
                fuel empty_pool w pool w' eq_refl (Forall_nil _) Hrun)
    as Hall.
  destruct (store_sample_voxel SUCCESS tsdf (grasps pool) (labels pool) i)
    as [(_ & _ & Q & _)
       | (pre & g & l & post & Hpool & Hw & _ & (_ & Q & A & B & _))];
    cbv zeta in *.
  { rewrite Q in Hq. exfalso. exact (R1_neq_R0 (eq_sym Hq)). }
  assert (Hl : l = SUCCESS).
  { rewrite Q in Hq. unfold label2quality in Hq.
    destruct (Z.eqb_spec l SUCCESS) as [E | _]; [exact E |].
    exfalso. exact (R1_neq_R0 (eq_sym Hq)). }
  apply writes_at_true in Hw. destruct Hw as [Ho Ei].
  assert (Hin : In (g, l) (combine (grasps pool) (labels pool))).
  { rewrite Hpool. apply in_or_app. right. left. reflexivity. }
  destruct (proj1 (Forall_forall _ _) Hall _ Hin)
    as (point & normal & d & Hpn & Hd & Ht & _ & Hs).
  cbn [fst snd] in *. destruct (Hs Hl) as (yaw & Hy & Hr).
  assert (Hn : dot normal normal = 1).
  { apply Hunit. apply (in_combine_r _ _ _ _ Hpn). }
  destruct (grasp_frame_approach_axis normal Hn) as [Hu Hax].
  exists point, normal, d, yaw.
  split; [exact Hpn |]. split; [exact Hd |].
  split.
  { cbv zeta. rewrite <- Ei, <- Ht. reflexivity. }
  split; [rewrite <- Ei; exact Ho |].
  split; [exact Hy |].
  assert (E0 : rot_vol0 (store_sample SUCCESS tsdf (grasps pool) (labels pool)) i
               = as_quat (rot_mul (grasp_frame normal) (from_euler_z yaw)))
    by (rewrite A, Hr; reflexivity).
  assert (E1 : rot_vol1 (store_sample SUCCESS tsdf (grasps pool) (labels pool)) i
               = as_quat (rot_mul (grasp_frame normal)
                            (from_euler_z (yaw + PI)))).
  { rewrite B, Hr, half_turn_is_yaw_PI. apply yaw_then_yaw. exact Hu. }
  split; [exact E0 |]. split; [exact E1 |].
  rewrite E0, E1.
  destruct (yaw_keeps_approach_axis (grasp_frame normal) yaw Hu) as [_ H0].
  destruct (yaw_keeps_approach_axis (grasp_frame normal) (yaw + PI) Hu)
    as [_ H1].
  split.
  - transitivity (approach_axis (rot_mul (grasp_frame normal)
                                   (from_euler_z yaw)));
      [reflexivity | rewrite H0; exact Hax].
  - transitivity (approach_axis (rot_mul (grasp_frame normal)
                                   (from_euler_z (yaw + PI))));
      [reflexivity | rewrite H1; exact Hax].
Qed.

Lemma stored_positive_comes_from_the_cloud_witness :
  exists (v : Volumes) (normal : Vec3),
    In normal (normals two_point_cloud) /\
    approach_axis (mkRotation (rot_vol0 v (0, 0, 3)%Z)) = vneg normal /\
    approach_axis (mkRotation (rot_vol1 v (0, 0, 3)%Z)) = vneg normal.
Proof.
  destruct MixedScene.mixed_scene as (v & w' & Hscene & _ & _ & _ & Q2).
  destruct (stored_positive_comes_from_the_cloud 1 holds_above round_robin
              unit_grid two_point_cloud (5 / 100) 2 2 (0%nat, tt) w' v
              (0, 0, 3)%Z MixedScene.round_robin_in_range)
    as (point & normal & d & yaw & Hpn & _ & _ & _ & _ & _ & _ & H0 & H1).
  - reflexivity.
  - lra.
  - intros normal [<- | [<- | []]]; unfold dot, up_normal; cbn [vx vy vz];
      ring.
  - exact Hscene.
  - exact Q2.
  - exists v, normal. split; [exact (in_combine_r _ _ _ _ Hpn) |].
    split; [exact H0 | exact H1].
Defined.

(** X14. What a stored negative holds.  When the simulation reports no
    outcome coded above success, a marked voxel of a stored sample with
    quality 0 carries no orientation and no opening: the first rotation
    channel holds the identity quaternion (0, 0, 0, 1), the second the half
    turn about z, (0, 0, 1, 0), and the width is 0. *)
Theorem stored_negative_is_identity_grasp :
  forall (SUCCESS : Z) (sim : Simulation) (rng : RandomSource)
         (tsdf : TSDFVolume) (cloud : PointCloud) (finger_depth : R)
         (num_grasps_per_scene fuel : nat) (w w' : World sim rng)
         (v : Volumes) (i : Index),
    (forall T s, (fst (fst (test_grasp sim T s)) <= SUCCESS)%Z) ->
    label_scene SUCCESS sim rng fuel tsdf cloud finger_depth
      num_grasps_per_scene w = Returned (Some v, w') ->
    mask v i = 1 ->
    qual_vol v i = 0 ->
    rot_vol0 v i = mkQuat 0 0 0 1 /\
    rot_vol1 v i = mkQuat 0 0 1 0 /\
    width_vol v i = 0.
Proof.
  intros SUCCESS sim rng tsdf cloud fd n fuel w w' v i Hcode Hscene Hm Hq.
  destruct (label_scene_returned _ _ _ _ _ _ _ _ _ _ _ Hscene)
    as (pool & Hrun & ->).
  pose proof (collect_all SUCCESS sim rng n cloud fd
                (fun e => snd e <> SUCCESS ->
                          rotation (pose (fst e)) = rot_identity /\
                          width (fst e) = 0)
                (candidate_negative_is_identity SUCCESS sim rng cloud fd Hcode)
                fuel empty_pool w pool w' eq_refl (Forall_nil _) Hrun)
    as Hall.
  destruct (marked_voxel_has_writer SUCCESS tsdf _ _ i Hm)
    as (g & l & Hin & _ & (_ & Q & A & B & W)).
  assert (Hl : l <> SUCCESS).
  { intros E. rewrite Q in Hq. unfold label2quality in Hq.
    rewrite (proj2 (Z.eqb_eq l SUCCESS) E) in Hq. exact (R1_neq_R0 Hq). }
  destruct (proj1 (Forall_forall _ _) Hall _ Hin Hl) as [Hid Hw0].
  cbn [fst] in *.
  rewrite A, B, W, Hid, Hw0.
  destruct (rot_mul_unit rot_identity R_z180 rot_identity_unit half_turn_unit)
    as [E _].
  unfold R_z180 in E at 2. rewrite half_turn_about_z in E.
  rewrite E. split; [reflexivity |]. split; [| reflexivity].
  apply quat_eq; cbn; ring.
Qed.

Lemma stored_negative_is_identity_grasp_witness :
  exists v : Volumes,
    mask v (0, 0, 0)%Z = 1 /\ qual_vol v (0, 0, 0)%Z = 0 /\
    rot_vol0 v (0, 0, 0)%Z = mkQuat 0 0 0 1 /\
    rot_vol1 v (0, 0, 0)%Z = mkQuat 0 0 1 0 /\
    width_vol v (0, 0, 0)%Z = 0.
Proof.
  destruct MixedScene.mixed_scene as (v & w' & Hscene & M1 & Q1 & _).
  exists v. split; [exact M1 |]. split; [exact Q1 |].
  exact (stored_negative_is_identity_grasp 1 holds_above round_robin
           unit_grid two_point_cloud (5 / 100) 2 2 (0%nat, tt) w' v
           (0, 0, 0)%Z MixedScene.holds_above_codes Hscene M1 Q1).
Defined.

(** X15. The guard of line 61 tests the points only: with a cloud that has
    points but no normals, the first candidate cannot be drawn (the read
    [normals[idx]] is out of range) and the scene raises. *)
Theorem cloud_without_normals_raises :
  forall (SUCCESS : Z) (sim : Simulation) (rng : RandomSource)
         (tsdf : TSDFVolume) (cloud : PointCloud) (finger_depth : R)
         (num_grasps_per_scene fuel : nat) (w : World sim rng),
    points cloud <> [] ->
    normals cloud = [] ->
    (1 <= num_grasps_per_scene)%nat ->
    (forall g, sample_grasp_point rng cloud finger_depth g = None) /\
    label_scene SUCCESS sim rng (S fuel) tsdf cloud finger_depth
      num_grasps_per_scene w = Raised.
Proof.
  intros SUCCESS sim rng tsdf cloud fd n fuel w Hne Hnone Hn.
  assert (Hs : forall g, sample_grasp_point rng cloud fd g = None).
  { intros g. unfold sample_grasp_point. rewrite Hnone.
    destruct (points cloud) as [| p ps]; [reflexivity |].
    destruct (randint rng (length (p :: ps)) g) as [idx g'].
    destruct (nth_error (p :: ps) idx); [| reflexivity].
    destruct idx; reflexivity. }
  split; [exact Hs |].
  unfold label_scene. destruct (points cloud) as [| p ps]; [congruence |].
  cbn [collect empty_pool grasps length].
  destruct (Nat.ltb_spec 0 n) as [_ | H]; [| lia].
  rewrite Hs. reflexivity.
Qed.

Lemma cloud_without_normals_raises_witness :
  label_scene 1 always_succeeds lowest_draws 4 unit_grid
    (mkPointCloud [origin] []) (5 / 100) 4 (tt, tt) = Raised.
Proof.
  refine (proj2 (cloud_without_normals_raises 1 always_succeeds lowest_draws
                   unit_grid (mkPointCloud [origin] []) (5 / 100) 4 3
                   (tt, tt) _ _ _)).
  - discriminate.
  - reflexivity.
  - lia.
Defined.

(** X16. The label is the greatest outcome code, so a failure coded above
    success hides a success in the same sweep: the grasp returned is the
    one that held, at the yaw selected among the successes and with its
    width, but the label is that failure's code or a greater one; the
    candidate loop counts it as a negative and [store_sample] writes
    quality 0 for it. *)
Theorem higher_outcome_code_hides_success :
  forall (SUCCESS : Z) (sim : Simulation) (pos normal : Vec3)
         (num_rotations : nat) (s : SimState sim) (o : Z),
    let outcomes := sweep_outcomes sim pos normal num_rotations s in
    let widths := sweep_widths sim pos normal num_rotations s in
    In SUCCESS outcomes ->
    In o outcomes ->
    (SUCCESS < o)%Z ->
    exists (m : nat) (yaw : R) (grasp : Grasp) (label : Z) (s' : SimState sim),
      evaluate_grasp_point SUCCESS sim pos normal num_rotations s
      = Some ((grasp, label), s') /\
      nth_error outcomes m = Some SUCCESS /\
      nth_error widths m = Some (width grasp) /\
      nth_error (linspace 0 PI num_rotations) m = Some yaw /\
      pose grasp
      = mkTransform (rot_mul (grasp_frame normal) (from_euler_z yaw)) pos /\
      (o <= label)%Z /\
      is_positive SUCCESS label = false /\
      label2quality SUCCESS label = 0.
Proof.
  intros SUCCESS sim pos normal n s o outcomes widths Hin Ho Hlt.
  subst outcomes widths. unfold sweep_outcomes, sweep_widths in *.
  rewrite evaluate_unfold.
  pose proof (length_sweep_attempts sim pos normal n s) as Hlen.
  set (attempts := sweep_attempts sim pos normal n s) in *.
  destruct (select_grasp_success SUCCESS (grasp_frame normal) pos
              (linspace 0 PI n) attempts)
    as (m & st & k & yaw & w & label & -> & _ & _ & _ & Hy & Ha & Hmax).
  { rewrite length_linspace. symmetry. exact Hlen. }
  { exact Hin. }
  apply np_max_spec in Hmax. destruct Hmax as [_ Hge].
  pose proof (Hge o Ho) as Hol.
  assert (Hneq : (label =? SUCCESS)%Z = false) by (apply Z.eqb_neq; lia).
  exists m, yaw. eexists _, label, _.
  split; [reflexivity |].
  split; [rewrite nth_error_map, Ha; reflexivity |].
  split; [rewrite nth_error_map, Ha; reflexivity |].
  split; [exact Hy |]. split; [reflexivity |]. split; [exact Hol |].
  unfold is_positive, label2quality. rewrite Hneq. split; reflexivity.
Qed.

Lemma higher_outcome_code_hides_success_witness :
  exists (m : nat) (grasp : Grasp) (label : Z) (s' : unit),
    evaluate_grasp_point 0 slips_when_turned origin up_normal 12 tt
    = Some ((grasp, label), s') /\
    nth_error (sweep_outcomes slips_when_turned origin up_normal 12 tt) m
    = Some 0%Z /\
    (1 <= label)%Z.
Proof.
  destruct SweepExample.twelve_outcomes as (Hhd & Hin & _).
  destruct (higher_outcome_code_hides_success 0 slips_when_turned origin
              up_normal 12 tt 1)
    as (m & yaw & grasp & label & s' & He & Hm & _ & _ & _ & Hl & _).
  - change (sweep_outcomes slips_when_turned origin up_normal 12 tt)
      with (sweep_outcomes never_succeeds origin up_normal 12 tt).
    destruct (sweep_outcomes never_succeeds origin up_normal 12 tt);
      [discriminate |].
    inversion Hhd; subst. left. reflexivity.
  - exact Hin.
  - lia.
  - exists m, grasp, label, s'.
    split; [exact He |]. split; [exact Hm | exact Hl].
Defined.

(** X17. When the yaws that succeed form one block of [k] consecutive
    angles starting at index [a], the grasp returned uses the yaw at index
    [a + (k - 1) // 2], the lower middle of the block, with the width
    recorded there: a single success is selected itself, and a sweep of
    twelve successes returns the yaw of index 5, below the middle of the
    range. *)
Theorem single_block_selects_lower_middle :
  forall (SUCCESS : Z) (sim : Simulation) (pos normal : Vec3)
         (num_rotations : nat) (s : SimState sim) (a k b : nat),
    (1 <= k)%nat ->
    map (is_positive SUCCESS) (sweep_outcomes sim pos normal num_rotations s)
    = repeat false a ++ repeat true k ++ repeat false b ->
    exists (yaw : R) (grasp : Grasp) (label : Z) (s' : SimState sim),
      evaluate_grasp_point SUCCESS sim pos normal num_rotations s
      = Some ((grasp, label), s') /\
      Peaks.idx_of_widest_peak
        (map (is_positive SUCCESS)
           (sweep_outcomes sim pos normal num_rotations s))
      = Some (Z.of_nat (a + (k - 1) / 2)) /\
      nth_error (linspace 0 PI num_rotations) (a + (k - 1) / 2) = Some yaw /\
      pose grasp
      = mkTransform (rot_mul (grasp_frame normal) (from_euler_z yaw)) pos /\
      nth_error (sweep_widths sim pos normal num_rotations s)
        (a + (k - 1) / 2)
      = Some (width grasp).
Proof.
  intros SUCCESS sim pos normal n s a k b Hk Hblock.
  unfold sweep_outcomes, sweep_widths in *. rewrite evaluate_unfold.
  pose proof (length_sweep_attempts sim pos normal n s) as Hlen.
  set (attempts := sweep_attempts sim pos normal n s) in *.
  assert (Hin : In SUCCESS (map fst attempts)).
  { apply successes_in. rewrite Hblock. apply in_or_app. right.
    apply in_or_app. left. destruct k as [| k]; [lia |]. left. reflexivity. }
  destruct (select_grasp_success SUCCESS (grasp_frame normal) pos
              (linspace 0 PI n) attempts)
    as (m & st & len & yaw & w & label & -> & Hidx & Hw & Hm & Hy & Ha & _).
  { rewrite length_linspace. symmetry. exact Hlen. }
  { exact Hin. }
  rewrite Hblock in Hw. destruct Hw as [Hrun _].
  apply BlockFacts.block_maximal_run in Hrun. destruct Hrun as [-> ->].
  unfold PeakSpec.run_midpoint in Hm. cbn [fst snd] in Hm. subst m.
  exists yaw. eexists _, label, _.
  split; [reflexivity |]. split; [exact Hidx |]. split; [exact Hy |].
  split; [reflexivity |].
  rewrite nth_error_map, Ha. reflexivity.
Qed.

Lemma single_block_selects_lower_middle_witness :
  exists (yaw : R) (grasp : Grasp) (label : Z) (s' : unit),
    evaluate_grasp_point 1 always_succeeds origin up_normal 12 tt
    = Some ((grasp, label), s') /\
    nth_error (linspace 0 PI 12) 5 = Some yaw /\
    pose grasp
    = mkTransform (rot_mul (grasp_frame up_normal) (from_euler_z yaw)) origin.
Proof.
  destruct (single_block_selects_lower_middle 1 always_succeeds origin
              up_normal 12 tt 0 12 0)
    as (yaw & grasp & label & s' & He & _ & Hy & Hp & _).
  - lia.
  - rewrite (BlockFacts.all_success_indicator 1).
    + unfold sweep_outcomes.
      rewrite length_map, length_sweep_attempts. reflexivity.
    + intros o Hin.
      exact (sweep_all_success 1 always_succeeds (fun _ _ => eq_refl)
               _ _ _ _ _ Hin).
  - exists yaw, grasp, label, s'.
    split; [exact He |]. split; [exact Hy | exact Hp].
Defined.

End Properties.
